(** * create-stb: a shallow embedding of the scaffolding CLI

    The program is [bin/create-stb.ts] in its latest revision (the one with
    [sanitizePath]).  It is glue over Node's [path], [fs], [child_process],
    [process], [os] and [JSON] interfaces.  The embedding keeps the program's
    own functions as they are written and gives the platform interfaces a
    model:

    - JavaScript strings are [string]s; a character stands for one code unit
      in the range 0..255;
    - [path] is an interface ([path_api]) with Node's POSIX implementation as
      its reference instance;
    - the file system is a tree of plain files and directories; a location
      in it is the list of entry names leading to it from the root, and
      [path.join(dir, entry)] on locations appends one name;
    - what lies outside the program (the runtime's version, child processes,
      the JSON parser, the operating system refusing a removal) is read from
      a [host] record;
    - effects are threaded through a state-and-exception monad [M]. *)

From Stdlib Require Import String Ascii List Bool Arith ZArith NArith Lia.
From Stdlib Require Import DecimalString DecimalN.
Import ListNotations.
Set Warnings "-register-all".
Open Scope list_scope.
Open Scope string_scope.

Arguments Ascii.eqb : simpl never.
Arguments String.eqb : simpl never.

(** ** JavaScript strings *)

Definition code (c : ascii) : nat := nat_of_ascii c.

(** [WhiteSpace] and [LineTerminator] code units below 256, the set that
    [String.prototype.trim] strips: TAB, LF, VT, FF, CR, SP, NBSP. *)
Definition is_js_whitespace (c : ascii) : bool :=
  let n := code c in
  Nat.eqb n 9 || Nat.eqb n 10 || Nat.eqb n 11 || Nat.eqb n 12 || Nat.eqb n 13
  || Nat.eqb n 32 || Nat.eqb n 160.

Fixpoint trimStart (s : string) : string :=
  match s with
  | EmptyString => EmptyString
  | String c r => if is_js_whitespace c then trimStart r else s
  end.

Fixpoint trimEnd (s : string) : string :=
  match s with
  | EmptyString => EmptyString
  | String c r =>
      match trimEnd r with
      | EmptyString => if is_js_whitespace c then EmptyString else String c EmptyString
      | r' => String c r'
      end
  end.

(** [s.trim()] *)
Definition trim (s : string) : string := trimEnd (trimStart s).

(** [s.startsWith(p)] *)
Fixpoint startsWith (p s : string) : bool :=
  match p, s with
  | EmptyString, _ => true
  | String _ _, EmptyString => false
  | String a p', String b s' => Ascii.eqb a b && startsWith p' s'
  end.

Fixpoint string_exists (f : ascii -> bool) (s : string) : bool :=
  match s with
  | EmptyString => false
  | String c r => f c || string_exists f r
  end.

Fixpoint string_forall (f : ascii -> bool) (s : string) : bool :=
  match s with
  | EmptyString => true
  | String c r => f c && string_forall f r
  end.

Fixpoint string_In (c : ascii) (s : string) : Prop :=
  match s with
  | EmptyString => False
  | String d r => d = c \/ string_In c r
  end.

(** [s.split(sep)] for a one-character separator: never an empty array. *)
Fixpoint split_on (sep : ascii) (s : string) : list string :=
  match s with
  | EmptyString => [EmptyString]
  | String c r =>
      if Ascii.eqb c sep then EmptyString :: split_on sep r
      else match split_on sep r with
           | h :: t => String c h :: t
           | [] => [String c EmptyString]
           end
  end.

Fixpoint repeat_string (s : string) (n : nat) : string :=
  match n with
  | O => EmptyString
  | S k => s ++ repeat_string s k
  end.

(** Decimal rendering of integers, as template literals print them. *)
Definition show_N (n : N) : string := NilZero.string_of_uint (N.to_uint n).
Definition show_Z (z : Z) : string := NilZero.string_of_int (Z.to_int z).

(** *** [GetSubstitution] for a pattern without capture groups

    [String.prototype.replace] expands the replacement text: [$$] is a
    dollar sign, [$&] the matched text, [$`] the text before the match and
    [$'] the text after it.  With no capture groups (and no named groups)
    [$1]..[$99] and [$<] stay as written, like any other [$]. *)
Fixpoint GetSubstitution (before matched after template : string) : string :=
  match template with
  | EmptyString => EmptyString
  | String c r =>
      if Ascii.eqb c "$" then
        match r with
        | String d r' =>
            if Ascii.eqb d "$" then String "$" (GetSubstitution before matched after r')
            else if Ascii.eqb d "&" then matched ++ GetSubstitution before matched after r'
            else if Ascii.eqb d "`" then before ++ GetSubstitution before matched after r'
            else if Ascii.eqb d "'" then after ++ GetSubstitution before matched after r'
            else String c (GetSubstitution before matched after r)
        | EmptyString => String c EmptyString
        end
      else String c (GetSubstitution before matched after r)
  end.

(** [s] without its first [n] characters. *)
Fixpoint skip (n : nat) (s : string) : string :=
  match n, s with
  | O, _ => s
  | S _, EmptyString => EmptyString
  | S k, String _ r => skip k r
  end.

(** First occurrence of [pat] in [s]: the text before it and the text after. *)
Fixpoint find_substring (pat s : string) : option (string * string) :=
  if startsWith pat s
  then Some (EmptyString, skip (String.length pat) s)
  else match s with
       | EmptyString => None
       | String c r =>
           match find_substring pat r with
           | Some (b, a) => Some (String c b, a)
           | None => None
           end
       end.

(** [s.replace(pat, template)] with a string pattern: first occurrence only. *)
Definition replace_string (pat template s : string) : string :=
  match find_substring pat s with
  | Some (b, a) => b ++ GetSubstitution b pat a template ++ a
  | None => s
  end.

(** *** The regular expression [/^service:.*$/m]

    [LineTerminator]s below 256 are LF and CR.  With the [m] flag [^]
    matches at the start of the input and after a line terminator, [.]
    matches anything but a line terminator, and [$] matches before a line
    terminator and at the end of the input. *)
Definition is_line_terminator (c : ascii) : bool :=
  let n := code c in Nat.eqb n 10 || Nat.eqb n 13.

Fixpoint take_line (s : string) : string :=
  match s with
  | EmptyString => EmptyString
  | String c r => if is_line_terminator c then EmptyString else String c (take_line r)
  end.

Fixpoint drop_line (s : string) : string :=
  match s with
  | EmptyString => EmptyString
  | String c r => if is_line_terminator c then s else drop_line r
  end.

(** Leftmost match of [/^service:.*$/m] in [s], where [bol] says whether
    [s] starts at the beginning of a line: (before, matched, after). *)
Fixpoint match_service (bol : bool) (s : string) : option (string * string * string) :=
  if bol && startsWith "service:" s
  then Some (EmptyString, take_line s, drop_line s)
  else match s with
       | EmptyString => None
       | String c r =>
           match match_service (is_line_terminator c) r with
           | Some (b, m, a) => Some (String c b, m, a)
           | None => None
           end
       end.

(** [content.replace(/^service:.*$/m, template)]: no [g] flag, so only the
    leftmost match is replaced. *)
Definition replace_service (template content : string) : string :=
  match match_service true content with
  | Some (b, m, a) => b ++ GetSubstitution b m a template ++ a
  | None => content
  end.

(** *** [Number(s)] on the strings a version component can be

    The result is a number or NaN.  Only what the first component of
    [process.version] can be is interpreted: surrounding white space is
    dropped, the empty string is 0 and a run of decimal digits has its
    decimal value; every other text counts as NaN here. *)
Inductive jsnum : Type :=
| Num (z : Z)
| NaN.

Definition digit_value (c : ascii) : option N :=
  let n := code c in
  if Nat.leb 48 n && Nat.leb n 57 then Some (N.of_nat (n - 48)) else None.

Definition is_digit (c : ascii) : bool :=
  match digit_value c with Some _ => true | None => false end.

Fixpoint digits_from (acc : N) (s : string) : option N :=
  match s with
  | EmptyString => Some acc
  | String c r =>
      match digit_value c with
      | Some d => digits_from (acc * 10 + d)%N r
      | None => None
      end
  end.

Definition Number (s : string) : jsnum :=
  match digits_from 0 (trim s) with
  | Some n => Num (Z.of_N n)
  | None => NaN
  end.

(** [a < b] on numbers: false as soon as one side is NaN. *)
Definition js_lt (a : jsnum) (b : Z) : bool :=
  match a with
  | Num z => (z <? b)%Z
  | NaN => false
  end.

(** ** The [path] interface *)

Record path_api : Type := {
  path_resolve : list string -> string;
  path_normalize : string -> string;
  path_join : list string -> string
}.

(** *** Node's POSIX implementation *)

Definition is_absolute (p : string) : bool := startsWith "/" p.

Fixpoint ends_with_slash (p : string) : bool :=
  match p with
  | EmptyString => false
  | String c EmptyString => Ascii.eqb c "/"
  | String _ r => ends_with_slash r
  end.

(** [normalizeString]: drops empty and [.] segments and resolves [..]
    against the segment before it; [acc] holds the kept segments, last
    one first. *)
Fixpoint normalize_segments (allowAboveRoot : bool) (acc segs : list string) : list string :=
  match segs with
  | [] => rev acc
  | seg :: rest =>
      if String.eqb seg EmptyString || String.eqb seg "."
      then normalize_segments allowAboveRoot acc rest
      else if String.eqb seg ".." then
        match acc with
        | top :: acc' =>
            if String.eqb top ".."
            then normalize_segments allowAboveRoot
                   (if allowAboveRoot then ".." :: acc else acc) rest
            else normalize_segments allowAboveRoot acc' rest
        | [] =>
            normalize_segments allowAboveRoot
              (if allowAboveRoot then [".."] else []) rest
        end
      else normalize_segments allowAboveRoot (seg :: acc) rest
  end.

Definition normalizeString (p : string) (allowAboveRoot : bool) : string :=
  String.concat "/" (normalize_segments allowAboveRoot [] (split_on "/" p)).

(** The loop of [path.resolve]: arguments from the last to the first, then
    the working directory, until an absolute one is met. *)
Fixpoint resolve_loop (candidates : list string) (resolvedPath : string) : string * bool :=
  match candidates with
  | [] => (resolvedPath, false)
  | p :: rest =>
      if String.eqb p EmptyString then resolve_loop rest resolvedPath
      else if is_absolute p then (p ++ "/" ++ resolvedPath, true)
      else resolve_loop rest (p ++ "/" ++ resolvedPath)
  end.

Definition posix_resolve (cwd : string) (paths : list string) : string :=
  let (resolvedPath, resolvedAbsolute) := resolve_loop (rev paths ++ [cwd])%list EmptyString in
  let body := normalizeString resolvedPath (negb resolvedAbsolute) in
  if resolvedAbsolute then "/" ++ body
  else if String.eqb body EmptyString then "." else body.

Definition posix_normalize (p : string) : string :=
  if String.eqb p EmptyString then "." else
  let isAbsolute := is_absolute p in
  let trailingSeparator := ends_with_slash p in
  let body := normalizeString p (negb isAbsolute) in
  if String.eqb body EmptyString then
    (if isAbsolute then "/" else if trailingSeparator then "./" else ".")
  else
    let body := if trailingSeparator then body ++ "/" else body in
    if isAbsolute then "/" ++ body else body.

Definition posix_join (paths : list string) : string :=
  match filter (fun p => negb (String.eqb p EmptyString)) paths with
  | [] => "."
  | l => posix_normalize (String.concat "/" l)
  end.

(** A segment that names an entry: not empty, not [.], not [..]. *)
Definition is_name (s : string) : bool :=
  negb (String.eqb s EmptyString) && negb (String.eqb s ".") && negb (String.eqb s "..").

Definition no_slash (s : string) : bool :=
  string_forall (fun c => negb (Ascii.eqb c "/")) s.

(** Segments in normal form: names only, after a run of [..] when the
    path may climb above its start. *)
Fixpoint normal (allowAboveRoot : bool) (l : list string) : bool :=
  match l with
  | [] => true
  | s :: r =>
      if String.eqb s ".." then allowAboveRoot && normal allowAboveRoot r
      else is_name s && forallb is_name r
  end.

Definition posix (cwd : string) : path_api :=
  {| path_resolve := posix_resolve cwd;
     path_normalize := posix_normalize;
     path_join := posix_join |}.

(** ** Errors *)

Inductive errno : Type := ENOENT | ENOTDIR | EISDIR | EEXIST | EBUSY | EACCES | EPERM.

(** A location in the file system: entry names from the root. *)
Definition fpath : Type := list string.

(** What a [throw] carries: an [Error] made by the program, a [TypeError]
    or [SyntaxError] of the language, or the error of a failed [fs] call. *)
Inductive exn : Type :=
| Error (message : string)
| TypeError (message : string)
| SyntaxError (message : string)
| SystemError (code : errno) (syscall : string) (target : fpath).

(** ** The file system: a tree of plain files and directories *)

Inductive node : Type :=
| File (content : string)
| Dir (entries : list (string * node)).

Fixpoint assoc {A : Type} (k : string) (l : list (string * A)) : option A :=
  match l with
  | [] => None
  | (k', v) :: r => if String.eqb k k' then Some v else assoc k r
  end.

(** Assignment to a key: in place when the key is there, appended when not. *)
Fixpoint set_entry {A : Type} (k : string) (v : A) (l : list (string * A)) : list (string * A) :=
  match l with
  | [] => [(k, v)]
  | (k', v') :: r => if String.eqb k k' then (k, v) :: r else (k', v') :: set_entry k v r
  end.

Fixpoint remove_entry {A : Type} (k : string) (l : list (string * A)) : list (string * A) :=
  match l with
  | [] => []
  | (k', v') :: r => if String.eqb k k' then remove_entry k r else (k', v') :: remove_entry k r
  end.

(** Path resolution: the node at [p], or why there is none.  A missing
    entry is [ENOENT]; a plain file met before the end is [ENOTDIR]. *)
Fixpoint walk (p : fpath) (n : node) : errno + node :=
  match p with
  | [] => inr n
  | x :: q =>
      match n with
      | File _ => inl ENOTDIR
      | Dir es =>
          match assoc x es with
          | Some c => walk q c
          | None => inl ENOENT
          end
      end
  end.

(** [mkdir -p]: existing directories on the way are kept, missing ones are
    made; a plain file in the way is an error. *)
Fixpoint mkdirp (p : fpath) (n : node) : errno + node :=
  match n with
  | File _ => inl (match p with [] => EEXIST | _ :: _ => ENOTDIR end)
  | Dir es =>
      match p with
      | [] => inr n
      | x :: q =>
          match mkdirp q (match assoc x es with Some c => c | None => Dir [] end) with
          | inr c' => inr (Dir (set_entry x c' es))
          | inl e => inl e
          end
      end
  end.

(** Writing a whole file: the parent must be a directory; the file is
    created or overwritten; a directory is never overwritten. *)
Fixpoint put_file (p : fpath) (c : string) (n : node) : errno + node :=
  match p, n with
  | [], File _ => inr (File c)
  | [], Dir _ => inl EISDIR
  | _ :: _, File _ => inl ENOTDIR
  | x :: q, Dir es =>
      match assoc x es, q with
      | None, [] => inr (Dir (set_entry x (File c) es))
      | None, _ :: _ => inl ENOENT
      | Some ch, _ =>
          match put_file q c ch with
          | inr ch' => inr (Dir (set_entry x ch' es))
          | inl e => inl e
          end
      end
  end.

(** Recursive, forced removal: the entry goes with all it holds, a missing
    entry is no error, and the root cannot be removed. *)
Fixpoint remove (p : fpath) (n : node) : errno + node :=
  match p with
  | [] => inl EBUSY
  | x :: q =>
      match n with
      | File _ => inl ENOTDIR
      | Dir es =>
          match q with
          | [] => inr (Dir (remove_entry x es))
          | _ :: _ =>
              match assoc x es with
              | None => inr n
              | Some ch =>
                  match remove q ch with
                  | inr ch' => inr (Dir (set_entry x ch' es))
                  | inl e => inl e
                  end
              end
          end
      end
  end.

(** A directory entry as [readdirSync(_, { withFileTypes: true })] gives it. *)
Record dirent : Type := { name : string; isDirectory : bool }.

Definition dirent_of (e : string * node) : dirent :=
  {| name := fst e;
     isDirectory := match snd e with Dir _ => true | File _ => false end |}.

Definition show_path (p : fpath) : string :=
  match p with
  | [] => "/"
  | _ => String.concat EmptyString (map (fun x => "/" ++ x) p)
  end.

(** ** JSON values *)

(** A number is kept as the text [Number::toString] gives for it; the
    non-finite ones, which [JSON.stringify] writes as [null], are apart. *)
Inductive json_number : Type :=
| Finite (text : string)
| NonFinite.

(** An object is its own properties in [OwnPropertyKeys] order. *)
Inductive json : Type :=
| JNull
| JBool (b : bool)
| JNumber (x : json_number)
| JString (s : string)
| JArray (items : list json)
| JObject (members : list (string * json)).

Definition dquote : string := String (ascii_of_nat 34) EmptyString.
Definition backslash : string := String (ascii_of_nat 92) EmptyString.
Definition newline : string := String (ascii_of_nat 10) EmptyString.
Definition carriage_return : string := String (ascii_of_nat 13) EmptyString.

Definition hex_digit (n : nat) : string :=
  String (ascii_of_nat (if Nat.ltb n 10 then 48 + n else 87 + n)) EmptyString.

(** [QuoteJSONString], one code unit at a time. *)
Definition quote_char (c : ascii) : string :=
  let n := code c in
  if Nat.eqb n 8 then backslash ++ "b"
  else if Nat.eqb n 9 then backslash ++ "t"
  else if Nat.eqb n 10 then backslash ++ "n"
  else if Nat.eqb n 12 then backslash ++ "f"
  else if Nat.eqb n 13 then backslash ++ "r"
  else if Nat.eqb n 34 then backslash ++ dquote
  else if Nat.eqb n 92 then backslash ++ backslash
  else if Nat.ltb n 32 then backslash ++ "u00" ++ hex_digit (n / 16) ++ hex_digit (n mod 16)
  else String c EmptyString.

Fixpoint quote_body (s : string) : string :=
  match s with
  | EmptyString => EmptyString
  | String c r => quote_char c ++ quote_body r
  end.

Definition QuoteJSONString (s : string) : string := dquote ++ quote_body s ++ dquote.

(** [SerializeJSONProperty] with the given [gap], at indentation [indent]. *)
Fixpoint serialize (gap indent : string) (v : json) : string :=
  let stepback := indent in
  let indent := indent ++ gap in
  let wrap (opening closing : string) (partial : list string) : string :=
    match partial with
    | [] => opening ++ closing
    | _ =>
        if String.eqb gap EmptyString
        then opening ++ String.concat "," partial ++ closing
        else opening ++ newline ++ indent
             ++ String.concat ("," ++ newline ++ indent) partial
             ++ newline ++ stepback ++ closing
    end in
  match v with
  | JNull => "null"
  | JBool true => "true"
  | JBool false => "false"
  | JNumber (Finite text) => text
  | JNumber NonFinite => "null"
  | JString s => QuoteJSONString s
  | JArray items => wrap "[" "]" (map (serialize gap indent) items)
  | JObject members =>
      wrap "{" "}"
        (map (fun kv =>
                QuoteJSONString (fst kv)
                ++ (if String.eqb gap EmptyString then ":" else ": ")
                ++ serialize gap indent (snd kv))
             members)
  end.

(** [JSON.stringify(value, null, space)] for a number of spaces. *)
Definition JSON_stringify (value : json) (space : nat) : string :=
  serialize (repeat_string " " (Nat.min 10 space)) EmptyString value.

(** [o[k] = v] in strict mode.  On an object it sets or adds the own
    property; on [null] and on a primitive it throws; on an array it adds
    a property that is no element, which [JSON.stringify] does not write. *)
Definition set_property (o : json) (k : string) (v : json) : exn + json :=
  match o with
  | JObject members => inr (JObject (set_entry k v members))
  | JArray items => inr (JArray items)
  | JNull => inl (TypeError ("Cannot set properties of null (setting '" ++ k ++ "')"))
  | JBool _ | JNumber _ | JString _ =>
      inl (TypeError ("Cannot create property '" ++ k ++ "' on a primitive value"))
  end.

(** ** The host and the world *)

(** A child process as the program starts it: [execFileSync] passes an
    argument vector, [execSync] a command line for the shell. *)
Inductive call : Type :=
| ExecFile (file : string) (args : list string) (cwd : option string) (stdio : string)
| ExecShell (command : string) (cwd : option string) (stdio : string).

(** What the program reads from its surroundings and cannot change. *)
Record host : Type := {
  process_version : string;
  process_cwd : string;
  stdout_columns : option nat;
  os_tmpdir : string;
  Date_now : N;
  path : path_api;
  (** where the operating system finds the entry a path text names *)
  locate : string -> fpath;
  (** a child process: whether it fails, and the file system it leaves *)
  child_process : call -> node -> option exn * node;
  (** the operating system refusing to remove an entry (permissions, a
      file in use) *)
  os_refuses_removal : fpath -> option errno;
  JSON_parse : string -> exn + json
}.

(** What the program changes: the file system, the two output streams and
    the list of child processes started so far. *)
Record world : Type := {
  fs : node;
  stdout : list string;
  stderr : list string;
  spawned : list call
}.

Definition set_fs (n : node) (w : world) : world :=
  {| fs := n; stdout := stdout w; stderr := stderr w; spawned := spawned w |}.

(** ** The monad of effects *)

(** How a computation ends: a value, a thrown error, [process.exit], or
    the recursion budget of the model running out. *)
Inductive outcome (A : Type) : Type :=
| Ret (a : A)
| Throw (e : exn)
| Exit (status : Z)
| OutOfFuel.

Arguments Ret {A} a.
Arguments Throw {A} e.
Arguments Exit {A} status.
Arguments OutOfFuel {A}.

Definition M (A : Type) : Type := world -> outcome A * world.

Definition ret {A : Type} (a : A) : M A := fun w => (Ret a, w).

Definition throw {A : Type} (e : exn) : M A := fun w => (Throw e, w).

Definition bind {A B : Type} (m : M A) (k : A -> M B) : M B :=
  fun w =>
    match m w with
    | (Ret a, w') => k a w'
    | (Throw e, w') => (Throw e, w')
    | (Exit s, w') => (Exit s, w')
    | (OutOfFuel, w') => (OutOfFuel, w')
    end.

Notation "x <- m ;; k" := (bind m (fun x => k))
  (at level 61, m at next level, right associativity).
Notation "m ;; k" := (bind m (fun _ => k))
  (at level 61, right associativity).

(** [try { body } catch (error) { handler error }] *)
Definition try_catch {A : Type} (body : M A) (handler : exn -> M A) : M A :=
  fun w =>
    match body w with
    | (Throw e, w') => handler e w'
    | r => r
    end.

Definition lift {A : Type} (r : exn + A) : M A :=
  match r with
  | inr a => ret a
  | inl e => throw e
  end.

Fixpoint for_each {A : Type} (l : list A) (body : A -> M unit) : M unit :=
  match l with
  | [] => ret tt
  | a :: r => body a ;; for_each r body
  end.

Definition process_exit {A : Type} (status : Z) : M A := fun w => (Exit status, w).

Definition stdout_write (s : string) : M unit :=
  fun w => (Ret tt, {| fs := fs w; stdout := (stdout w ++ [s])%list;
                       stderr := stderr w; spawned := spawned w |}).

Definition console_log (s : string) : M unit := stdout_write (s ++ newline).

Definition console_error (s : string) : M unit :=
  fun w => (Ret tt, {| fs := fs w; stdout := stdout w;
                       stderr := (stderr w ++ [(s ++ newline)%string])%list; spawned := spawned w |}).

(** ** Node's [fs] and [child_process] calls *)

Section Program.

Variable H : host.

(** [fs.existsSync]: false whenever the path cannot be resolved. *)
Definition existsSync (p : fpath) : M bool :=
  fun w => (Ret (match walk p (fs w) with inr _ => true | inl _ => false end), w).

(** [fs.readdirSync(p, { withFileTypes: true })] *)
Definition readdirSync (p : fpath) : M (list dirent) :=
  fun w =>
    match walk p (fs w) with
    | inr (Dir es) => (Ret (map dirent_of es), w)
    | inr (File _) => (Throw (SystemError ENOTDIR "scandir" p), w)
    | inl e => (Throw (SystemError e "scandir" p), w)
    end.

(** [fs.mkdirSync(p, { recursive: true })] *)
Definition mkdirSync (p : fpath) : M unit :=
  fun w =>
    match mkdirp p (fs w) with
    | inr n => (Ret tt, set_fs n w)
    | inl e => (Throw (SystemError e "mkdir" p), w)
    end.

(** [fs.readFileSync(p, "utf8")] *)
Definition readFileSync (p : fpath) : M string :=
  fun w =>
    match walk p (fs w) with
    | inr (File c) => (Ret c, w)
    | inr (Dir _) => (Throw (SystemError EISDIR "read" p), w)
    | inl e => (Throw (SystemError e "open" p), w)
    end.

(** [fs.writeFileSync(p, data)] *)
Definition writeFileSync (p : fpath) (data : string) : M unit :=
  fun w =>
    match put_file p data (fs w) with
    | inr n => (Ret tt, set_fs n w)
    | inl e => (Throw (SystemError e "open" p), w)
    end.

(** [fs.copyFileSync(src, dest)] *)
Definition copyFileSync (src dest : fpath) : M unit :=
  fun w =>
    match walk src (fs w) with
    | inr (File c) =>
        match put_file dest c (fs w) with
        | inr n => (Ret tt, set_fs n w)
        | inl e => (Throw (SystemError e "copyfile" dest), w)
        end
    | inr (Dir _) => (Throw (SystemError EISDIR "copyfile" src), w)
    | inl e => (Throw (SystemError e "copyfile" src), w)
    end.

(** [fs.rmSync(p, { recursive: true, force: true })]: [force] silences a
    missing path and nothing else. *)
Definition rmSync (p : fpath) : M unit :=
  fun w =>
    match walk p (fs w) with
    | inl ENOENT => (Ret tt, w)
    | inl e => (Throw (SystemError e "rm" p), w)
    | inr _ =>
        match os_refuses_removal H p with
        | Some e => (Throw (SystemError e "rm" p), w)
        | None =>
            match remove p (fs w) with
            | inr n => (Ret tt, set_fs n w)
            | inl e => (Throw (SystemError e "rm" p), w)
            end
        end
    end.

Definition spawn (c : call) : M unit :=
  fun w =>
    let (failure, n) := child_process H c (fs w) in
    (match failure with None => Ret tt | Some e => Throw e end,
     {| fs := n; stdout := stdout w; stderr := stderr w;
        spawned := (spawned w ++ [c])%list |}).

(** [execFileSync(file, args, { cwd, stdio })] *)
Definition execFileSync (file : string) (args : list string)
  (cwd : option string) (stdio : string) : M unit :=
  spawn (ExecFile file args cwd stdio).

(** [execSync(command, { cwd, stdio })] *)
Definition execSync (command : string) (cwd : option string) (stdio : string) : M unit :=
  spawn (ExecShell command cwd stdio).

(** ** The program *)

(** [process.stdout.columns || 80] *)
Definition width : nat :=
  match stdout_columns H with
  | Some (S n) => S n
  | _ => 80
  end.

Definition writeLine (msg : string) : M unit :=
  stdout_write (carriage_return ++ repeat_string " " width ++ carriage_return ++ msg).

Definition clearLine : M unit :=
  stdout_write (carriage_return ++ repeat_string " " width ++ carriage_return).

Definition step (label : string) : M unit := writeLine (label ++ "...").

Definition doneStep : M unit := clearLine.

(** The character class of [sanitizePath]'s regular expression: backtick,
    dollar, pipe, semicolon, ampersand, angle brackets and NUL. *)
Definition is_dangerous (c : ascii) : bool :=
  let n := code c in
  Nat.eqb n 96 || Nat.eqb n 36 || Nat.eqb n 124 || Nat.eqb n 59 || Nat.eqb n 38
  || Nat.eqb n 60 || Nat.eqb n 62 || Nat.eqb n 0.

Definition sanitizePath (inputPath : string) : exn + string :=
  if String.eqb (trim inputPath) EmptyString
  then inl (Error "Path must be a non-empty string")
  else
    let trimmed := trim inputPath in
    if startsWith "-" trimmed || string_exists is_dangerous trimmed
    then inl (Error "Invalid path: contains dangerous characters")
    else inr (path_normalize (path H) (path_resolve (path H) [trimmed])).

Definition checkNodeVersion (minMajor : Z) : M unit :=
  let major := hd EmptyString (split_on "." (replace_string "v" EmptyString (process_version H))) in
  if js_lt (Number major) minMajor
  then throw (Error ("Node.js v" ++ show_Z minMajor ++ "+ required"))
  else ret tt.

Definition checkGitInstalled : M unit :=
  try_catch (execFileSync "git" ["--version"] None "ignore")
    (fun _ => throw (Error "Git is not installed. Please install git and try again.")).

Definition repoUrl : string := "https://github.com/SamNewhouse/create-stb.git".

Definition cloneBoilerplate (tempDir : string) : M string :=
  safeTempDir <- lift (sanitizePath tempDir) ;;
  let clonePath := path_join (path H) [safeTempDir; "create-stb-temp"] in
  safeClonePath <- lift (sanitizePath clonePath) ;;
  execFileSync "git"
    ["clone"; "--depth"; "1"; "--filter=blob:none"; "--sparse"; repoUrl; safeClonePath]
    None "ignore" ;;
  execFileSync "git" ["sparse-checkout"; "set"; "serverless"]
    (Some safeClonePath) "ignore" ;;
  ret (path_join (path H) [safeClonePath; "serverless"]).

Definition createProjectDirectory (projectPath : fpath) : M unit :=
  present <- existsSync projectPath ;;
  if present then
    entries <- readdirSync projectPath ;;
    if Nat.eqb (List.length entries) 0 then ret tt
    else throw (Error ("Directory " ++ dquote ++ show_path projectPath ++ dquote
                       ++ " exists and is not empty."))
  else mkdirSync projectPath.

(** The recursion of [copyDir] follows the tree it reads; [fuel] bounds
    its depth. *)
Fixpoint copyDir (fuel : nat) (src dest : fpath) : M unit :=
  match fuel with
  | O => fun w => (OutOfFuel, w)
  | S fuel' =>
      present <- existsSync dest ;;
      (if present then ret tt else mkdirSync dest) ;;
      entries <- readdirSync src ;;
      for_each entries (fun entry =>
        let srcPath := (src ++ [name entry])%list in
        let destPath := (dest ++ [name entry])%list in
        if isDirectory entry
        then copyDir fuel' srcPath destPath
        else copyFileSync srcPath destPath)
  end.

Definition cleanupTemp (tempDir : fpath) : M unit :=
  present <- existsSync tempDir ;;
  if present then rmSync tempDir else ret tt.

Definition updatePackageJson (projectPath : fpath) (projectName : string) : M unit :=
  let file := (projectPath ++ ["package.json"])%list in
  present <- existsSync file ;;
  if negb present then ret tt else
  text <- readFileSync file ;;
  pkg <- lift (JSON_parse H text) ;;
  pkg <- lift (set_property pkg "name" (JString projectName)) ;;
  pkg <- lift (set_property pkg "description" (JString (projectName ++ " app description"))) ;;
  writeFileSync file (JSON_stringify pkg 2).

Definition updateServerlessYml (projectPath : fpath) (projectName : string) : M unit :=
  let serverlessPath := (projectPath ++ ["serverless.yml"])%list in
  present <- existsSync serverlessPath ;;
  if negb present then ret tt else
  content <- readFileSync serverlessPath ;;
  let content := replace_service ("service: " ++ projectName) content in
  writeFileSync serverlessPath content.

(** The steps inside [main]'s [try].  The check mark that opens the
    closing banner is a code unit above 255 and is left out of the text. *)
Definition pipeline (fuel : nat) (name projectPath tempDir : string) : M unit :=
  step "Checking Node version" ;;
  checkNodeVersion 20 ;;
  doneStep ;;
  step "Checking Git installation" ;;
  checkGitInstalled ;;
  doneStep ;;
  step "Creating project directory" ;;
  createProjectDirectory (locate H projectPath) ;;
  doneStep ;;
  step "Downloading boilerplate template" ;;
  boilerplateSrc <- cloneBoilerplate tempDir ;;
  doneStep ;;
  step "Copying boilerplate files" ;;
  copyDir fuel (locate H boilerplateSrc) (locate H projectPath) ;;
  doneStep ;;
  step "Cleaning up temporary files" ;;
  cleanupTemp (locate H tempDir) ;;
  doneStep ;;
  step "Updating package.json" ;;
  updatePackageJson (locate H projectPath) name ;;
  doneStep ;;
  step "Updating serverless.yml" ;;
  updateServerlessYml (locate H projectPath) name ;;
  doneStep ;;
  step "Installing packages" ;;
  execSync "npm install --silent" (Some projectPath) "inherit" ;;
  doneStep ;;
  clearLine ;;
  console_log (newline ++ "Installation complete!" ++ newline ++ newline
               ++ "Next steps:" ++ newline ++ newline
               ++ "  cd " ++ name ++ newline ++ "  npm run offline" ++ newline).

(** [main]; [argv2] is [process.argv[2]], absent or a string. *)
Definition main (fuel : nat) (argv2 : option string) : M unit :=
  match argv2 with
  | None | Some EmptyString =>
      console_error "Please provide a project name." ;;
      process_exit 1
  | Some name =>
      let projectPath := path_resolve (path H) [process_cwd H; name] in
      let tempDir := path_join (path H) [os_tmpdir H; "create-stb-" ++ show_N (Date_now H)] in
      try_catch (pipeline fuel name projectPath tempDir)
        (fun error => cleanupTemp (locate H tempDir) ;; throw error)
  end.

End Program.

(** ** Vocabulary for stating what the file-system functions do *)

(** [is_prefix p q]: [q] is [p] or lies under it. *)
Fixpoint is_prefix (p q : fpath) : bool :=
  match p, q with
  | [], _ => true
  | _ :: _, [] => false
  | x :: p', y :: q' => String.eqb x y && is_prefix p' q'
  end.

(** Two locations are apart when neither lies under the other. *)
Definition apart (p q : fpath) : Prop :=
  is_prefix p q = false /\ is_prefix q p = false.

(** The tree with [t] placed at [p]: directories missing on the way are
    made, a new entry goes last in its directory, an entry that is there
    is replaced where it stands. *)
Fixpoint graft (p : fpath) (t : node) (n : node) : node :=
  match p with
  | [] => t
  | x :: q =>
      match n with
      | File _ => n
      | Dir es =>
          Dir (set_entry x
                 (graft q t (match assoc x es with Some c => c | None => Dir [] end))
                 es)
      end
  end.

Fixpoint depth (n : node) : nat :=
  match n with
  | File _ => 0
  | Dir es => S (list_max (map (fun e => depth (snd e)) es))
  end.

(** A directory holds each name once, at every level. *)
Fixpoint well_formed (n : node) : Prop :=
  match n with
  | File _ => True
  | Dir es =>
      NoDup (map fst es)
      /\ (fix all (l : list (string * node)) : Prop :=
            match l with
            | [] => True
            | e :: r => well_formed (snd e) /\ all r
            end) es
  end.

(** A location is clear when no plain file stands on the way to it: it
    is there, or it is missing and can be made. *)
Definition clear (p : fpath) (n : node) : Prop :=
  walk p n = inl ENOENT \/ exists m, walk p n = inr m.

(** [s] occurs in [t]. *)
Definition contains (t s : string) : Prop :=
  exists pre post, t = pre ++ s ++ post.

(** The characters [sanitizePath] refuses, as the specification lists
    them: backtick, dollar sign, pipe, semicolon, ampersand, less-than,
    greater-than, NUL. *)
Definition dangerous_characters : list ascii :=
  ["`"; "$"; "|"; ";"; "&"; "<"; ">"; "000"]%char.

(** The inputs [sanitizePath] is specified to refuse. *)
Definition refused (inputPath : string) : Prop :=
  trim inputPath = EmptyString
  \/ (exists rest, trim inputPath = String "-" rest)
  \/ (exists c, In c dangerous_characters /\ string_In c (trim inputPath)).

(** ** A sample host

    POSIX paths below [/home/dev]; Node 20; [git] and [npm] that work: the
    clone leaves the template under [<dest>/serverless], the install adds
    [node_modules]. *)

Definition posix_locate (cwd : string) (s : string) : fpath :=
  filter (fun x => negb (String.eqb x EmptyString)) (split_on "/" (posix_resolve cwd [s])).

Definition sample_package_json : string :=
  "{" ++ newline ++ "  " ++ dquote ++ "name" ++ dquote ++ ": " ++ dquote ++ "old" ++ dquote
  ++ "," ++ newline ++ "  " ++ dquote ++ "description" ++ dquote ++ ": " ++ dquote ++ "desc" ++ dquote
  ++ "," ++ newline ++ "  " ++ dquote ++ "version" ++ dquote ++ ": " ++ dquote ++ "1.0.0" ++ dquote
  ++ newline ++ "}".

Definition sample_package : json :=
  JObject [("name", JString "old"); ("description", JString "desc");
           ("version", JString "1.0.0")].

Definition sample_serverless_yml : string :=
  "service: starter-name" ++ newline ++ "provider:" ++ newline ++ "  name: aws" ++ newline.

Definition sample_entries : list (string * node) :=
  [("package.json", File sample_package_json);
   ("serverless.yml", File sample_serverless_yml);
   (".gitignore", File "node_modules");
   ("src", Dir [("handler.ts", File "export const handler = 1;")])].

Definition sample_template : node := Dir sample_entries.

(** A [JSON.parse] that reads the documents of the examples and takes
    every other text for malformed. *)
Definition sample_JSON_parse (known : list json) (text : string) : exn + json :=
  match find (fun v => String.eqb (JSON_stringify v 2) text) known with
  | Some v => inr v
  | None => inl (SyntaxError "Unexpected token in JSON")
  end.

Definition sample_child_process (cwd : string) (c : call) (n : node) : option exn * node :=
  match c with
  | ExecFile file args _ _ =>
      if negb (String.eqb file "git") then (Some (Error "spawnSync ENOENT"), n)
      else match args with
           | [_; _; _; _; _; _; dest] =>
               (None, graft (posix_locate cwd dest)
                        (Dir [(".git", Dir [("HEAD", File "ref: refs/heads/main")]);
                              ("serverless", sample_template)]) n)
           | _ => (None, n)
           end
  | ExecShell _ (Some dir) _ =>
      (None, graft (posix_locate cwd dir ++ ["node_modules"])%list (Dir []) n)
  | ExecShell _ None _ => (None, n)
  end.

Definition sample_host : host :=
  {| process_version := "v20.11.0";
     process_cwd := "/home/dev";
     stdout_columns := Some 20;
     os_tmpdir := "/tmp";
     Date_now := 1700000000000;
     path := posix "/home/dev";
     locate := posix_locate "/home/dev";
     child_process := sample_child_process "/home/dev";
     os_refuses_removal := fun _ => None;
     JSON_parse :=
       sample_JSON_parse
         [sample_package;
          JObject [("name", JString "demo"); ("description", JString "demo app description");
                   ("version", JString "1.0.0")]] |}.

Definition sample_fs : node :=
  Dir [("home", Dir [("dev", Dir [])]); ("tmp", Dir [])].

Definition sample_world : world :=
  {| fs := sample_fs; stdout := []; stderr := []; spawned := [] |}.


(** The sample world with the template unpacked at [/tmp/tpl]. *)
Definition template_world : world :=
  set_fs (graft ["tmp"; "tpl"] sample_template sample_fs) sample_world.

(** The tree of the repository's [copyDir] test: a file, a dotfile and a
    nested directory with a file. *)
Definition test_template : list (string * node) :=
  [("file.txt", File "hello world");
   (".dotfile", File "dotfile");
   ("sub", Dir [("nested.txt", File "nested")])].

Definition test_world : world :=
  set_fs (Dir [("test-tmp", Dir [("template", Dir test_template)])]) sample_world.

(** What [copyDir] does on a directory [t] found at [src], for a
    destination that is missing or empty: the tree becomes the one with
    [t] grafted at [dest]. *)
Definition copies (t : node) : Prop :=
  forall (fuel : nat) (src dest : fpath) (w : world),
    depth t < fuel
    -> walk src (fs w) = inr t
    -> (exists es, t = Dir es)
    -> well_formed t
    -> apart src dest
    -> (walk dest (fs w) = inl ENOENT \/ walk dest (fs w) = inr (Dir []))
    -> copyDir fuel src dest w = (Ret tt, set_fs (graft dest t (fs w)) w).

(** The sample world with a project at [/home/dev/demo] that holds the
    two metadata files. *)
Definition project_world : world :=
  set_fs (graft ["home"; "dev"; "demo"]
            (Dir [("package.json", File sample_package_json);
                  ("serverless.yml", File sample_serverless_yml)])
            sample_fs)
         sample_world.

(** The members [updatePackageJson] leaves in the descriptor. *)
Definition renamed (projectName : string) (members : list (string * json)) :
  list (string * json) :=
  set_entry "description" (JString (projectName ++ " app description"))
    (set_entry "name" (JString projectName) members).

(** A member other than [name] and [description]. *)
Definition other_member (kv : string * json) : bool :=
  negb (String.eqb "name" (fst kv)) && negb (String.eqb "description" (fst kv)).

(** The two child processes [cloneBoilerplate] starts, for a sanitized
    clone destination. *)
Definition clone_call (safeClonePath : string) : call :=
  ExecFile "git"
    ["clone"; "--depth"; "1"; "--filter=blob:none"; "--sparse"; repoUrl; safeClonePath]
    None "ignore".

Definition sparse_checkout_call (safeClonePath : string) : call :=
  ExecFile "git" ["sparse-checkout"; "set"; "serverless"] (Some safeClonePath) "ignore".

(** The world after a child process. *)
Definition after_child (c : call) (n : node) (w : world) : world :=
  {| fs := n; stdout := stdout w; stderr := stderr w;
     spawned := (spawned w ++ [c])%list |}.

(** A host on which [git sparse-checkout] fails after a clone that
    worked, and on which the operating system may refuse ([locked]) to
    remove what the clone left in the temporary directory. *)
Definition sparse_checkout_failure : exn :=
  Error "Command failed: git sparse-checkout set serverless".

Definition failing_child_process (cwd : string) (c : call) (n : node) : option exn * node :=
  match c with
  | ExecFile _ [_; _; _] _ _ => (Some sparse_checkout_failure, n)
  | _ => sample_child_process cwd c n
  end.

Definition failing_host (locked : bool) : host :=
  {| process_version := "v20.11.0";
     process_cwd := "/home/dev";
     stdout_columns := Some 20;
     os_tmpdir := "/tmp";
     Date_now := 1700000000000;
     path := posix "/home/dev";
     locate := posix_locate "/home/dev";
     child_process := failing_child_process "/home/dev";
     os_refuses_removal := fun _ => if locked then Some EPERM else None;
     JSON_parse := sample_JSON_parse [sample_package] |}.

(** ** The service line, in the specification's words

    A text is a sequence of lines, each with the line terminator that ends
    it (the last line has none).  The first line that begins with
    [service:] becomes [service: <projectName>]; every other line and every
    line terminator stays as it is. *)

Fixpoint text_lines (s : string) : list (string * string) :=
  match s with
  | EmptyString => [(EmptyString, EmptyString)]
  | String c r =>
      if is_line_terminator c then (EmptyString, String c EmptyString) :: text_lines r
      else match text_lines r with
           | (b, t) :: ls => (String c b, t) :: ls
           | [] => [(String c EmptyString, EmptyString)]
           end
  end.

Fixpoint unlines (ls : list (string * string)) : string :=
  match ls with
  | [] => EmptyString
  | (b, t) :: r => b ++ t ++ unlines r
  end.

Fixpoint rewrite_first_service_line (projectName : string) (ls : list (string * string)) :
  list (string * string) :=
  match ls with
  | [] => []
  | (b, t) :: r =>
      if startsWith "service:" b then ("service: " ++ projectName, t) :: r
      else (b, t) :: rewrite_first_service_line projectName r
  end.

Definition service_line_rewritten (projectName content : string) : string :=
  unlines (rewrite_first_service_line projectName (text_lines content)).

(** The first line that begins with [service:], with the text before it
    and the text after it. *)
Fixpoint first_service_line (ls : list (string * string)) : option (string * string * string) :=
  match ls with
  | [] => None
  | (b, t) :: r =>
      if startsWith "service:" b then Some (EmptyString, b, t ++ unlines r)
      else match first_service_line r with
           | Some (pre, m, post) => Some (b ++ t ++ pre, m, post)
           | None => None
           end
  end.

Definition is_dollar (c : ascii) : bool := Ascii.eqb c "$".

(** The setting of the repository's [updatePackageJson] test: a descriptor
    [{ name: "old", description: "desc" }] under [/test-tmp], and a host
    that reads it and what the call writes. *)
Definition test_package : json :=
  JObject [("name", JString "old"); ("description", JString "desc")].

Definition test_package_world : world :=
  set_fs (Dir [("test-tmp", Dir [("package.json", File (JSON_stringify test_package 2))])])
         sample_world.

Definition test_host : host :=
  {| process_version := process_version sample_host;
     process_cwd := process_cwd sample_host;
     stdout_columns := stdout_columns sample_host;
     os_tmpdir := os_tmpdir sample_host;
     Date_now := Date_now sample_host;
     path := path sample_host;
     locate := locate sample_host;
     child_process := child_process sample_host;
     os_refuses_removal := os_refuses_removal sample_host;
     JSON_parse :=
       sample_JSON_parse
         [test_package;
          JObject [("name", JString "new-name");
                   ("description", JString "new-name app description")]] |}.

(** ** What a computation leaves alone *)

(** [m] changes the file system under [d] and on the way to it only, and
    nothing else of the world. *)
Definition writes_under {A : Type} (d : fpath) (m : M A) : Prop :=
  forall w,
    (forall q, apart d q -> walk q (fs (snd (m w))) = walk q (fs w))
    /\ stdout (snd (m w)) = stdout w
    /\ stderr (snd (m w)) = stderr w
    /\ spawned (snd (m w)) = spawned w.

(** [m] never calls [process.exit], writes nothing on the error stream,
    and starts child processes among the [allowed] ones only. *)
Definition orderly {A : Type} (allowed : call -> Prop) (m : M A) : Prop :=
  forall w,
    (forall s, fst (m w) <> Exit s)
    /\ stderr (snd (m w)) = stderr w
    /\ exists l, spawned (snd (m w)) = (spawned w ++ l)%list /\ Forall allowed l.

(** The child processes of [main]: [git --version], the clone and the
    sparse checkout for a destination that [sanitizePath] returned, and
    the install in the project directory. *)
Inductive main_call (H : host) (name : string) : call -> Prop :=
| git_version_call :
    main_call H name (ExecFile "git" ["--version"] None "ignore")
| git_clone_call (p safeClonePath : string) :
    sanitizePath H p = inr safeClonePath
    -> main_call H name (clone_call safeClonePath)
| git_sparse_checkout_call (p safeClonePath : string) :
    sanitizePath H p = inr safeClonePath
    -> main_call H name (sparse_checkout_call safeClonePath)
| npm_install_call :
    main_call H name
      (ExecShell "npm install --silent"
         (Some (path_resolve (path H) [process_cwd H; name])) "inherit").

(** A world in which a plain file stands where [copyDir] of the test
    tree needs a directory. *)
Definition blocked_world : world :=
  set_fs (Dir [("test-tmp", Dir [("template", Dir test_template);
                                 ("target", Dir [("sub", File "in the way")]);
                                 ("other", File "kept")])]) sample_world.

(** ** The script's entry *)

Section Entry.

Variable H : host.

(** [err.message] for the error of a failed [fs] call, in the runtime's
    wording. *)
Variable system_message : errno -> string -> fpath -> string.

(** The cross mark that opens the report, a code unit above 255, as the
    error stream carries it. *)
Variable cross_mark : string.

(** [err.message] *)
Definition message (e : exn) : string :=
  match e with
  | Error m | TypeError m | SyntaxError m => m
  | SystemError c s t => system_message c s t
  end.

(** [main().catch((err) => { clearLine(); console.error("\n<cross mark> Error:",
    err.message); process.exit(1); })]: [console.error] joins its
    arguments with a space. *)
Definition cli (fuel : nat) (argv2 : option string) : M unit :=
  try_catch (main H fuel argv2)
    (fun err =>
       clearLine H ;;
       console_error (newline ++ cross_mark ++ " Error:" ++ " " ++ message err) ;;
       process_exit 1).

End Entry.

(** Lines as [text_lines] gives them: no line terminator inside a line,
    one line terminator after each line but the last, none after the
    last. *)
Fixpoint lines_ok (ls : list (string * string)) : Prop :=
  match ls with
  | [] => False
  | (b, t) :: r =>
      string_exists is_line_terminator b = false
      /\ match r with
         | [] => t = EmptyString
         | _ :: _ =>
             (exists x, is_line_terminator x = true /\ t = String x EmptyString)
             /\ lines_ok r
         end
  end.

(** A host whose [JSON.parse] reads two documents that are no objects:
    [null] and an array. *)
Definition odd_host : host :=
  {| process_version := process_version sample_host;
     process_cwd := process_cwd sample_host;
     stdout_columns := stdout_columns sample_host;
     os_tmpdir := os_tmpdir sample_host;
     Date_now := Date_now sample_host;
     path := path sample_host;
     locate := locate sample_host;
     child_process := child_process sample_host;
     os_refuses_removal := os_refuses_removal sample_host;
     JSON_parse := sample_JSON_parse [JNull; JArray [JString "a"; JBool true]] |}.

(** The sample world with [text] as the descriptor of [/tmp]. *)
Definition descriptor_world (text : string) : world :=
  set_fs (Dir [("tmp", Dir [("package.json", File text)])]) sample_world.

(** ** Following a run step by step *)

(** From [w], [m] ends with the outcome [o], leaves the file system [n],
    starts the child processes [started] and writes nothing on the error
    stream. *)
Definition ends {A : Type} (m : M A) (w : world) (o : outcome A) (n : node)
  (started : list call) : Prop :=
  exists w',
    m w = (o, w')
    /\ fs w' = n
    /\ spawned w' = (spawned w ++ started)%list
    /\ stderr w' = stderr w.

(** From [w], [m] returns [a], leaves the file system [n], starts the
    child processes [started] and writes nothing on the error stream. *)
Definition returns {A : Type} (m : M A) (w : world) (a : A) (n : node)
  (started : list call) : Prop :=
  exists w',
    m w = (Ret a, w')
    /\ fs w' = n
    /\ spawned w' = (spawned w ++ started)%list
    /\ stderr w' = stderr w.

(** From [w], [m] throws [e], leaves the file system [n], starts the
    child processes [started] and writes nothing on the error stream. *)
Definition throws {A : Type} (m : M A) (w : world) (e : exn) (n : node)
  (started : list call) : Prop :=
  exists w',
    m w = (Throw e, w')
    /\ fs w' = n
    /\ spawned w' = (spawned w ++ started)%list
    /\ stderr w' = stderr w.

Definition git_version : call := ExecFile "git" ["--version"] None "ignore".

Definition npm_install (projectPath : string) : call :=
  ExecShell "npm install --silent" (Some projectPath) "inherit".

(** ** The first revision: the template bundled with the package

    [main] of the revision that copies the template from the package's
    own directory: no [git], no temporary directory, no cleanup, and no
    [try] around the steps. *)

Section Bundled.

Variable H : host.

(** [__dirname] *)
Variable dirname : string.

Definition main_bundled (fuel : nat) (argv2 : option string) : M unit :=
  match argv2 with
  | None | Some EmptyString =>
      console_error "Please provide a project name." ;;
      process_exit 1
  | Some name =>
      let projectPath := path_resolve (path H) [process_cwd H; name] in
      let boilerplateSrc := path_resolve (path H) [dirname; ".."; "serverless"] in
      step H "Checking Node version" ;;
      checkNodeVersion H 20 ;;
      doneStep H ;;
      step H "Creating project directory" ;;
      createProjectDirectory (locate H projectPath) ;;
      doneStep H ;;
      step H "Copying boilerplate files" ;;
      copyDir fuel (locate H boilerplateSrc) (locate H projectPath) ;;
      doneStep H ;;
      step H "Updating package.json" ;;
      updatePackageJson H (locate H projectPath) name ;;
      doneStep H ;;
      step H "Updating serverless.yml" ;;
      updateServerlessYml (locate H projectPath) name ;;
      doneStep H ;;
      step H "Installing packages" ;;
      execSync H "npm install --silent" (Some projectPath) "inherit" ;;
      doneStep H ;;
      clearLine H ;;
      console_log (newline ++ "Installation complete" ++ newline ++ newline
                   ++ "Next steps:" ++ newline ++ newline
                   ++ "  cd " ++ name ++ newline ++ "  npm run offline" ++ newline)
  end.

End Bundled.

(** The sample world with the package installed under
    [/opt/create-stb], its template in [serverless] beside [bin]. *)
Definition bundled_world : world :=
  set_fs (graft ["opt"; "create-stb"]
            (Dir [("bin", Dir [("create-stb.js", File "#!/usr/bin/env node")]);
                  ("serverless", sample_template)])
            sample_fs)
         sample_world.

(** ** Copying onto a directory that holds entries *)

(** The entry of a directory listing, an empty directory when there is
    none. *)
Definition entry_or_empty (x : string) (es : list (string * node)) : node :=
  match assoc x es with Some c => c | None => Dir [] end.

(** [overlay s d]: [s] laid over [d].  A file of [s] replaces what [d]
    has; a directory of [s] is laid, entry after entry, over the directory
    that [d] has under the same name (over an empty one when [d] has none);
    what [d] has under other names stays. *)
Fixpoint overlay (s d : node) : node :=
  match s with
  | File c => File c
  | Dir ses =>
      Dir ((fix over (l acc : list (string * node)) {struct l} : list (string * node) :=
              match l with
              | [] => acc
              | e :: r =>
                  over r (set_entry (fst e)
                            (overlay (snd e) (entry_or_empty (fst e) acc)) acc)
              end) ses (match d with Dir des => des | File _ => [] end))
  end.

Fixpoint overlay_entries (l acc : list (string * node)) : list (string * node) :=
  match l with
  | [] => acc
  | e :: r =>
      overlay_entries r
        (set_entry (fst e) (overlay (snd e) (entry_or_empty (fst e) acc)) acc)
  end.

(** [s] can be laid over [d]: where both have an entry, both are files or
    both are directories, all the way down. *)
Fixpoint compatible (s d : node) : Prop :=
  match s with
  | File _ => match d with File _ => True | Dir _ => False end
  | Dir ses =>
      match d with
      | File _ => False
      | Dir des =>
          (fix all (l : list (string * node)) : Prop :=
             match l with
             | [] => True
             | e :: r =>
                 match assoc (fst e) des with
                 | Some dc => compatible (snd e) dc
                 | None => True
                 end /\ all r
             end) ses
      end
  end.

(** What [copyDir] does on a directory [t] found at [src], for a
    destination that holds [d], or is missing ([d] is then the empty
    directory). *)
Definition merges (t : node) : Prop :=
  forall (fuel : nat) (src dest : fpath) (w : world) (d : node),
    depth t < fuel
    -> walk src (fs w) = inr t
    -> (exists es, t = Dir es)
    -> well_formed t
    -> apart src dest
    -> (walk dest (fs w) = inr d \/ (walk dest (fs w) = inl ENOENT /\ d = Dir []))
    -> compatible t d
    -> copyDir fuel src dest w = (Ret tt, set_fs (graft dest (overlay t d) (fs w)) w).

(** The sample world with the template at [/tmp/tpl] and a project at
    [/home/dev/demo] that already holds a descriptor, notes and a source
    directory. *)
Definition populated_world : world :=
  set_fs (graft ["home"; "dev"; "demo"]
            (Dir [("package.json", File "{}");
                  ("NOTES.md", File "mine");
                  ("src", Dir [("local.ts", File "export {};")])])
            (graft ["tmp"; "tpl"] sample_template sample_fs))
         sample_world.

(** The sample host with an [npm] that fails and leaves the file system
    as it is. *)
Definition npm_failure : exn := Error "Command failed: npm install --silent".

Definition no_npm_host : host :=
  {| process_version := process_version sample_host;
     process_cwd := process_cwd sample_host;
     stdout_columns := stdout_columns sample_host;
     os_tmpdir := os_tmpdir sample_host;
     Date_now := Date_now sample_host;
     path := path sample_host;
     locate := locate sample_host;
     child_process := fun c n =>
       match c with
       | ExecShell _ _ _ => (Some npm_failure, n)
       | _ => child_process sample_host c n
       end;
     os_refuses_removal := os_refuses_removal sample_host;
     JSON_parse := JSON_parse sample_host |}.

(** ** The template's seeding helpers ([serverless/src/lib/seed.ts])

    [seedTable] and [generateAndSeed] take the insert as an argument.  An
    asynchronous function is a computation over what the insert can change
    and the console; it is fulfilled with a value or rejected with an
    error, and [await] in a [try] is [caught].  The array is not changed
    while it is iterated. *)

Section Seed.

(** An item, the value a rejection carries, a reading of the clock, and
    what lies outside the helpers (the database, the clock). *)
Variables (item failure time outside : Type).

(** The cross mark and the check mark of the two reports, code units
    above 255, as the console carries them. *)
Variables (cross_mark check_mark : string).

(** What the console got: [console.log(text)] and
    [console.error(text, error)]. *)
Inductive console_record : Type :=
| Logged (text : string)
| Reported (text : string) (error : failure).

Record seeding : Type := { beyond : outside; console : list console_record }.

Inductive settled (A : Type) : Type :=
| Fulfilled (a : A)
| Rejected (error : failure).

Arguments Fulfilled {A} a.
Arguments Rejected {A} error.

Definition Async (A : Type) : Type := seeding -> settled A * seeding.

Definition resolve {A : Type} (a : A) : Async A := fun s => (Fulfilled a, s).

Definition await {A B : Type} (m : Async A) (k : A -> Async B) : Async B :=
  fun s =>
    match m s with
    | (Fulfilled a, s') => k a s'
    | (Rejected e, s') => (Rejected e, s')
    end.

Definition caught {A : Type} (body : Async A) (handler : failure -> Async A) : Async A :=
  fun s =>
    match body s with
    | (Rejected e, s') => handler e s'
    | r => r
    end.

Definition log (text : string) : Async unit :=
  fun s => (Fulfilled tt, {| beyond := beyond s; console := (console s ++ [Logged text])%list |}).

Definition log_error (text : string) (error : failure) : Async unit :=
  fun s => (Fulfilled tt,
            {| beyond := beyond s; console := (console s ++ [Reported text error])%list |}).

Fixpoint for_of {A : Type} (l : list A) (body : A -> Async unit) : Async unit :=
  match l with
  | [] => resolve tt
  | a :: r => await (body a) (fun _ => for_of r body)
  end.

(** [data.length] in a template literal *)
Definition show_length {A : Type} (l : list A) : string := show_N (N.of_nat (List.length l)).

Definition seedTable (put : string -> item -> Async unit) (tableName : string)
  (data : list item) : Async unit :=
  await (log ("Seeding " ++ tableName ++ " with " ++ show_length data ++ " items..."))
    (fun _ =>
       for_of data (fun it =>
         caught (put tableName it)
           (fun error =>
              log_error ("  " ++ cross_mark ++ " Error seeding " ++ tableName ++ ":") error))).

(** [generator] builds the array; [postProcess], when given, may change
    the array in place (the first component of what it yields) and may
    return an array (the second component) or nothing.  [performance_now]
    reads the clock, and [seconds start end] is
    [((end - start) / 1000).toFixed(3)]. *)
Definition generateAndSeed
  (performance_now : Async time) (seconds : time -> time -> string)
  (put : string -> item -> Async unit) (tableName : string)
  (generator : Async (list item))
  (postProcess : option (list item -> Async (list item * option (list item)))) :
  Async (list item) :=
  await performance_now (fun start =>
  await generator (fun data =>
  await (match postProcess with
         | Some process =>
             await (process data) (fun r =>
               match snd r with
               | Some result => resolve result
               | None => resolve (fst r)
               end)
         | None => resolve data
         end) (fun data =>
  await (for_of data (fun it =>
           caught (put tableName it)
             (fun error =>
                log_error ("  " ++ cross_mark ++ " Error seeding " ++ tableName ++ ":") error)))
    (fun _ =>
  await performance_now (fun finish =>
  await (log (check_mark ++ " " ++ tableName ++ " generated & seeded in "
              ++ seconds start finish ++ "s (" ++ show_length data ++ " items)" ++ newline))
    (fun _ =>
  resolve data)))))).

(** One turn of the loop, as a change of state: the insert, and the
    report when it is rejected. *)
Definition attempt (put : string -> item -> Async unit) (tableName : string)
  (s : seeding) (it : item) : seeding :=
  match put tableName it s with
  | (Fulfilled _, s') => s'
  | (Rejected e, s') =>
      {| beyond := beyond s';
         console := (console s'
                     ++ [Reported ("  " ++ cross_mark ++ " Error seeding " ++ tableName ++ ":")
                           e])%list |}
  end.

End Seed.

Arguments Fulfilled {failure A} a.
Arguments Rejected {failure A} error.
Arguments Logged {failure} text.
Arguments Reported {failure} text error.
Arguments beyond {failure outside} s.
Arguments console {failure outside} s.
Arguments resolve {failure outside A} a.
Arguments await {failure outside A B} m k.
Arguments caught {failure outside A} body handler.
Arguments log {failure outside} text.
Arguments log_error {failure outside} text error.
Arguments for_of {failure outside A} l body.
Arguments seedTable {item failure outside} cross_mark put tableName data.
Arguments generateAndSeed {item failure time outside} cross_mark check_mark
  performance_now seconds put tableName generator postProcess.
Arguments attempt {item failure outside} cross_mark put tableName s it.

(** A seeding in which inserts of odd numbers are rejected: the database
    is the list of the numbers inserted. *)
Definition odd_rejected (tableName : string) (n : nat) : Async string (list nat) unit :=
  fun s =>
    if Nat.odd n then (Rejected "odd", s)
    else (Fulfilled tt, {| beyond := (beyond s ++ [n])%list; console := console s |}).

(** * Properties *)

(** ** Strings *)

Lemma startsWith_hyphen (t : string) :
  startsWith "-" t = true <-> exists rest, t = String "-" rest.
Proof.
  destruct t as [|c r]; simpl.
  - split; [discriminate | intros [x Hx]; discriminate].
  - destruct (Ascii.eqb_spec "-" c) as [<-|Hne]; simpl.
    + split; [intros _; now exists r | intros _; destruct r; reflexivity].
    + split; [discriminate | intros [x Hx]; injection Hx as Hc _; congruence].
Qed.

Lemma is_dangerous_listed (c : ascii) :
  is_dangerous c = true <-> In c dangerous_characters.
Proof.
  destruct c as [b0 b1 b2 b3 b4 b5 b6 b7].
  destruct b0, b1, b2, b3, b4, b5, b6, b7; vm_compute;
    (split; [ intros E; first [ discriminate E | tauto ]
            | intros E; first [ reflexivity | intuition discriminate ] ]).
Qed.

Lemma string_exists_In (f : ascii -> bool) (s : string) :
  string_exists f s = true <-> exists c, f c = true /\ string_In c s.
Proof.
  induction s as [|d r IH]; simpl.
  - split; [discriminate | intros [c [_ []]]].
  - rewrite orb_true_iff, IH. split.
    + intros [Hd | [c [Hc Hin]]]; [exists d | exists c]; auto.
    + intros [c [Hc [-> | Hin]]]; [now left | right; now exists c].
Qed.

Lemma dangerous_in_text (t : string) :
  string_exists is_dangerous t = true
  <-> exists c, In c dangerous_characters /\ string_In c t.
Proof.
  rewrite string_exists_In.
  split; intros [c [Hc Hin]]; exists c; split; auto; now apply is_dangerous_listed.
Qed.


(** ** Association lists *)

Section Assoc.

Context {A : Type}.
Implicit Types (k : string) (v : A) (l : list (string * A)).

Lemma assoc_set_entry_same k v l : assoc k (set_entry k v l) = Some v.
Proof.
  induction l as [|[k' v'] r IH]; simpl.
  - now rewrite String.eqb_refl.
  - destruct (String.eqb_spec k k') as [->|Hne]; simpl.
    + now rewrite String.eqb_refl.
    + now apply String.eqb_neq in Hne as ->.
Qed.

Lemma assoc_set_entry_other k k' v l :
  k <> k' -> assoc k' (set_entry k v l) = assoc k' l.
Proof.
  intros Hne. induction l as [|[k0 v0] r IH]; simpl.
  - apply not_eq_sym in Hne. now apply String.eqb_neq in Hne as ->.
  - destruct (String.eqb_spec k k0) as [->|Hk]; simpl.
    + apply not_eq_sym in Hne. now apply String.eqb_neq in Hne as ->.
    + now rewrite IH.
Qed.

Lemma set_entry_same k v l : assoc k l = Some v -> set_entry k v l = l.
Proof.
  induction l as [|[k' v'] r IH]; simpl; [discriminate|].
  destruct (String.eqb_spec k k') as [->|Hne].
  - now intros [= ->].
  - intros E. now rewrite IH.
Qed.

Lemma set_entry_twice k v v' l :
  set_entry k v (set_entry k v' l) = set_entry k v l.
Proof.
  induction l as [|[k' v0] r IH]; simpl.
  - now rewrite String.eqb_refl.
  - destruct (String.eqb_spec k k') as [->|Hne]; simpl.
    + now rewrite String.eqb_refl.
    + apply String.eqb_neq in Hne as E. now rewrite E, IH.
Qed.

Lemma set_entry_fresh k v l :
  assoc k l = None -> set_entry k v l = (l ++ [(k, v)])%list.
Proof.
  induction l as [|[k' v'] r IH]; simpl; [reflexivity|].
  destruct (String.eqb k k'); [discriminate|].
  intros E. now rewrite IH.
Qed.

Lemma assoc_app k l1 l2 :
  assoc k (l1 ++ l2)%list
  = match assoc k l1 with Some v => Some v | None => assoc k l2 end.
Proof.
  induction l1 as [|[k' v'] r IH]; simpl; [reflexivity|].
  now destruct (String.eqb k k').
Qed.

Lemma assoc_None k l : assoc k l = None <-> ~ In k (map fst l).
Proof.
  induction l as [|[k' v'] r IH]; simpl.
  - tauto.
  - destruct (String.eqb_spec k k') as [->|Hne].
    + split; [discriminate | intros N; exfalso; apply N; now left].
    + rewrite IH. split; [intros N [E|I]; [congruence | tauto] | tauto].
Qed.

Lemma assoc_remove_entry_same k l : assoc k (remove_entry k l) = None.
Proof.
  induction l as [|[k' v'] r IH]; simpl; [reflexivity|].
  destruct (String.eqb k k') eqn:E; [assumption|].
  simpl. now rewrite E.
Qed.

Lemma assoc_remove_entry_other k k' l :
  k <> k' -> assoc k' (remove_entry k l) = assoc k' l.
Proof.
  intros Hne. induction l as [|[k0 v0] r IH]; simpl; [reflexivity|].
  destruct (String.eqb_spec k k0) as [->|Hk]; simpl.
  - apply not_eq_sym in Hne. now apply String.eqb_neq in Hne as ->.
  - now rewrite IH.
Qed.

End Assoc.

(** ** Locations *)

Lemma is_prefix_refl (p : fpath) : is_prefix p p = true.
Proof. induction p; simpl; [reflexivity | now rewrite String.eqb_refl]. Qed.

Lemma is_prefix_app (p r : fpath) : is_prefix p (p ++ r)%list = true.
Proof. induction p; simpl; [reflexivity | now rewrite String.eqb_refl]. Qed.

Lemma is_prefix_spec (p q : fpath) :
  is_prefix p q = true <-> exists r, q = (p ++ r)%list.
Proof.
  revert q. induction p as [|x p IH]; intros q; simpl.
  - split; [intros _; now exists q | reflexivity].
  - destruct q as [|y q].
    + split; [discriminate | intros [r E]; discriminate].
    + rewrite andb_true_iff, IH, String.eqb_eq. split.
      * intros [-> [r ->]]. now exists r.
      * intros [r [= -> ->]]. split; [reflexivity | now exists r].
Qed.

Lemma apart_sym (p q : fpath) : apart p q -> apart q p.
Proof. unfold apart. tauto. Qed.

Lemma apart_cons (x : string) (p q : fpath) : apart (x :: p) (x :: q) <-> apart p q.
Proof. unfold apart. simpl. now rewrite String.eqb_refl. Qed.

Lemma apart_nonempty (p q : fpath) : apart p q -> p <> [] /\ q <> [].
Proof.
  unfold apart. destruct p, q; simpl; intros [E1 E2]; try discriminate.
  split; discriminate.
Qed.

Lemma apart_below (p q r : fpath) : apart p q -> apart (p ++ r)%list q.
Proof.
  revert q. induction p as [|x p IH]; intros q Hpq.
  - destruct (apart_nonempty _ _ Hpq) as [N _]. now contradiction N.
  - destruct q as [|y q]; [destruct (apart_nonempty _ _ Hpq) as [_ N]; now contradiction N|].
    destruct (String.eqb_spec x y) as [->|Hne].
    + apply apart_cons. apply IH. now apply apart_cons in Hpq.
    + unfold apart. simpl. apply String.eqb_neq in Hne as E. rewrite E.
      apply not_eq_sym in Hne. apply String.eqb_neq in Hne as E'. now rewrite E'.
Qed.

Lemma apart_children (p q : fpath) (x : string) :
  apart p q -> apart (p ++ [x])%list (q ++ [x])%list.
Proof.
  intros Hpq. apply apart_below. apply apart_sym. apply apart_below. now apply apart_sym.
Qed.

(** ** Resolution, grafting, removal *)

Lemma walk_app (p r : fpath) (n : node) :
  walk (p ++ r)%list n = match walk p n with inr m => walk r m | inl e => inl e end.
Proof.
  revert n. induction p as [|x p IH]; intros n; simpl; [reflexivity|].
  destruct n as [c|es]; [reflexivity|].
  destruct (assoc x es); [apply IH | reflexivity].
Qed.

Lemma walk_empty_dir (p : fpath) : p <> [] -> walk p (Dir []) = inl ENOENT.
Proof. destruct p; [congruence | reflexivity]. Qed.

Lemma clear_empty_dir (p : fpath) : clear p (Dir []).
Proof.
  destruct p; [right; now exists (Dir []) | left; reflexivity].
Qed.

Lemma clear_inside (x : string) (q : fpath) (es : list (string * node)) :
  clear (x :: q) (Dir es)
  -> clear q (match assoc x es with Some c => c | None => Dir [] end).
Proof.
  unfold clear. simpl. destruct (assoc x es); [tauto|].
  intros _. apply clear_empty_dir.
Qed.

Lemma clear_not_file (x : string) (q : fpath) (c : string) : ~ clear (x :: q) (File c).
Proof. intros [E | [m E]]; discriminate. Qed.

Lemma walk_graft_same (p : fpath) (t n : node) :
  clear p n -> walk p (graft p t n) = inr t.
Proof.
  revert n. induction p as [|x q IH]; intros n Hc; simpl; [reflexivity|].
  destruct n as [c|es]; [now apply clear_not_file in Hc|].
  rewrite assoc_set_entry_same. apply IH. now apply clear_inside.
Qed.

Lemma walk_graft_apart (p q : fpath) (t n : node) :
  apart p q -> walk q (graft p t n) = walk q n.
Proof.
  revert q n. induction p as [|x p IH]; intros q n Hpq.
  - destruct (apart_nonempty _ _ Hpq) as [N _]. now contradiction N.
  - destruct q as [|y q]; [destruct (apart_nonempty _ _ Hpq) as [_ N]; now contradiction N|].
    destruct n as [c|es]; [reflexivity|]. simpl.
    destruct (String.eqb_spec x y) as [->|Hne].
    + rewrite assoc_set_entry_same. apply apart_cons in Hpq.
      rewrite IH by assumption.
      destruct (assoc y es); [reflexivity|].
      apply walk_empty_dir. now destruct (apart_nonempty _ _ Hpq).
    + now rewrite assoc_set_entry_other.
Qed.

Lemma graft_id (p : fpath) (t n : node) : walk p n = inr t -> graft p t n = n.
Proof.
  revert n. induction p as [|x q IH]; intros n; simpl.
  - now intros [= ->].
  - destruct n as [c|es]; [reflexivity|].
    destruct (assoc x es) as [ch|] eqn:E; [|discriminate].
    intros Hw. rewrite IH by assumption. now rewrite set_entry_same.
Qed.

Lemma graft_child (d : fpath) (x : string) (c : node)
  (done : list (string * node)) (n : node) :
  graft (d ++ [x])%list c (graft d (Dir done) n) = graft d (Dir (set_entry x c done)) n.
Proof.
  revert n. induction d as [|y d IH]; intros n; simpl; [reflexivity|].
  destruct n as [c0|es]; [reflexivity|]. simpl.
  now rewrite assoc_set_entry_same, set_entry_twice, IH.
Qed.

Lemma mkdirp_graft (p : fpath) (n : node) :
  walk p n = inl ENOENT -> mkdirp p n = inr (graft p (Dir []) n).
Proof.
  revert n. induction p as [|x q IH]; intros n; simpl; [discriminate|].
  destruct n as [c|es]; [discriminate|].
  destruct (assoc x es) as [ch|] eqn:E.
  - intros Hw. now rewrite IH.
  - intros _. destruct q as [|y q]; [reflexivity|].
    now rewrite IH by reflexivity.
Qed.

Lemma mkdirp_existing (p : fpath) (n : node) (es : list (string * node)) :
  walk p n = inr (Dir es) -> mkdirp p n = inr n.
Proof.
  revert n. induction p as [|x q IH]; intros n; simpl.
  - intros [= ->]. reflexivity.
  - destruct n as [c|es']; [discriminate|].
    destruct (assoc x es') as [ch|] eqn:E; [|discriminate].
    intros Hw. rewrite IH by assumption. now rewrite set_entry_same.
Qed.

Lemma put_file_overwrite (p : fpath) (c c0 : string) (n : node) :
  walk p n = inr (File c0) -> put_file p c n = inr (graft p (File c) n).
Proof.
  revert n. induction p as [|x q IH]; intros n; simpl.
  - intros [= ->]. reflexivity.
  - destruct n as [c1|es]; [discriminate|].
    destruct (assoc x es) as [ch|] eqn:E; [|discriminate].
    intros Hw. now rewrite IH.
Qed.

Lemma put_file_new (d : fpath) (x c : string) (es : list (string * node)) (n : node) :
  walk d n = inr (Dir es) -> assoc x es = None
  -> put_file (d ++ [x])%list c n = inr (graft (d ++ [x])%list (File c) n).
Proof.
  revert n. induction d as [|y d IH]; intros n; simpl.
  - intros [= ->] E. now rewrite E.
  - destruct n as [c1|es']; [discriminate|].
    destruct (assoc y es') as [ch|] eqn:E; [|discriminate].
    intros Hw Hx. now rewrite (IH _ Hw Hx).
Qed.

Lemma remove_existing (p : fpath) (n m : node) :
  p <> [] -> walk p n = inr m
  -> exists n', remove p n = inr n' /\ walk p n' = inl ENOENT.
Proof.
  revert n. induction p as [|x q IH]; intros n Hp; [congruence|].
  simpl. destruct n as [c|es]; [discriminate|].
  destruct (assoc x es) as [ch|] eqn:E; [|discriminate].
  intros Hw. destruct q as [|y q].
  - eexists. split; [reflexivity|]. simpl. now rewrite assoc_remove_entry_same.
  - destruct (IH ch ltac:(discriminate) Hw) as [ch' [Hr Hw']].
    rewrite Hr. eexists. split; [reflexivity|].
    cbn [walk]. now rewrite assoc_set_entry_same.
Qed.

Lemma walk_remove_apart (p q : fpath) (n n' : node) :
  apart p q -> remove p n = inr n' -> walk q n' = walk q n.
Proof.
  revert q n n'. induction p as [|x p IH]; intros q n n' Hpq.
  - destruct (apart_nonempty _ _ Hpq) as [N _]. now contradiction N.
  - destruct q as [|y q]; [destruct (apart_nonempty _ _ Hpq) as [_ N]; now contradiction N|].
    simpl. destruct n as [c|es]; [discriminate|].
    destruct p as [|z p].
    + intros [= <-]. simpl.
      destruct (String.eqb_spec x y) as [->|Hne].
      * destruct Hpq as [E _]. simpl in E. now rewrite String.eqb_refl in E.
      * now rewrite assoc_remove_entry_other.
    + destruct (assoc x es) as [ch|] eqn:E.
      * destruct (remove (z :: p) ch) as [e|ch'] eqn:Hr; [discriminate|].
        intros [= <-]. cbn [walk].
        destruct (String.eqb_spec x y) as [->|Hne].
        -- rewrite assoc_set_entry_same, E. apply apart_cons in Hpq.
           now apply (IH _ _ _ Hpq).
        -- now rewrite assoc_set_entry_other.
      * now intros [= <-].
Qed.

(** ** Strings, continued *)

Lemma append_assoc (a b c : string) : (a ++ b) ++ c = a ++ (b ++ c).
Proof. induction a as [|x a IH]; simpl; [reflexivity | now rewrite IH]. Qed.

Lemma append_empty_r (a : string) : a ++ EmptyString = a.
Proof. induction a as [|x a IH]; simpl; [reflexivity | now rewrite IH]. Qed.

Lemma contains_middle (pre s post : string) : contains (pre ++ s ++ post) s.
Proof. now exists pre, post. Qed.

(** ** Running the monad *)

Ltac run :=
  repeat (unfold bind, ret, throw, lift, try_catch, existsSync, readdirSync,
            mkdirSync, readFileSync, writeFileSync, copyFileSync, rmSync,
            spawn, execFileSync, execSync, set_property; cbn beta iota zeta delta [negb]).

Lemma set_fs_same (w : world) : set_fs (fs w) w = w.
Proof. now destruct w. Qed.

Lemma fs_set_fs (n : node) (w : world) : fs (set_fs n w) = n.
Proof. reflexivity. Qed.

Lemma set_fs_set_fs (n n' : node) (w : world) : set_fs n (set_fs n' w) = set_fs n w.
Proof. reflexivity. Qed.

Lemma walk_prefix_dir (q r : fpath) (n m : node) :
  walk (q ++ r)%list n = inr m -> r <> []
  -> exists es, walk q n = inr (Dir es).
Proof.
  rewrite walk_app. destruct (walk q n) as [e|[c|es]]; try discriminate.
  - destruct r; [congruence | discriminate].
  - intros _ _. now exists es.
Qed.

(** ** C5: [createProjectDirectory] *)

(** C5: [createProjectDirectory] makes the directory, with the parents
    that are missing, when the path does not exist (resolution stops at a
    missing entry); leaves everything as it is when the path is an empty
    directory; and throws its own error, whose message names the path and
    says "not empty", when the path is a directory with entries.  It throws
    that error in no other case. *)
Theorem createProjectDirectory_spec : forall (projectPath : fpath) (w : world),
  (walk projectPath (fs w) = inl ENOENT ->
   exists n',
     createProjectDirectory projectPath w = (Ret tt, set_fs n' w)
     /\ walk projectPath n' = inr (Dir [])
     /\ (forall q r, projectPath = (q ++ r)%list -> exists es, walk q n' = inr (Dir es))
     /\ (forall q, apart projectPath q -> walk q n' = walk q (fs w)))
  /\ (walk projectPath (fs w) = inr (Dir []) ->
      createProjectDirectory projectPath w = (Ret tt, w))
  /\ (forall e es, walk projectPath (fs w) = inr (Dir (e :: es)) ->
      exists message,
        createProjectDirectory projectPath w = (Throw (Error message), w)
        /\ contains message (show_path projectPath)
        /\ contains message "not empty")
  /\ (forall message w',
        createProjectDirectory projectPath w = (Throw (Error message), w') ->
        exists e es, walk projectPath (fs w) = inr (Dir (e :: es))).
Proof.
  intros p w. unfold createProjectDirectory. run.
  split; [|split; [|split]].
  - intros Hw. rewrite Hw. run. rewrite (mkdirp_graft _ _ Hw).
    exists (graft p (Dir []) (fs w)).
    assert (Hp : walk p (graft p (Dir []) (fs w)) = inr (Dir []))
      by (apply walk_graft_same; now left).
    split; [reflexivity | split; [assumption | split]].
    + intros q r ->. destruct r as [|x r].
      * rewrite app_nil_r in *. now exists [].
      * apply (walk_prefix_dir q (x :: r) _ _ Hp). discriminate.
    + intros q Hq. now apply walk_graft_apart.
  - intros Hw. repeat (rewrite Hw; run). reflexivity.
  - intros e es Hw. repeat (rewrite Hw; run). simpl. eexists. split; [reflexivity|]. split.
    + exists ("Directory " ++ dquote), (dquote ++ " exists and is not empty.").
      now rewrite !append_assoc.
    + exists ("Directory " ++ dquote ++ show_path p ++ dquote ++ " exists and is "), ".".
      now rewrite !append_assoc.
  - intros message w'.
    destruct (walk p (fs w)) as [e|[c|es]] eqn:Hw; run; repeat (rewrite Hw; run).
    + destruct (mkdirp p (fs w)); congruence.
    + congruence.
    + destruct es as [|e es]; simpl; [congruence|]. intros _. now exists e, es.
Qed.

(** C5, witness: the three cases on the sample file system. *)
Lemma createProjectDirectory_witness :
  (exists n',
     createProjectDirectory ["home"; "dev"; "apps"; "demo"] sample_world
     = (Ret tt, set_fs n' sample_world)
     /\ walk ["home"; "dev"; "apps"; "demo"] n' = inr (Dir []))
  /\ createProjectDirectory ["tmp"] sample_world = (Ret tt, sample_world)
  /\ (exists message,
        createProjectDirectory ["home"] sample_world = (Throw (Error message), sample_world)
        /\ contains message "not empty").
Proof.
  split; [|split].
  - destruct (proj1 (createProjectDirectory_spec ["home"; "dev"; "apps"; "demo"] sample_world)
                eq_refl) as [n' [E [W _]]].
    now exists n'.
  - exact (proj1 (proj2 (createProjectDirectory_spec ["tmp"] sample_world)) eq_refl).
  - destruct (proj1 (proj2 (proj2 (createProjectDirectory_spec ["home"] sample_world)))
                _ _ eq_refl) as [message [E [_ C]]].
    now exists message.
Defined.

(** ** C7: [cleanupTemp] *)

Lemma cleanupTemp_missing (H : host) (p : fpath) (w : world) :
  (forall m, walk p (fs w) <> inr m) -> cleanupTemp H p w = (Ret tt, w).
Proof.
  intros Hw. unfold cleanupTemp. run.
  destruct (walk p (fs w)) as [e|m]; [reflexivity|]. now contradiction (Hw m).
Qed.

Lemma cleanupTemp_removes (H : host) (p : fpath) (w : world) (m : node) :
  walk p (fs w) = inr m -> p <> [] -> os_refuses_removal H p = None
  -> exists n',
       cleanupTemp H p w = (Ret tt, set_fs n' w)
       /\ walk p n' = inl ENOENT
       /\ (forall q, apart p q -> walk q n' = walk q (fs w)).
Proof.
  intros Hw Hp Hos. unfold cleanupTemp. run. rewrite Hw. run. rewrite Hw, Hos.
  destruct (remove_existing p (fs w) m Hp Hw) as [n' [Hr Hgone]].
  rewrite Hr. exists n'. split; [reflexivity|]. split; [assumption|].
  intros q Hq. now apply (walk_remove_apart p q (fs w) n').
Qed.

(** C7: when the path does not exist [cleanupTemp] does nothing and
    raises nothing; when it exists (any entry but the root, whose removal
    the operating system does not refuse) the entry is gone afterwards with
    all that was under it, and what lies apart from it is untouched. *)
Theorem cleanupTemp_spec : forall (H : host) (tempDir : fpath) (w : world),
  ((forall m, walk tempDir (fs w) <> inr m) -> cleanupTemp H tempDir w = (Ret tt, w))
  /\ (forall m, walk tempDir (fs w) = inr m ->
      tempDir <> [] -> os_refuses_removal H tempDir = None ->
      exists n',
        cleanupTemp H tempDir w = (Ret tt, set_fs n' w)
        /\ existsSync tempDir (set_fs n' w) = (Ret false, set_fs n' w)
        /\ (forall r, walk (tempDir ++ r)%list n' = inl ENOENT)
        /\ (forall q, apart tempDir q -> walk q n' = walk q (fs w))).
Proof.
  intros H p w. split.
  - apply cleanupTemp_missing.
  - intros m Hw Hp Hos.
    destruct (cleanupTemp_removes H p w m Hw Hp Hos) as [n' [E [Hgone Hframe]]].
    exists n'. split; [exact E|]. split; [|split].
    + unfold existsSync. cbn [fs set_fs]. now rewrite Hgone.
    + intros r. now rewrite walk_app, Hgone.
    + exact Hframe.
Qed.

(** C7, witness: a populated directory is removed, a missing one is
    left alone. *)
Lemma cleanupTemp_witness :
  (exists n',
     cleanupTemp sample_host ["home"] sample_world = (Ret tt, set_fs n' sample_world)
     /\ existsSync ["home"] (set_fs n' sample_world) = (Ret false, set_fs n' sample_world))
  /\ cleanupTemp sample_host ["tmp"; "does-not-exist"] sample_world = (Ret tt, sample_world).
Proof.
  split.
  - destruct (proj2 (cleanupTemp_spec sample_host ["home"] sample_world)
                _ eq_refl ltac:(discriminate) eq_refl) as [n' [E [X _]]].
    now exists n'.
  - apply (proj1 (cleanupTemp_spec sample_host ["tmp"; "does-not-exist"] sample_world)).
    intros m. discriminate.
Defined.

(** ** Trees *)

Lemma node_induction (P : node -> Prop) :
  (forall c, P (File c))
  -> (forall es, Forall (fun e => P (snd e)) es -> P (Dir es))
  -> forall n, P n.
Proof.
  intros HF HD. fix IH 1. intros [c|es]; [apply HF|].
  apply HD. induction es as [|e es IHes]; constructor; [apply IH | exact IHes].
Qed.

Lemma list_max_bound (l : list nat) (a : nat) : In a l -> a <= list_max l.
Proof.
  induction l as [|b l IH]; simpl; [tauto|].
  intros [->|Hin]; [lia | specialize (IH Hin); lia].
Qed.

Lemma depth_child (es : list (string * node)) (e : string * node) :
  In e es -> depth (snd e) < depth (Dir es).
Proof.
  intros Hin. simpl. apply Nat.lt_succ_r. apply list_max_bound.
  now apply (in_map (fun e => depth (snd e))).
Qed.

Lemma well_formed_dir (es : list (string * node)) :
  well_formed (Dir es)
  <-> NoDup (map fst es) /\ Forall (fun e => well_formed (snd e)) es.
Proof.
  simpl. apply and_iff_compat_l.
  induction es as [|e es IH]; split; intros Hx.
  - constructor.
  - exact I.
  - destruct Hx as [He Hes]. constructor; [exact He | now apply IH].
  - inversion Hx; subst. split; [assumption | now apply IH].
Qed.

Lemma assoc_middle {A : Type} (done rest : list (string * A)) (x : string) (c : A) :
  NoDup (map fst (done ++ (x, c) :: rest)%list)
  -> assoc x done = None /\ assoc x (done ++ (x, c) :: rest)%list = Some c.
Proof.
  rewrite map_app. simpl. intros Hnd.
  apply NoDup_remove_2 in Hnd.
  assert (Hd : assoc x done = None).
  { apply assoc_None. intros Hin. apply Hnd. apply in_or_app. now left. }
  split; [assumption|].
  rewrite assoc_app, Hd. simpl. now rewrite String.eqb_refl.
Qed.

(** ** C6: [copyDir] *)

Lemma copyDir_unfold (fuel : nat) (src dest : fpath) :
  copyDir (S fuel) src dest
  = (present <- existsSync dest ;;
     (if present then ret tt else mkdirSync dest) ;;
     entries <- readdirSync src ;;
     for_each entries (fun entry =>
       let srcPath := (src ++ [name entry])%list in
       let destPath := (dest ++ [name entry])%list in
       if isDirectory entry
       then copyDir fuel srcPath destPath
       else copyFileSync srcPath destPath)).
Proof. reflexivity. Qed.

(** The loop over the entries of [src]: [done] is copied, [todo] is left. *)
Lemma copyDir_loop (k : nat) (src dest : fpath) (w : world)
  (es : list (string * node)) :
  walk src (fs w) = inr (Dir es)
  -> NoDup (map fst es)
  -> apart src dest
  -> clear dest (fs w)
  -> forall todo done,
     es = (done ++ todo)%list
     -> Forall (fun e => copies (snd e) /\ well_formed (snd e) /\ depth (snd e) < k) todo
     -> for_each (map dirent_of todo) (fun entry =>
          let srcPath := (src ++ [name entry])%list in
          let destPath := (dest ++ [name entry])%list in
          if isDirectory entry
          then copyDir k srcPath destPath
          else copyFileSync srcPath destPath)
          (set_fs (graft dest (Dir done) (fs w)) w)
        = (Ret tt, set_fs (graft dest (Dir es) (fs w)) w).
Proof.
  intros Hsrc Hnd Hap Hcl todo.
  induction todo as [|[x c] rest IH]; intros done Hes Hall.
  - rewrite app_nil_r in Hes. now subst done.
  - inversion Hall as [|? ? [Hcopy [Hwf Hdepth]] Hall']; subst.
    destruct (assoc_middle done rest x c Hnd) as [Hfresh Hfound].
    set (cur := graft dest (Dir done) (fs w)).
    assert (Hsrc' : walk (src ++ [x])%list cur = inr c).
    { rewrite walk_app. unfold cur.
      rewrite walk_graft_apart by now apply apart_sym.
      rewrite Hsrc. simpl. now rewrite Hfound. }
    assert (Hdest : walk dest cur = inr (Dir done))
      by now apply walk_graft_same.
    assert (Hnext : graft (dest ++ [x])%list c cur
                    = graft dest (Dir (done ++ [(x, c)])%list) (fs w)).
    { unfold cur. rewrite graft_child. now rewrite set_entry_fresh. }
    cbn [for_each map]. unfold bind at 1. cbn [dirent_of name isDirectory fst snd].
    simpl in Hcopy, Hwf, Hdepth.
    destruct c as [ct|ces].
    + unfold copyFileSync. cbn [fs set_fs]. fold cur. rewrite Hsrc'.
      rewrite (put_file_new dest x ct done cur Hdest Hfresh).
      rewrite Hnext. rewrite set_fs_set_fs.
      apply IH; [now rewrite <- app_assoc | assumption].
    + rewrite (Hcopy k (src ++ [x])%list (dest ++ [x])%list (set_fs cur w)).
      * cbn [fs set_fs]. rewrite Hnext.
        apply IH; [now rewrite <- app_assoc | assumption].
      * assumption.
      * exact Hsrc'.
      * now exists ces.
      * assumption.
      * now apply apart_children.
      * left. cbn [fs set_fs]. rewrite walk_app, Hdest. simpl. now rewrite Hfresh.
Qed.

Lemma copyDir_grafts (t : node) : copies t.
Proof.
  induction t as [c|es IH] using node_induction;
    intros fuel src dest w Hfuel Hsrc [es' Hes] Hwf Hap Hdest; [discriminate|].
  clear es' Hes. destruct fuel as [|k]; [lia|].
  apply well_formed_dir in Hwf as [Hnd Hwfs].
  rewrite copyDir_unfold.
  assert (Hcl : clear dest (fs w)).
  { destruct Hdest as [E|E]; [now left | right; eauto]. }
  assert (Hstart :
    (present <- existsSync dest ;; (if present then ret tt else mkdirSync dest)) w
    = (Ret tt, set_fs (graft dest (Dir []) (fs w)) w)).
  { run. destruct Hdest as [E|E]; rewrite E; run.
    - now rewrite (mkdirp_graft _ _ E).
    - now rewrite (graft_id _ _ _ E), set_fs_same. }
  unfold bind at 1. unfold bind at 1 in Hstart.
  destruct (existsSync dest w) as [[present| | |] w0];
    cbn beta iota in Hstart |- *; try discriminate.
  unfold bind at 1. rewrite Hstart. cbn beta iota.
  unfold bind at 1. unfold readdirSync. cbn [fs set_fs].
  rewrite walk_graft_apart by now apply apart_sym.
  rewrite Hsrc. cbn beta iota.
  apply (copyDir_loop k src dest w es Hsrc Hnd Hap Hcl es []); [reflexivity|].
  apply Forall_forall. intros e Hin.
  rewrite Forall_forall in IH, Hwfs.
  split; [now apply IH | split; [now apply Hwfs|]].
  pose proof (depth_child es e Hin). lia.
Qed.

(** C6: for a source directory of plain files and directories and a
    destination apart from it that is missing or an empty directory,
    [copyDir] returns (with fuel above the depth of the source) and leaves
    at every relative path under [dest] exactly what is at that path under
    [src]: hidden entries and nested directories included, file contents
    identical, missing directories made.  The source, and all that lies
    apart from the destination, is as it was. *)
Theorem copyDir_mirror :
  forall (src dest : fpath) (w : world) (entries : list (string * node)) (fuel : nat),
    walk src (fs w) = inr (Dir entries)
    -> well_formed (Dir entries)
    -> apart src dest
    -> (walk dest (fs w) = inl ENOENT \/ walk dest (fs w) = inr (Dir []))
    -> depth (Dir entries) < fuel
    -> exists n',
         copyDir fuel src dest w = (Ret tt, set_fs n' w)
         /\ (forall r, walk (dest ++ r)%list n' = walk (src ++ r)%list (fs w))
         /\ (forall r, walk (src ++ r)%list n' = walk (src ++ r)%list (fs w))
         /\ (forall q, apart dest q -> walk q n' = walk q (fs w)).
Proof.
  intros src dest w es fuel Hsrc Hwf Hap Hdest Hfuel.
  exists (graft dest (Dir es) (fs w)).
  split; [|split; [|split]].
  - apply copyDir_grafts; eauto.
  - intros r. rewrite !walk_app, Hsrc.
    rewrite walk_graft_same; [reflexivity|].
    destruct Hdest as [E|E]; [now left | right; eauto].
  - intros r. apply walk_graft_apart. apply apart_sym. now apply apart_below.
  - intros q Hq. now apply walk_graft_apart.
Qed.

Lemma sample_entries_well_formed : well_formed (Dir sample_entries).
Proof.
  simpl. repeat split; repeat constructor; simpl; intuition discriminate.
Defined.

(** C6, witness: the sample template copied from [/tmp/tpl] into the
    missing [/home/dev/demo]. *)
Lemma copyDir_witness :
  exists n',
    copyDir 5 ["tmp"; "tpl"] ["home"; "dev"; "demo"] template_world
    = (Ret tt, set_fs n' template_world)
    /\ walk ["home"; "dev"; "demo"; ".gitignore"] n' = inr (File "node_modules")
    /\ walk ["home"; "dev"; "demo"; "src"; "handler.ts"] n'
       = inr (File "export const handler = 1;")
    /\ walk ["tmp"; "tpl"] n' = inr sample_template.
Proof.
  destruct (copyDir_mirror ["tmp"; "tpl"] ["home"; "dev"; "demo"] template_world
              sample_entries 5 eq_refl sample_entries_well_formed
              (conj eq_refl eq_refl) (or_introl eq_refl)
              ltac:(vm_compute; repeat constructor))
    as [n' [E [Hm [Hs _]]]].
  exists n'. split; [exact E|]. split; [|split].
  - exact (Hm [".gitignore"]).
  - exact (Hm ["src"; "handler.ts"]).
  - exact (Hs []).
Defined.

(** The repository's test of [copyDir]: the file, the dotfile and the
    nested file are all there afterwards. *)
Example copyDir_test :
  let target := ["test-tmp"; "target"] in
  let w' := snd (copyDir 3 ["test-tmp"; "template"] target test_world) in
  fst (copyDir 3 ["test-tmp"; "template"] target test_world) = Ret tt
  /\ fst (existsSync (target ++ ["file.txt"])%list w') = Ret true
  /\ fst (existsSync (target ++ [".dotfile"])%list w') = Ret true
  /\ fst (existsSync (target ++ ["sub"; "nested.txt"])%list w') = Ret true
  /\ walk target (fs w') = inr (Dir test_template).
Proof. repeat split. Qed.

(** ** Decimal numerals *)

Lemma digits_from_pos (d : Decimal.uint) (a : positive) :
  digits_from (Npos a) (NilEmpty.string_of_uint d) = Some (Npos (Pos.of_uint_acc d a)).
Proof.
  revert a. induction d as [|d IH|d IH|d IH|d IH|d IH|d IH|d IH|d IH|d IH|d IH];
    intros a; cbn [NilEmpty.string_of_uint digits_from Pos.of_uint_acc];
    [reflexivity|..];
    match goal with
    | |- context [digit_value ?c] =>
        let v := eval vm_compute in (digit_value c) in change (digit_value c) with v
    end; cbn iota; rewrite <- IH; f_equal; lia.
Qed.

Lemma digits_from_zero (d : Decimal.uint) :
  digits_from 0 (NilEmpty.string_of_uint d) = Some (N.of_uint d).
Proof.
  unfold N.of_uint.
  induction d as [|d IH|d IH|d IH|d IH|d IH|d IH|d IH|d IH|d IH|d IH];
    cbn [NilEmpty.string_of_uint digits_from Pos.of_uint];
    [reflexivity|..];
    match goal with
    | |- context [digit_value ?c] =>
        let v := eval vm_compute in (digit_value c) in change (digit_value c) with v
    end; cbn iota; first [exact IH | apply digits_from_pos].
Qed.

Lemma digits_from_show_N (n : N) : digits_from 0 (show_N n) = Some n.
Proof.
  unfold show_N. rewrite <- (DecimalN.Unsigned.of_to n) at 2.
  generalize (N.to_uint n). intros d.
  destruct d; first [reflexivity | apply digits_from_zero].
Qed.

Lemma string_of_uint_digits (d : Decimal.uint) :
  string_forall is_digit (NilEmpty.string_of_uint d) = true.
Proof.
  induction d; cbn [NilEmpty.string_of_uint string_forall];
    [reflexivity | rewrite IHd; reflexivity ..].
Qed.

Lemma show_N_digits (n : N) : string_forall is_digit (show_N n) = true.
Proof.
  unfold show_N. generalize (N.to_uint n). intros d.
  destruct d; first [reflexivity | apply string_of_uint_digits].
Qed.

Lemma digit_is_plain (c : ascii) :
  is_digit c = true -> is_js_whitespace c = false /\ Ascii.eqb c "." = false.
Proof.
  destruct c as [b0 b1 b2 b3 b4 b5 b6 b7].
  destruct b0, b1, b2, b3, b4, b5, b6, b7; vm_compute;
    first [ discriminate | intros _; split; reflexivity ].
Qed.

Lemma digits_no_whitespace (s : string) :
  string_forall is_digit s = true -> string_exists is_js_whitespace s = false.
Proof.
  induction s as [|c r IH]; simpl; [reflexivity|].
  rewrite andb_true_iff. intros [Hc Hr].
  destruct (digit_is_plain c Hc) as [-> _]. now apply IH.
Qed.

Lemma trimEnd_plain (s : string) :
  string_exists is_js_whitespace s = false -> trimEnd s = s.
Proof.
  induction s as [|c r IH]; simpl; [reflexivity|].
  rewrite orb_false_iff. intros [Hc Hr].
  rewrite (IH Hr), Hc. now destruct r.
Qed.

Lemma trim_plain (s : string) :
  string_exists is_js_whitespace s = false -> trim s = s.
Proof.
  intros Hs. unfold trim.
  replace (trimStart s) with s; [now apply trimEnd_plain|].
  destruct s as [|c r]; [reflexivity|]. simpl in *.
  apply orb_false_iff in Hs as [-> _]. reflexivity.
Qed.

Lemma split_on_dot (digits rest : string) :
  string_forall is_digit digits = true
  -> split_on "." (digits ++ String "." rest) = digits :: split_on "." rest.
Proof.
  induction digits as [|c r IH]; simpl.
  - reflexivity.
  - rewrite andb_true_iff. intros [Hc Hr].
    destruct (digit_is_plain c Hc) as [_ ->]. now rewrite (IH Hr).
Qed.

Lemma Number_show_N (n : N) : Number (show_N n) = Num (Z.of_N n).
Proof.
  unfold Number.
  rewrite trim_plain by (apply digits_no_whitespace, show_N_digits).
  now rewrite digits_from_show_N.
Qed.

Lemma replace_leading_v (s : string) : replace_string "v" EmptyString (String "v" s) = s.
Proof. reflexivity. Qed.

(** ** C8: [checkNodeVersion] *)

(** C8: on a host whose [process.version] is [v<major>.<rest>],
    [checkNodeVersion minMajor] throws when [major < minMajor] and returns
    when [major >= minMajor]; the message of the error states the minimum
    and holds the word "required". *)
Theorem checkNodeVersion_spec :
  forall (H : host) (minMajor : Z) (major : N) (rest : string) (w : world),
    process_version H = "v" ++ show_N major ++ "." ++ rest
    -> ((Z.of_N major < minMajor)%Z ->
        checkNodeVersion H minMajor w
        = (Throw (Error ("Node.js v" ++ show_Z minMajor ++ "+ required")), w))
       /\ ((minMajor <= Z.of_N major)%Z -> checkNodeVersion H minMajor w = (Ret tt, w))
       /\ contains ("Node.js v" ++ show_Z minMajor ++ "+ required") "required"
       /\ contains ("Node.js v" ++ show_Z minMajor ++ "+ required") (show_Z minMajor).
Proof.
  intros H minMajor major rest w Hv. unfold checkNodeVersion. rewrite Hv.
  change ("v" ++ show_N major ++ "." ++ rest)
    with (String "v" (show_N major ++ String "." rest)).
  rewrite replace_leading_v, split_on_dot by apply show_N_digits.
  cbn [hd]. rewrite Number_show_N. cbn [js_lt].
  split; [|split; [|split]].
  - intros Hlt. apply Z.ltb_lt in Hlt. now rewrite Hlt.
  - intros Hge. apply Z.ltb_ge in Hge. now rewrite Hge.
  - exists ("Node.js v" ++ show_Z minMajor ++ "+ "), EmptyString.
    now rewrite !append_assoc.
  - exists "Node.js v", "+ required". reflexivity.
Qed.

(** C8, witness: on Node 20.11.0 a minimum of 99 is refused and a minimum
    of 10 is accepted, as in the repository's tests. *)
Lemma checkNodeVersion_witness :
  checkNodeVersion sample_host 99 sample_world
  = (Throw (Error "Node.js v99+ required"), sample_world)
  /\ checkNodeVersion sample_host 10 sample_world = (Ret tt, sample_world)
  /\ checkNodeVersion sample_host 20 sample_world = (Ret tt, sample_world).
Proof.
  split; [|split].
  - exact (proj1 (checkNodeVersion_spec sample_host 99 20 "11.0" sample_world eq_refl)
             ltac:(reflexivity)).
  - exact (proj1 (proj2 (checkNodeVersion_spec sample_host 10 20 "11.0" sample_world eq_refl))
             ltac:(discriminate)).
  - exact (proj1 (proj2 (checkNodeVersion_spec sample_host 20 20 "11.0" sample_world eq_refl))
             ltac:(discriminate)).
Defined.

(** ** C4 and C10: [updatePackageJson] *)

Lemma set_entry_nonempty {A : Type} (k : string) (v : A) (l : list (string * A)) :
  set_entry k v l <> [].
Proof. destruct l as [|[k' v'] r]; simpl; [|destruct (String.eqb k k')]; discriminate. Qed.

Lemma filter_set_entry {A : Type} (f : string * A -> bool) (k : string) (v : A)
  (l : list (string * A)) :
  (forall v', f (k, v') = false)
  -> filter f (set_entry k v l) = filter f l.
Proof.
  intros Hf. induction l as [|[k' v'] r IH]; simpl.
  - now rewrite Hf.
  - destruct (String.eqb_spec k k') as [->|Hne]; simpl.
    + now rewrite !Hf.
    + now rewrite IH.
Qed.

(** What the call does when the descriptor is a file that parses to an
    object. *)
Lemma updatePackageJson_object (H : host) (projectPath : fpath) (projectName : string)
  (w : world) (text : string) (members : list (string * json)) :
  walk (projectPath ++ ["package.json"])%list (fs w) = inr (File text)
  -> JSON_parse H text = inr (JObject members)
  -> updatePackageJson H projectPath projectName w
     = (Ret tt,
        set_fs (graft (projectPath ++ ["package.json"])%list
                  (File (JSON_stringify (JObject (renamed projectName members)) 2))
                  (fs w)) w).
Proof.
  intros Hw Hp. unfold updatePackageJson. run. rewrite Hw. run.
  rewrite Hw, Hp. run. unfold renamed.
  now rewrite (put_file_overwrite _ _ text (fs w) Hw).
Qed.

(** C4: [updatePackageJson] does nothing when the descriptor is absent;
    a parse failure is thrown on, the file untouched; and a descriptor
    that parses to an object is rewritten as the object with [name] set to
    the project name and [description] to "<name> app description", one
    member per line behind two spaces of indentation, nothing apart from
    the file being touched. *)
Theorem updatePackageJson_spec :
  forall (H : host) (projectPath : fpath) (projectName : string) (w : world),
    ((forall m, walk (projectPath ++ ["package.json"])%list (fs w) <> inr m)
     -> updatePackageJson H projectPath projectName w = (Ret tt, w))
    /\ (forall text e,
          walk (projectPath ++ ["package.json"])%list (fs w) = inr (File text)
          -> JSON_parse H text = inl e
          -> updatePackageJson H projectPath projectName w = (Throw e, w))
    /\ (forall text members,
          walk (projectPath ++ ["package.json"])%list (fs w) = inr (File text)
          -> JSON_parse H text = inr (JObject members)
          -> exists members' n',
               updatePackageJson H projectPath projectName w = (Ret tt, set_fs n' w)
               /\ walk (projectPath ++ ["package.json"])%list n'
                  = inr (File (JSON_stringify (JObject members') 2))
               /\ assoc "name" members' = Some (JString projectName)
               /\ assoc "description" members'
                  = Some (JString (projectName ++ " app description"))
               /\ JSON_stringify (JObject members') 2
                  = "{" ++ newline ++ "  "
                    ++ String.concat ("," ++ newline ++ "  ")
                         (map (fun kv => QuoteJSONString (fst kv) ++ ": "
                                         ++ serialize "  " "  " (snd kv)) members')
                    ++ newline ++ "}"
               /\ (forall q, apart (projectPath ++ ["package.json"])%list q
                             -> walk q n' = walk q (fs w))).
Proof.
  intros H p name w. split; [|split].
  - intros Hw. unfold updatePackageJson. run.
    destruct (walk (p ++ ["package.json"])%list (fs w)) as [e|m]; [reflexivity|].
    now contradiction (Hw m).
  - intros text e Hw Hp. unfold updatePackageJson. run. rewrite Hw. run.
    rewrite Hw, Hp. reflexivity.
  - intros text members Hw Hp.
    exists (renamed name members). eexists.
    split; [now apply (updatePackageJson_object H p name w text members)|].
    split; [apply walk_graft_same; right; eauto|].
    split; [unfold renamed; rewrite assoc_set_entry_other by discriminate;
            apply assoc_set_entry_same|].
    split; [apply assoc_set_entry_same|].
    split; [|intros q Hq; now apply walk_graft_apart].
    unfold renamed.
    destruct (set_entry "description" (JString (name ++ " app description"))
                (set_entry "name" (JString name) members)) as [|kv rest] eqn:E.
    + now apply set_entry_nonempty in E.
    + reflexivity.
Qed.

(** C4, witness: the sample descriptor renamed to [demo]; a text that is
    no JSON; no descriptor at all. *)
Lemma updatePackageJson_witness :
  updatePackageJson sample_host ["home"; "dev"] "demo" project_world = (Ret tt, project_world)
  /\ (exists e,
        updatePackageJson sample_host ["tmp"] "demo"
          (set_fs (Dir [("tmp", Dir [("package.json", File "{ name: ")])]) sample_world)
        = (Throw e, set_fs (Dir [("tmp", Dir [("package.json", File "{ name: ")])]) sample_world))
  /\ (exists members' n',
        updatePackageJson sample_host ["home"; "dev"; "demo"] "demo" project_world
        = (Ret tt, set_fs n' project_world)
        /\ assoc "name" members' = Some (JString "demo")
        /\ assoc "description" members' = Some (JString "demo app description")).
Proof.
  split; [|split].
  - apply (proj1 (updatePackageJson_spec sample_host ["home"; "dev"] "demo" project_world)).
    intros m. discriminate.
  - eexists.
    exact (proj1 (proj2 (updatePackageJson_spec sample_host ["tmp"] "demo"
                           (set_fs (Dir [("tmp", Dir [("package.json", File "{ name: ")])])
                              sample_world)))
             "{ name: " _ eq_refl eq_refl).
  - destruct (proj2 (proj2 (updatePackageJson_spec sample_host ["home"; "dev"; "demo"] "demo"
                              project_world))
                sample_package_json _ eq_refl eq_refl)
      as [members' [n' [E [_ [Hn [Hd _]]]]]].
    exists members', n'. now repeat split.
Defined.

(** C10: when the descriptor parses to an object, the document written
    back holds every member other than [name] and [description] with the
    value it had, in the order it had; a reader for which the written text
    parses back to the written object finds those members unchanged in the
    file. *)
Theorem updatePackageJson_keeps_other_members :
  forall (H : host) (projectPath : fpath) (projectName : string) (w : world)
         (text : string) (members : list (string * json)),
    walk (projectPath ++ ["package.json"])%list (fs w) = inr (File text)
    -> JSON_parse H text = inr (JObject members)
    -> exists w',
         updatePackageJson H projectPath projectName w = (Ret tt, w')
         /\ readFileSync (projectPath ++ ["package.json"])%list w'
            = (Ret (JSON_stringify (JObject (renamed projectName members)) 2), w')
         /\ (forall k, k <> "name" -> k <> "description"
                       -> assoc k (renamed projectName members) = assoc k members)
         /\ filter other_member (renamed projectName members) = filter other_member members
         /\ (JSON_parse H (JSON_stringify (JObject (renamed projectName members)) 2)
             = inr (JObject (renamed projectName members))
             -> exists reread,
                  (text' <- readFileSync (projectPath ++ ["package.json"])%list ;;
                   lift (JSON_parse H text')) w' = (Ret (JObject reread), w')
                  /\ forall k, k <> "name" -> k <> "description"
                               -> assoc k reread = assoc k members).
Proof.
  intros H p name w text members Hw Hp.
  assert (Hkeep : forall k, k <> "name" -> k <> "description"
                            -> assoc k (renamed name members) = assoc k members).
  { intros k Hn Hd. unfold renamed.
    rewrite !assoc_set_entry_other by congruence. reflexivity. }
  assert (Hread :
    readFileSync (p ++ ["package.json"])%list
      (set_fs (graft (p ++ ["package.json"])%list
                 (File (JSON_stringify (JObject (renamed name members)) 2)) (fs w)) w)
    = (Ret (JSON_stringify (JObject (renamed name members)) 2),
       set_fs (graft (p ++ ["package.json"])%list
                 (File (JSON_stringify (JObject (renamed name members)) 2)) (fs w)) w)).
  { unfold readFileSync. cbn [fs set_fs].
    rewrite walk_graft_same by (right; eauto). reflexivity. }
  eexists.
  split; [now apply (updatePackageJson_object H p name w text members)|].
  split; [exact Hread|].
  split; [exact Hkeep|].
  split.
  - unfold renamed. rewrite !filter_set_entry; reflexivity.
  - intros Hround. exists (renamed name members). split; [|exact Hkeep].
    unfold bind. rewrite Hread. cbn beta iota. now rewrite Hround.
Qed.

(** C10, witness: the sample descriptor keeps its [version] member. *)
Lemma updatePackageJson_keeps_other_members_witness :
  exists w',
    updatePackageJson sample_host ["home"; "dev"; "demo"] "demo" project_world = (Ret tt, w')
    /\ assoc "version"
         (renamed "demo" [("name", JString "old"); ("description", JString "desc");
                          ("version", JString "1.0.0")])
       = Some (JString "1.0.0")
    /\ exists reread,
         (text' <- readFileSync ["home"; "dev"; "demo"; "package.json"] ;;
          lift (JSON_parse sample_host text')) w' = (Ret (JObject reread), w')
         /\ assoc "version" reread = Some (JString "1.0.0").
Proof.
  destruct (updatePackageJson_keeps_other_members sample_host ["home"; "dev"; "demo"] "demo"
              project_world sample_package_json _ eq_refl eq_refl)
    as [w' [E [R [K [F Hround]]]]].
  exists w'. split; [exact E|]. split.
  - rewrite K by discriminate. reflexivity.
  - destruct (Hround eq_refl) as [reread [Hr Hk]].
    exists reread. split; [exact Hr|]. rewrite Hk by discriminate. reflexivity.
Defined.

(** The repository's test of [updatePackageJson]: the file read back has
    the new name and description. *)
Example updatePackageJson_test :
  let w' := snd (updatePackageJson test_host ["test-tmp"] "new-name" test_package_world) in
  fst (updatePackageJson test_host ["test-tmp"] "new-name" test_package_world) = Ret tt
  /\ exists members,
       fst ((text <- readFileSync ["test-tmp"; "package.json"] ;;
             lift (JSON_parse test_host text)) w') = Ret (JObject members)
       /\ assoc "name" members = Some (JString "new-name")
       /\ assoc "description" members = Some (JString "new-name app description").
Proof.
  split; [reflexivity|].
  exists [("name", JString "new-name");
          ("description", JString "new-name app description")].
  repeat split.
Qed.

(** ** C9: [cloneBoilerplate] *)

(** C9: [cloneBoilerplate] sanitizes [tempDir], joins [create-stb-temp]
    to the result and sanitizes that; a refusal by the sanitizer is thrown
    before any child process is started.  It then starts [git clone] and
    [git sparse-checkout], both with an argument vector (never a shell
    command line), for the fixed repository and the [serverless] directory,
    and returns [<clone destination>/serverless]; when one of the two child
    processes fails its error is thrown on, and the second is not started
    after a failure of the first. *)
Theorem cloneBoilerplate_spec : forall (H : host) (tempDir : string) (w : world),
  (forall e, sanitizePath H tempDir = inl e -> cloneBoilerplate H tempDir w = (Throw e, w))
  /\ (forall safeTempDir e,
        sanitizePath H tempDir = inr safeTempDir
        -> sanitizePath H (path_join (path H) [safeTempDir; "create-stb-temp"]) = inl e
        -> cloneBoilerplate H tempDir w = (Throw e, w))
  /\ (forall safeTempDir safeClonePath,
        sanitizePath H tempDir = inr safeTempDir
        -> sanitizePath H (path_join (path H) [safeTempDir; "create-stb-temp"])
           = inr safeClonePath
        -> cloneBoilerplate H tempDir w
           = match child_process H (clone_call safeClonePath) (fs w) with
             | (Some e, n1) => (Throw e, after_child (clone_call safeClonePath) n1 w)
             | (None, n1) =>
                 let w1 := after_child (clone_call safeClonePath) n1 w in
                 match child_process H (sparse_checkout_call safeClonePath) n1 with
                 | (Some e, n2) =>
                     (Throw e, after_child (sparse_checkout_call safeClonePath) n2 w1)
                 | (None, n2) =>
                     (Ret (path_join (path H) [safeClonePath; "serverless"]),
                      after_child (sparse_checkout_call safeClonePath) n2 w1)
                 end
             end).
Proof.
  intros H tempDir w. unfold cloneBoilerplate. split; [|split].
  - intros e He. run. now rewrite He.
  - intros t e Ht He. run. rewrite Ht. run. now rewrite He.
  - intros t c Ht Hc. run. rewrite Ht. run. rewrite Hc. run.
    fold (clone_call c). fold (sparse_checkout_call c).
    destruct (child_process H (clone_call c) (fs w)) as [[e|] n1]; [reflexivity|].
    cbn [fs]. fold (after_child (clone_call c) n1 w).
    destruct (child_process H (sparse_checkout_call c) n1) as [[e|] n2]; reflexivity.
Qed.

(** C9, witness: a dangerous [tempDir] is refused before anything runs; on
    the sample host both child processes run and the template path comes
    back; on the failing host the error of [git sparse-checkout] is thrown. *)
Lemma cloneBoilerplate_witness :
  (exists e, cloneBoilerplate sample_host "/tmp/a;b" sample_world = (Throw e, sample_world))
  /\ (exists w',
        cloneBoilerplate sample_host "/tmp/work" sample_world
        = (Ret "/tmp/work/create-stb-temp/serverless", w')
        /\ spawned w' = [clone_call "/tmp/work/create-stb-temp";
                         sparse_checkout_call "/tmp/work/create-stb-temp"])
  /\ (exists w',
        cloneBoilerplate (failing_host false) "/tmp/work" sample_world
        = (Throw sparse_checkout_failure, w')).
Proof.
  split; [|split].
  - eexists.
    exact (proj1 (cloneBoilerplate_spec sample_host "/tmp/a;b" sample_world) _ eq_refl).
  - eexists. split.
    + exact (proj2 (proj2 (cloneBoilerplate_spec sample_host "/tmp/work" sample_world))
               "/tmp/work" "/tmp/work/create-stb-temp" eq_refl eq_refl).
    + reflexivity.
  - eexists.
    exact (proj2 (proj2 (cloneBoilerplate_spec (failing_host false) "/tmp/work" sample_world))
             "/tmp/work" "/tmp/work/create-stb-temp" eq_refl eq_refl).
Defined.

(** ** C2: failure recovery in [main] *)

(** [cleanupTemp] returns, or throws the error of the failed removal. *)
Lemma cleanupTemp_outcomes (H : host) (p : fpath) (w : world) :
  (exists w', cleanupTemp H p w = (Ret tt, w'))
  \/ (exists code, cleanupTemp H p w = (Throw (SystemError code "rm" p), w)).
Proof.
  unfold cleanupTemp. run.
  destruct (walk p (fs w)) as [e|m] eqn:Hw; run; [left; eauto|].
  rewrite Hw.
  destruct (os_refuses_removal H p) as [code|]; [right; eauto|].
  destruct (remove p (fs w)) as [code|n]; [right; eauto | left; eauto].
Qed.

(** C2 (as amended): when a step of the pipeline throws [e], [main] calls
    [cleanupTemp] on the temporary workspace, in the world the failed step
    left.  If that call returns, [main] throws [e]; if that call throws,
    [main] throws the error of the cleanup and [e] is lost.  The call
    returns, and the workspace is gone, whenever the operating system does
    not refuse the removal. *)
Theorem main_failure_recovery :
  forall (H : host) (fuel : nat) (name : string) (w w1 : world) (e : exn),
    name <> EmptyString
    -> pipeline H fuel name
         (path_resolve (path H) [process_cwd H; name])
         (path_join (path H) [os_tmpdir H; "create-stb-" ++ show_N (Date_now H)]) w
       = (Throw e, w1)
    -> ((exists w2,
           cleanupTemp H
             (locate H (path_join (path H) [os_tmpdir H; "create-stb-" ++ show_N (Date_now H)]))
             w1 = (Ret tt, w2)
           /\ main H fuel (Some name) w = (Throw e, w2))
        \/ (exists cleanup_error,
              cleanupTemp H
                (locate H (path_join (path H) [os_tmpdir H; "create-stb-" ++ show_N (Date_now H)]))
                w1 = (Throw cleanup_error, w1)
              /\ main H fuel (Some name) w = (Throw cleanup_error, w1)))
       /\ (os_refuses_removal H
             (locate H (path_join (path H) [os_tmpdir H; "create-stb-" ++ show_N (Date_now H)]))
           = None
           -> locate H (path_join (path H) [os_tmpdir H; "create-stb-" ++ show_N (Date_now H)])
              <> []
           -> exists w2,
                main H fuel (Some name) w = (Throw e, w2)
                /\ existsSync
                     (locate H (path_join (path H)
                                  [os_tmpdir H; "create-stb-" ++ show_N (Date_now H)]))
                     w2 = (Ret false, w2)).
Proof.
  intros H fuel name w w1 e Hname Hpipe.
  set (tempDir := path_join (path H) [os_tmpdir H; "create-stb-" ++ show_N (Date_now H)]) in *.
  assert (Hmain : main H fuel (Some name) w
                  = (cleanupTemp H (locate H tempDir) ;; throw e) w1).
  { unfold main. destruct name as [|c r]; [congruence|].
    fold tempDir. unfold try_catch. now rewrite Hpipe. }
  split.
  - rewrite Hmain. unfold bind, throw.
    destruct (cleanupTemp_outcomes H (locate H tempDir) w1) as [[w2 E]|[code E]].
    + left. exists w2. now rewrite E.
    + right. exists (SystemError code "rm" (locate H tempDir)). now rewrite E.
  - intros Hos Hroot. rewrite Hmain. unfold bind, throw.
    destruct (walk (locate H tempDir) (fs w1)) as [err|m] eqn:Hw.
    + exists w1. rewrite (cleanupTemp_missing H (locate H tempDir) w1).
      * split; [reflexivity|]. unfold existsSync. now rewrite Hw.
      * intros m. congruence.
    + destruct (cleanupTemp_removes H (locate H tempDir) w1 m Hw Hroot Hos)
        as [n' [E [Hgone _]]].
      exists (set_fs n' w1). rewrite E. split; [reflexivity|].
      unfold existsSync. cbn [fs set_fs]. now rewrite Hgone.
Qed.

(** C2, witness: [git sparse-checkout] fails after the clone has filled
    the temporary workspace; the removal is not refused, so [main] throws
    the error of the failed step and the workspace is gone. *)
Lemma main_failure_recovery_witness :
  exists w2,
    main (failing_host false) 5 (Some "demo") sample_world
    = (Throw sparse_checkout_failure, w2)
    /\ existsSync ["tmp"; "create-stb-1700000000000"] w2 = (Ret false, w2).
Proof.
  exact (proj2 (main_failure_recovery (failing_host false) 5 "demo" sample_world
                  (snd (pipeline (failing_host false) 5 "demo" "/home/dev/demo"
                          "/tmp/create-stb-1700000000000" sample_world))
                  sparse_checkout_failure ltac:(discriminate) eq_refl)
           eq_refl ltac:(discriminate)).
Defined.

(** C2, counterexample to the claim as stated: the same failure on a host
    whose operating system refuses the removal.  The step throws the error
    of [git sparse-checkout]; [main] throws the [EPERM] of the cleanup, and
    the original error is lost. *)
Lemma main_cleanup_error_replaces_original :
  fst (pipeline (failing_host true) 5 "demo" "/home/dev/demo"
         "/tmp/create-stb-1700000000000" sample_world)
  = Throw sparse_checkout_failure
  /\ fst (main (failing_host true) 5 (Some "demo") sample_world)
     = Throw (SystemError EPERM "rm" ["tmp"; "create-stb-1700000000000"])
  /\ fst (main (failing_host true) 5 (Some "demo") sample_world)
     <> Throw sparse_checkout_failure.
Proof.
  split; [vm_compute; reflexivity|].
  split; [vm_compute; reflexivity|].
  vm_compute. discriminate.
Qed.

(** ** [checkGitInstalled] and the usage exit *)

(** [checkGitInstalled] starts [git --version] with an argument vector;
    it returns when the child process succeeds and throws its own error,
    whatever the child's error was, when it fails. *)
Theorem checkGitInstalled_spec : forall (H : host) (w : world),
  checkGitInstalled H w
  = match child_process H (ExecFile "git" ["--version"] None "ignore") (fs w) with
    | (None, n) => (Ret tt, after_child (ExecFile "git" ["--version"] None "ignore") n w)
    | (Some _, n) =>
        (Throw (Error "Git is not installed. Please install git and try again."),
         after_child (ExecFile "git" ["--version"] None "ignore") n w)
    end.
Proof.
  intros H w. unfold checkGitInstalled. run.
  destruct (child_process H (ExecFile "git" ["--version"] None "ignore") (fs w))
    as [[e|] n]; reflexivity.
Qed.

(** Without a project name (none given, or the empty string) [main]
    prints the usage line on the error stream and exits with status 1; no
    step of the pipeline runs. *)
Theorem main_requires_name : forall (H : host) (fuel : nat) (w : world),
  main H fuel None w
  = (Exit 1, {| fs := fs w; stdout := stdout w;
                stderr := (stderr w ++ [("Please provide a project name." ++ newline)%string])%list;
                spawned := spawned w |})
  /\ main H fuel (Some EmptyString) w = main H fuel None w.
Proof. intros H fuel w. split; reflexivity. Qed.

(** ** C3: [updateServerlessYml] *)

(** C3: the claim fails on the code for a project name that holds a
    [$] pattern of [String.prototype.replace].  With the declaration file
    of the repository's test and the name [my$$app], the service line that
    is written is [service: my$app], not [service: my$$app]. *)
Theorem updateServerlessYml_dollar_name :
  exists w',
    updateServerlessYml ["home"; "dev"; "demo"] "my$$app" project_world = (Ret tt, w')
    /\ readFileSync ["home"; "dev"; "demo"; "serverless.yml"] w'
       = (Ret ("service: my$app" ++ newline ++ "provider:" ++ newline
               ++ "  name: aws" ++ newline), w')
    /\ "service: my$app" <> "service: my$$app".
Proof.
  exists (snd (updateServerlessYml ["home"; "dev"; "demo"] "my$$app" project_world)).
  split; [vm_compute; reflexivity|]. split; [vm_compute; reflexivity | discriminate].
Qed.

(** The repository's test of [updateServerlessYml]. *)
Example updateServerlessYml_test :
  exists w',
    updateServerlessYml ["home"; "dev"; "demo"] "my-service" project_world = (Ret tt, w')
    /\ readFileSync ["home"; "dev"; "demo"; "serverless.yml"] w'
       = (Ret ("service: my-service" ++ newline ++ "provider:" ++ newline
               ++ "  name: aws" ++ newline), w').
Proof.
  exists (snd (updateServerlessYml ["home"; "dev"; "demo"] "my-service" project_world)).
  split; vm_compute; reflexivity.
Qed.

(** *** The replacement, when the name holds no dollar sign *)

Lemma GetSubstitution_plain (before matched after template : string) :
  string_exists is_dollar template = false
  -> GetSubstitution before matched after template = template.
Proof.
  induction template as [|c r IH]; simpl; [reflexivity|].
  rewrite orb_false_iff. unfold is_dollar at 1. intros [Hc Hr].
  now rewrite Hc, (IH Hr).
Qed.

Lemma startsWith_take_line (p s : string) :
  string_exists is_line_terminator p = false
  -> startsWith p (take_line s) = startsWith p s.
Proof.
  revert s. induction p as [|a p IH]; intros s; simpl; [reflexivity|].
  rewrite orb_false_iff. intros [Ha Hp].
  destruct s as [|c r]; simpl; [reflexivity|].
  destruct (is_line_terminator c) eqn:Hc; simpl.
  - destruct (Ascii.eqb_spec a c) as [->|Hne]; [congruence | reflexivity].
  - now rewrite (IH r Hp).
Qed.

Lemma text_lines_head (s : string) :
  exists t ls, text_lines s = (take_line s, t) :: ls /\ drop_line s = t ++ unlines ls.
Proof.
  induction s as [|c r IH]; simpl.
  - now exists EmptyString, [].
  - destruct IH as [t [ls [E D]]].
    destruct (is_line_terminator c) eqn:Hc.
    + exists (String c EmptyString), (text_lines r). split; [reflexivity|].
      simpl. f_equal. clear E D t ls Hc.
      induction r as [|d r IHr]; simpl; [reflexivity|].
      destruct (is_line_terminator d); simpl; [now rewrite <- IHr|].
      destruct (text_lines r) as [|[b t] ls]; simpl in *; [now rewrite <- IHr|].
      now rewrite <- IHr.
    + rewrite E. exists t, ls. now split.
Qed.

Lemma unlines_text_lines (s : string) : unlines (text_lines s) = s.
Proof.
  induction s as [|c r IH]; simpl; [reflexivity|].
  destruct (is_line_terminator c); simpl; [now rewrite IH|].
  destruct (text_lines r) as [|[b t] ls]; simpl in *; now rewrite <- IH.
Qed.

(** The regular expression finds the first line that begins with
    [service:]: at the start of a line it is the first such line of the
    text, in the middle of a line it is the first such line after it. *)
Lemma match_service_lines (s : string) :
  match_service true s = first_service_line (text_lines s)
  /\ match_service false s
     = match text_lines s with
       | (b, t) :: ls =>
           match first_service_line ls with
           | Some (pre, m, post) => Some (b ++ t ++ pre, m, post)
           | None => None
           end
       | [] => None
       end.
Proof.
  induction s as [|c r [IHt IHf]].
  - split; reflexivity.
  - destruct (text_lines_head (String c r)) as [t0 [ls0 [E0 D0]]].
    assert (Hsw : startsWith "service:" (take_line (String c r))
                  = startsWith "service:" (String c r))
      by now apply startsWith_take_line.
    cbn [match_service]. cbn [andb].
    rewrite E0. cbn [first_service_line]. rewrite Hsw, D0.
    cbn [text_lines take_line] in E0.
    destruct (is_line_terminator c) eqn:Hc.
    + injection E0 as Et Els. subst t0 ls0.
      assert (Hno : startsWith "service:" (String c r) = false).
      { rewrite <- Hsw. simpl. now rewrite Hc. }
      rewrite Hno, IHt. cbn [take_line]. rewrite Hc. split; reflexivity.
    + destruct (text_lines r) as [|[b t] ls] eqn:Er.
      * destruct (text_lines_head r) as [t1 [ls1 [E1 _]]]. congruence.
      * injection E0 as Eb Et Els. subst t0 ls0.
        rewrite IHf. cbn [take_line]. rewrite Hc, <- Eb.
        destruct (first_service_line ls) as [[[pre m] post]|];
          destruct (startsWith "service:" (String c r)); split; reflexivity.
Qed.

Lemma unlines_rewrite_first (projectName : string) (ls : list (string * string)) :
  unlines (rewrite_first_service_line projectName ls)
  = match first_service_line ls with
    | Some (pre, m, post) => pre ++ ("service: " ++ projectName) ++ post
    | None => unlines ls
    end.
Proof.
  induction ls as [|[b t] r IH];
    cbn [rewrite_first_service_line first_service_line unlines]; [reflexivity|].
  destruct (startsWith "service:" b);
    cbn [rewrite_first_service_line first_service_line unlines]; [reflexivity|].
  rewrite IH. destruct (first_service_line r) as [[[pre m] post]|]; [|reflexivity].
  now rewrite !append_assoc.
Qed.

(** For a project name without a dollar sign the replacement made by the
    code is the rewriting of the first service line. *)
Lemma replace_service_plain (projectName content : string) :
  string_exists is_dollar projectName = false
  -> replace_service ("service: " ++ projectName) content
     = service_line_rewritten projectName content.
Proof.
  intros Hplain. unfold replace_service, service_line_rewritten.
  rewrite unlines_rewrite_first, (proj1 (match_service_lines content)).
  destruct (first_service_line (text_lines content)) as [[[pre m] post]|].
  - now rewrite GetSubstitution_plain.
  - now rewrite unlines_text_lines.
Qed.

Lemma rewrite_without_service_line (projectName : string) (ls : list (string * string)) :
  Forall (fun l => startsWith "service:" (fst l) = false) ls
  -> rewrite_first_service_line projectName ls = ls.
Proof.
  induction 1 as [|[b t] r Hb Hr IH]; cbn [rewrite_first_service_line]; [reflexivity|].
  cbn [fst] in Hb. now rewrite Hb, IH.
Qed.

(** [updateServerlessYml] for a project name without a dollar sign: no
    declaration file, nothing happens; otherwise the first line that begins
    with [service:] becomes [service: <projectName>] and everything else in
    the file, and everything apart from the file, stays as it is; a file
    without such a line keeps its content. *)
Theorem updateServerlessYml_plain_name :
  forall (projectPath : fpath) (projectName : string) (w : world),
    string_exists is_dollar projectName = false
    -> ((forall m, walk (projectPath ++ ["serverless.yml"])%list (fs w) <> inr m)
        -> updateServerlessYml projectPath projectName w = (Ret tt, w))
       /\ (forall content,
             walk (projectPath ++ ["serverless.yml"])%list (fs w) = inr (File content)
             -> exists n',
                  updateServerlessYml projectPath projectName w = (Ret tt, set_fs n' w)
                  /\ walk (projectPath ++ ["serverless.yml"])%list n'
                     = inr (File (service_line_rewritten projectName content))
                  /\ (forall q, apart (projectPath ++ ["serverless.yml"])%list q
                                -> walk q n' = walk q (fs w)))
       /\ (forall content,
             walk (projectPath ++ ["serverless.yml"])%list (fs w) = inr (File content)
             -> Forall (fun l => startsWith "service:" (fst l) = false) (text_lines content)
             -> service_line_rewritten projectName content = content
                /\ updateServerlessYml projectPath projectName w = (Ret tt, w)).
Proof.
  intros p name w Hplain. split; [|split].
  - intros Hw. unfold updateServerlessYml. run.
    destruct (walk (p ++ ["serverless.yml"])%list (fs w)) as [e|m]; [reflexivity|].
    now contradiction (Hw m).
  - intros content Hw. unfold updateServerlessYml. run. rewrite Hw. run. rewrite Hw. run.
    rewrite (put_file_overwrite _ _ content (fs w) Hw).
    rewrite (replace_service_plain _ _ Hplain).
    eexists. split; [reflexivity|]. split.
    + apply walk_graft_same. right. eauto.
    + intros q Hq. now apply walk_graft_apart.
  - intros content Hw Hall.
    assert (Hsame : service_line_rewritten name content = content).
    { unfold service_line_rewritten.
      now rewrite rewrite_without_service_line, unlines_text_lines. }
    split; [exact Hsame|].
    unfold updateServerlessYml. run. rewrite Hw. run. rewrite Hw. run.
    rewrite (put_file_overwrite _ _ content (fs w) Hw).
    rewrite (replace_service_plain _ _ Hplain), Hsame.
    now rewrite (graft_id _ _ _ Hw), set_fs_same.
Qed.

Lemma updateServerlessYml_plain_name_witness :
  exists n',
    updateServerlessYml ["home"; "dev"; "demo"] "my-service" project_world
    = (Ret tt, set_fs n' project_world)
    /\ walk ["home"; "dev"; "demo"; "serverless.yml"] n'
       = inr (File ("service: my-service" ++ newline ++ "provider:" ++ newline
                    ++ "  name: aws" ++ newline)).
Proof.
  destruct (proj1 (proj2 (updateServerlessYml_plain_name ["home"; "dev"; "demo"] "my-service"
                            project_world eq_refl))
              sample_serverless_yml eq_refl) as [n' [E [W _]]].
  exists n'. split; [exact E | exact W].
Defined.

(** ** The whole run *)

(** The end-to-end scenario of the specification on the sample host: the
    project directory holds the template, the descriptor is named [demo],
    the service line reads [service: demo], the temporary workspace is
    gone, and the only command line given to a shell is the install. *)
Example main_end_to_end :
  let r := main sample_host 5 (Some "demo") sample_world in
  fst r = Ret tt
  /\ walk ["home"; "dev"; "demo"; "src"; "handler.ts"] (fs (snd r))
     = inr (File "export const handler = 1;")
  /\ walk ["home"; "dev"; "demo"; ".gitignore"] (fs (snd r)) = inr (File "node_modules")
  /\ walk ["home"; "dev"; "demo"; "package.json"] (fs (snd r))
     = inr (File (JSON_stringify
                    (JObject [("name", JString "demo");
                              ("description", JString "demo app description");
                              ("version", JString "1.0.0")]) 2))
  /\ walk ["home"; "dev"; "demo"; "serverless.yml"] (fs (snd r))
     = inr (File ("service: demo" ++ newline ++ "provider:" ++ newline
                  ++ "  name: aws" ++ newline))
  /\ walk ["tmp"] (fs (snd r)) = inr (Dir [])
  /\ spawned (snd r)
     = [ExecFile "git" ["--version"] None "ignore";
        clone_call "/tmp/create-stb-1700000000000/create-stb-temp";
        sparse_checkout_call "/tmp/create-stb-1700000000000/create-stb-temp";
        ExecShell "npm install --silent" (Some "/home/dev/demo") "inherit"].
Proof. vm_compute. repeat split. Qed.

(** Without a project name [main] prints the usage line on the error
    stream and exits with status 1; nothing else happens. *)
Example main_without_name :
  main sample_host 5 None sample_world
  = (Exit 1, {| fs := sample_fs; stdout := [];
                stderr := ["Please provide a project name." ++ newline];
                spawned := [] |}).
Proof. reflexivity. Qed.

(** ** POSIX paths: what [path.normalize] and [path.resolve] return *)

Lemma split_on_append (sep : ascii) (a rest : string) :
  string_forall (fun c => negb (Ascii.eqb c sep)) a = true
  -> split_on sep (a ++ String sep rest) = a :: split_on sep rest.
Proof.
  induction a as [|c r IH]; cbn [append split_on string_forall].
  - intros _. now rewrite Ascii.eqb_refl.
  - rewrite andb_true_iff, negb_true_iff. intros [Hc Hr]. now rewrite Hc, (IH Hr).
Qed.

Lemma split_on_single (sep : ascii) (a : string) :
  string_forall (fun c => negb (Ascii.eqb c sep)) a = true -> split_on sep a = [a].
Proof.
  induction a as [|c r IH]; cbn [split_on string_forall]; [reflexivity|].
  rewrite andb_true_iff, negb_true_iff. intros [Hc Hr]. now rewrite Hc, (IH Hr).
Qed.

Lemma split_on_no_sep (sep : ascii) (s : string) :
  Forall (fun x => string_forall (fun c => negb (Ascii.eqb c sep)) x = true)
    (split_on sep s).
Proof.
  induction s as [|c r IH]; cbn [split_on].
  - now constructor.
  - destruct (Ascii.eqb c sep) eqn:Hc; [now constructor|].
    destruct (split_on sep r) as [|h t]; inversion IH; subst; constructor; auto;
      cbn [string_forall]; now rewrite Hc.
Qed.

Lemma concat_cons (sep x : string) (y : string) (r : list string) :
  String.concat sep (x :: y :: r) = x ++ sep ++ String.concat sep (y :: r).
Proof. reflexivity. Qed.

Lemma split_on_concat (segs : list string) :
  segs <> [] -> Forall (fun s => no_slash s = true) segs
  -> split_on "/" (String.concat "/" segs) = segs.
Proof.
  induction segs as [|x [|y r] IH]; intros Hne Hall; [congruence| |].
  - inversion Hall; subst. now apply split_on_single.
  - inversion Hall; subst. rewrite concat_cons.
    change ("/" ++ String.concat "/" (y :: r)) with (String "/" (String.concat "/" (y :: r))).
    rewrite split_on_append by assumption.
    now rewrite IH by (assumption || discriminate).
Qed.

Lemma split_on_concat_trailing (segs : list string) :
  segs <> [] -> Forall (fun s => no_slash s = true) segs
  -> split_on "/" (String.concat "/" segs ++ "/") = (segs ++ [EmptyString])%list.
Proof.
  induction segs as [|x [|y r] IH]; intros Hne Hall; [congruence| |].
  - inversion Hall; subst. cbn [String.concat].
    change (x ++ "/") with (x ++ String "/" EmptyString).
    now rewrite split_on_append.
  - inversion Hall; subst. rewrite concat_cons, !append_assoc.
    change ("/" ++ String.concat "/" (y :: r) ++ "/")
      with (String "/" (String.concat "/" (y :: r) ++ "/")).
    rewrite split_on_append by assumption.
    now rewrite IH by (assumption || discriminate).
Qed.

(** *** Normal forms of segment lists *)

Lemma is_name_not_dots (s : string) : is_name s = true -> String.eqb s ".." = false.
Proof.
  unfold is_name. rewrite !andb_true_iff, !negb_true_iff. tauto.
Qed.

Lemma normalize_segments_names (allow : bool) (names acc : list string) :
  forallb is_name names = true
  -> normalize_segments allow acc names = (rev acc ++ names)%list.
Proof.
  revert acc. induction names as [|s r IH]; intros acc; cbn [forallb normalize_segments].
  - intros _. now rewrite app_nil_r.
  - rewrite andb_true_iff. intros [Hs Hr].
    unfold is_name in Hs. rewrite !andb_true_iff, !negb_true_iff in Hs.
    destruct Hs as [[H1 H2] H3]. rewrite H1, H2, H3. cbn [orb].
    rewrite (IH _ Hr). cbn [rev]. now rewrite <- app_assoc.
Qed.

Lemma normalize_segments_normal (allow : bool) (l acc : list string) :
  normal allow l = true
  -> forallb (String.eqb "..") acc = true
  -> normalize_segments allow acc l = (rev acc ++ l)%list.
Proof.
  revert acc. induction l as [|s r IH]; intros acc Hn Hacc.
  - cbn [normalize_segments]. now rewrite app_nil_r.
  - cbn [normal] in Hn. destruct (String.eqb_spec s "..") as [->|Hs].
    + apply andb_true_iff in Hn as [-> Hr]. cbn [normalize_segments].
      change (String.eqb ".." EmptyString || String.eqb ".." ".") with false.
      cbn iota. change (String.eqb ".." "..") with true. cbn iota.
      destruct acc as [|top acc'].
      * rewrite (IH [".."] Hr eq_refl). reflexivity.
      * cbn [forallb] in Hacc. apply andb_true_iff in Hacc as [Htop Hacc'].
        rewrite String.eqb_sym in Htop. rewrite Htop.
        rewrite (IH (".." :: top :: acc') Hr).
        -- cbn [rev]. now rewrite <- !app_assoc.
        -- cbn [forallb]. rewrite String.eqb_sym in Htop. now rewrite Htop, Hacc'.
    + apply (normalize_segments_names allow (s :: r) acc). exact Hn.
Qed.

Lemma normal_snoc_name (allow : bool) (l : list string) (s : string) :
  normal allow l = true -> is_name s = true -> normal allow (l ++ [s])%list = true.
Proof.
  intros Hl Hs. induction l as [|x r IH]; cbn [app normal].
  - rewrite (is_name_not_dots s Hs), Hs. reflexivity.
  - cbn [normal] in Hl. destruct (String.eqb x "..").
    + apply andb_true_iff in Hl as [-> Hr]. now rewrite IH.
    + apply andb_true_iff in Hl as [-> Hr]. rewrite forallb_app, Hr. cbn. now rewrite Hs.
Qed.

Lemma normal_snoc_dots (l : list string) :
  forallb (String.eqb "..") l = true -> normal true (l ++ [".."])%list = true.
Proof.
  induction l as [|x r IH]; cbn [app forallb normal]; [reflexivity|].
  rewrite andb_true_iff. intros [Hx Hr]. rewrite String.eqb_sym in Hx.
  now rewrite Hx, IH.
Qed.

Lemma normal_ends_with_dots (allow : bool) (l : list string) :
  normal allow (l ++ [".."])%list = true -> forallb (String.eqb "..") l = true.
Proof.
  induction l as [|x r IH]; cbn [app forallb normal]; [reflexivity|].
  destruct (String.eqb_spec x "..") as [->|Hx].
  - rewrite andb_true_iff. intros [_ Hr]. now rewrite IH.
  - rewrite andb_true_iff, forallb_app. cbn. rewrite !andb_true_iff.
    intros [_ [_ [E _]]]. discriminate.
Qed.

Lemma normal_init (allow : bool) (l : list string) (s : string) :
  normal allow (l ++ [s])%list = true -> normal allow l = true.
Proof.
  induction l as [|x r IH]; cbn [app normal]; [reflexivity|].
  destruct (String.eqb x "..").
  - rewrite !andb_true_iff. intros [Ha Hr]. split; [assumption | now apply IH].
  - rewrite !andb_true_iff, forallb_app, andb_true_iff. tauto.
Qed.

Lemma normalize_segments_is_normal (allow : bool) (segs acc : list string) :
  normal allow (rev acc) = true
  -> normal allow (normalize_segments allow acc segs) = true.
Proof.
  revert acc. induction segs as [|s r IH]; intros acc Hacc; cbn [normalize_segments];
    [assumption|].
  destruct (String.eqb_spec s EmptyString) as [->|Hne]; [now apply IH|].
  destruct (String.eqb_spec s ".") as [->|Hnd]; [now apply IH|]. cbn [orb].
  destruct (String.eqb_spec s "..") as [->|Hndd].
  - destruct acc as [|top acc'].
    + destruct allow; apply IH; reflexivity.
    + destruct (String.eqb_spec top "..") as [->|Htop].
      * destruct allow; apply IH; [|assumption].
        cbn [rev] in Hacc |- *. apply normal_snoc_dots.
        rewrite forallb_app. cbn. rewrite andb_true_r.
        now apply (normal_ends_with_dots true).
      * apply IH. cbn [rev] in Hacc. now apply normal_init in Hacc.
  - apply IH. cbn [rev]. apply normal_snoc_name; [assumption|].
    unfold is_name. apply String.eqb_neq in Hne, Hnd, Hndd. now rewrite Hne, Hnd, Hndd.
Qed.

Lemma normalize_segments_no_slash (allow : bool) (segs acc : list string) :
  Forall (fun s => no_slash s = true) segs
  -> Forall (fun s => no_slash s = true) acc
  -> Forall (fun s => no_slash s = true) (normalize_segments allow acc segs).
Proof.
  intros Hs. revert acc. induction Hs as [|s r Hs Hr IH]; intros acc Hacc;
    cbn [normalize_segments].
  - apply Forall_rev. assumption.
  - destruct (String.eqb s EmptyString || String.eqb s "."); [now apply IH|].
    destruct (String.eqb s "..").
    + destruct acc as [|top acc'].
      * destruct allow; apply IH; repeat constructor.
      * inversion Hacc; subst. destruct (String.eqb top "..").
        -- destruct allow; apply IH; repeat constructor; assumption.
        -- now apply IH.
    + apply IH. now constructor.
Qed.

Lemma normalize_segments_skip_last (allow : bool) (l acc : list string) :
  normalize_segments allow acc (l ++ [EmptyString])%list = normalize_segments allow acc l.
Proof.
  revert acc. induction l as [|s r IH]; intros acc; cbn [app normalize_segments].
  - reflexivity.
  - destruct (String.eqb s EmptyString || String.eqb s "."); [apply IH|].
    destruct (String.eqb s "..").
    + destruct acc as [|top acc']; [apply IH|].
      destruct (String.eqb top ".."); apply IH.
    + apply IH.
Qed.

(** *** Texts made of normal segments *)

Lemma normal_nonempty (allow : bool) (l : list string) :
  normal allow l = true -> Forall (fun s => s <> EmptyString) l.
Proof.
  induction l as [|s r IH]; cbn [normal]; [constructor|].
  destruct (String.eqb_spec s "..") as [->|Hs].
  - rewrite andb_true_iff. intros [_ Hr]. constructor; [discriminate | now apply IH].
  - rewrite andb_true_iff. intros [Hn Hr]. constructor.
    + intros ->. discriminate.
    + clear IH Hn Hs. induction r as [|x r IHr]; constructor.
      * cbn in Hr. apply andb_true_iff in Hr as [Hx _]. intros ->. discriminate.
      * apply IHr. cbn in Hr. now apply andb_true_iff in Hr as [_ Hr].
Qed.

Lemma concat_head (s : string) (r : list string) :
  exists tail, String.concat "/" (s :: r) = s ++ tail.
Proof.
  destruct r as [|y r].
  - exists EmptyString. cbn. now rewrite append_empty_r.
  - now exists ("/" ++ String.concat "/" (y :: r)).
Qed.

Lemma concat_nonempty (segs : list string) :
  segs <> [] -> Forall (fun s => s <> EmptyString) segs
  -> String.concat "/" segs <> EmptyString.
Proof.
  destruct segs as [|s r]; [congruence|]. intros _ Hall. inversion Hall; subst.
  destruct (concat_head s r) as [tail ->]. destruct s; [congruence | discriminate].
Qed.

Lemma is_absolute_concat (segs : list string) (post : string) :
  segs <> [] -> Forall (fun s => s <> EmptyString) segs
  -> Forall (fun s => no_slash s = true) segs
  -> is_absolute (String.concat "/" segs ++ post) = false.
Proof.
  destruct segs as [|s r]; [congruence|]. intros _ Hne Hns.
  inversion Hne; subst. inversion Hns; subst.
  destruct (concat_head s r) as [tail ->].
  destruct s as [|c s']; [congruence|].
  unfold no_slash in *. cbn [string_forall] in *.
  match goal with H : _ && _ = true |- _ => apply andb_true_iff in H as [Hc _] end.
  apply negb_true_iff in Hc. unfold is_absolute. cbn [append startsWith].
  rewrite Ascii.eqb_sym. now rewrite Hc.
Qed.

Lemma ends_with_slash_cons (c : ascii) (x : string) :
  x <> EmptyString -> ends_with_slash (String c x) = ends_with_slash x.
Proof. destruct x; [congruence | reflexivity]. Qed.

Lemma ends_with_slash_app (a b : string) :
  b <> EmptyString -> ends_with_slash (a ++ b) = ends_with_slash b.
Proof.
  intros Hb. induction a as [|c r IH]; [reflexivity|]. cbn [append].
  rewrite ends_with_slash_cons; [exact IH|].
  destruct r; [exact Hb | discriminate].
Qed.

Lemma no_slash_end (s : string) : no_slash s = true -> ends_with_slash s = false.
Proof.
  unfold no_slash. induction s as [|c r IH]; cbn [string_forall]; [reflexivity|].
  rewrite andb_true_iff, negb_true_iff. intros [Hc Hr].
  destruct r as [|d x]; [exact Hc | cbn [ends_with_slash]; now apply IH].
Qed.

Lemma ends_with_slash_concat (segs : list string) :
  segs <> [] -> Forall (fun s => s <> EmptyString) segs
  -> Forall (fun s => no_slash s = true) segs
  -> ends_with_slash (String.concat "/" segs) = false.
Proof.
  induction segs as [|x [|y r] IH]; intros Hne Hall Hns; [congruence| |].
  - inversion Hns; subst. now apply no_slash_end.
  - inversion Hall; subst. inversion Hns; subst.
    rewrite concat_cons.
    assert (Hrest : String.concat "/" (y :: r) <> EmptyString)
      by (apply concat_nonempty; [discriminate | assumption]).
    rewrite ends_with_slash_app by discriminate.
    change ("/" ++ String.concat "/" (y :: r)) with (String "/" (String.concat "/" (y :: r))).
    rewrite ends_with_slash_cons by assumption.
    apply IH; [discriminate | assumption..].
Qed.

Lemma ends_with_slash_added (a : string) : ends_with_slash (a ++ "/") = true.
Proof.
  induction a as [|c r IH]; [reflexivity|]. cbn [append].
  rewrite ends_with_slash_cons; [exact IH | destruct r; discriminate].
Qed.

(** A text written from normal segments is what [path.normalize] makes
    of it. *)
Lemma posix_normalize_of_normal (abs trail : bool) (segs : list string) :
  segs <> []
  -> normal (negb abs) segs = true
  -> Forall (fun s => no_slash s = true) segs
  -> posix_normalize ((if abs then "/" else EmptyString)
                      ++ String.concat "/" segs
                      ++ (if trail then "/" else EmptyString))
     = (if abs then "/" else EmptyString)
       ++ String.concat "/" segs ++ (if trail then "/" else EmptyString).
Proof.
  intros Hne Hn Hns.
  pose proof (normal_nonempty _ _ Hn) as Hall.
  pose proof (concat_nonempty segs Hne Hall) as Hbody.
  set (text := (if abs then "/" else EmptyString)
               ++ String.concat "/" segs ++ (if trail then "/" else EmptyString)).
  assert (Htext : String.eqb text EmptyString = false).
  { apply String.eqb_neq. unfold text.
    destruct abs; [discriminate|]. cbn [append].
    destruct (String.concat "/" segs); [congruence | discriminate]. }
  assert (Habs : is_absolute text = abs).
  { unfold text. destruct abs; [reflexivity|]. cbn [append].
    now apply is_absolute_concat. }
  assert (Htrail : ends_with_slash text = trail).
  { unfold text. destruct trail.
    - rewrite <- append_assoc. apply ends_with_slash_added.
    - rewrite append_empty_r, ends_with_slash_app by assumption.
      now apply ends_with_slash_concat. }
  assert (Hsegs : normalize_segments (negb abs) [] (split_on "/" text) = segs).
  { assert (Hinner :
      normalize_segments (negb abs) []
        (split_on "/" (String.concat "/" segs ++ (if trail then "/" else EmptyString)))
      = segs).
    { destruct trail.
      - rewrite split_on_concat_trailing, normalize_segments_skip_last by assumption.
        now rewrite normalize_segments_normal.
      - rewrite append_empty_r, split_on_concat by assumption.
        now rewrite normalize_segments_normal. }
    unfold text. destruct abs; [|exact Hinner].
    cbn [append split_on]. change (Ascii.eqb "/" "/") with true. cbn iota.
    cbn [normalize_segments]. change (String.eqb EmptyString EmptyString) with true.
    cbn [orb]. exact Hinner. }
  unfold posix_normalize, normalizeString.
  rewrite Htext, Habs, Htrail, Hsegs.
  apply String.eqb_neq in Hbody. rewrite Hbody.
  unfold text. destruct abs, trail; cbn [append]; rewrite ?append_empty_r; reflexivity.
Qed.

(** [path.normalize] returns a text in normal form: normalizing it again
    changes nothing. *)
Lemma posix_normalize_idempotent (p : string) :
  posix_normalize (posix_normalize p) = posix_normalize p.
Proof.
  unfold posix_normalize at 2 3.
  destruct (String.eqb p EmptyString); [reflexivity|].
  unfold normalizeString.
  set (abs := is_absolute p). set (trail := ends_with_slash p).
  set (segs := normalize_segments (negb abs) [] (split_on "/" p)).
  assert (Hn : normal (negb abs) segs = true)
    by (apply normalize_segments_is_normal; reflexivity).
  assert (Hns : Forall (fun s => no_slash s = true) segs).
  { apply normalize_segments_no_slash; [|constructor]. apply (split_on_no_sep "/"). }
  destruct (String.eqb_spec (String.concat "/" segs) EmptyString) as [He|Hne].
  - now destruct abs, trail.
  - assert (Hsegs : segs <> []) by (intros E; rewrite E in Hne; now apply Hne).
    pose proof (posix_normalize_of_normal abs trail segs Hsegs Hn Hns) as Hfix.
    destruct abs, trail; cbn [append] in *; rewrite ?append_empty_r in Hfix; exact Hfix.
Qed.

Lemma posix_normalize_absolute (p : string) :
  is_absolute p = true -> is_absolute (posix_normalize p) = true.
Proof.
  intros Hp. unfold posix_normalize. rewrite Hp.
  destruct p as [|c r]; [discriminate|].
  change (String.eqb (String c r) EmptyString) with false. cbn iota.
  destruct (String.eqb (normalizeString (String c r) (negb true)) EmptyString);
    reflexivity.
Qed.

Lemma posix_resolve_absolute (cwd t : string) :
  is_absolute cwd = true -> t <> EmptyString
  -> is_absolute (posix_resolve cwd [t]) = true.
Proof.
  intros Hcwd Ht. unfold posix_resolve. cbn [rev app resolve_loop].
  apply String.eqb_neq in Ht. rewrite Ht.
  destruct (is_absolute t); [reflexivity|].
  destruct cwd as [|c r]; [discriminate|].
  change (String.eqb (String c r) EmptyString) with false. cbn iota.
  rewrite Hcwd. reflexivity.
Qed.

(** *** Characters of a normalized path *)

Lemma string_exists_app (f : ascii -> bool) (a b : string) :
  string_exists f (a ++ b) = string_exists f a || string_exists f b.
Proof.
  induction a as [|c r IH]; cbn [append string_exists]; [reflexivity|].
  now rewrite IH, orb_assoc.
Qed.

Lemma exists_split (f : ascii -> bool) (s : string) :
  f "/"%char = false
  -> existsb (string_exists f) (split_on "/" s) = string_exists f s.
Proof.
  intros Hf. induction s as [|c r IH]; cbn [split_on string_exists]; [reflexivity|].
  destruct (Ascii.eqb_spec c "/") as [->|Hc].
  - cbn [existsb string_exists]. now rewrite IH, Hf.
  - destruct (split_on "/" r) as [|h t]; cbn [existsb string_exists] in *.
    + now rewrite <- IH, !orb_false_r.
    + now rewrite <- IH, orb_assoc.
Qed.

Lemma exists_concat (f : ascii -> bool) (segs : list string) :
  f "/"%char = false
  -> string_exists f (String.concat "/" segs) = existsb (string_exists f) segs.
Proof.
  intros Hf. induction segs as [|x [|y r] IH]; [reflexivity| |].
  - cbn. now rewrite orb_false_r.
  - rewrite concat_cons, !string_exists_app, IH.
    cbn [existsb string_exists]. now rewrite Hf.
Qed.

Lemma existsb_reversed {A : Type} (f : A -> bool) (l : list A) :
  existsb f (rev l) = existsb f l.
Proof.
  induction l as [|a l IH]; [reflexivity|].
  cbn [rev existsb]. rewrite existsb_app, IH. cbn [existsb].
  now rewrite orb_false_r, orb_comm.
Qed.

Lemma exists_normalize (f : ascii -> bool) (allow : bool) (segs acc : list string) :
  string_exists f ".." = false
  -> existsb (string_exists f) acc = false
  -> existsb (string_exists f) segs = false
  -> existsb (string_exists f) (normalize_segments allow acc segs) = false.
Proof.
  intros Hdots. revert acc.
  induction segs as [|s r IH]; intros acc Hacc Hsegs; cbn [normalize_segments].
  - now rewrite existsb_reversed.
  - cbn [existsb] in Hsegs. apply orb_false_iff in Hsegs as [Hs Hr].
    destruct (String.eqb s EmptyString || String.eqb s "."); [now apply IH|].
    destruct (String.eqb s "..").
    + destruct acc as [|top acc'].
      * destruct allow; apply IH; cbn [existsb]; rewrite ?Hdots; auto.
      * cbn [existsb] in Hacc. apply orb_false_iff in Hacc as [Htop Hacc'].
        destruct (String.eqb top "..").
        -- destruct allow; apply IH; cbn [existsb]; rewrite ?Hdots, ?Htop; auto.
        -- now apply IH.
    + apply IH; [|assumption]. cbn [existsb]. now rewrite Hs, Hacc.
Qed.

Lemma concat_snoc (segs : list string) (x : string) :
  segs <> []
  -> String.concat "/" (segs ++ [x])%list = String.concat "/" segs ++ "/" ++ x.
Proof.
  induction segs as [|s [|y r] IH]; intros Hne; [congruence|reflexivity|].
  change ((s :: y :: r) ++ [x])%list with (s :: y :: (r ++ [x])%list).
  rewrite !concat_cons, !append_assoc.
  change (y :: (r ++ [x])%list) with ((y :: r) ++ [x])%list.
  now rewrite IH by discriminate.
Qed.

Lemma trimEnd_keeps (a : string) (x : ascii) :
  is_js_whitespace x = false
  -> trimEnd (a ++ String x EmptyString) = a ++ String x EmptyString.
Proof.
  intros Hx. induction a as [|c r IH]; cbn [append trimEnd].
  - now rewrite Hx.
  - rewrite IH. now destruct (r ++ String x EmptyString) eqn:E; [destruct r; discriminate|].
Qed.

(** A path written as [/] followed by names is what [path.resolve]
    makes of it, whatever the working directory. *)
Lemma posix_resolve_of_normal (cwd : string) (segs : list string) :
  normal false segs = true
  -> Forall (fun s => no_slash s = true) segs
  -> posix_resolve cwd ["/" ++ String.concat "/" segs] = "/" ++ String.concat "/" segs.
Proof.
  intros Hn Hns. destruct segs as [|s r]; [reflexivity|].
  unfold posix_resolve. cbn [rev app resolve_loop append].
  change (String.eqb (String "/" (String.concat "/" (s :: r))) EmptyString) with false.
  cbn iota. unfold is_absolute. cbn [startsWith].
  change (Ascii.eqb "/" "/") with true. cbn [andb negb]. unfold normalizeString.
  replace (String "/" (String.concat "/" (s :: r)) ++ "/" ++ EmptyString)
    with (String "/" (String.concat "/" (s :: r) ++ "/")) by reflexivity.
  cbn [split_on]. change (Ascii.eqb "/" "/") with true. cbn iota.
  rewrite split_on_concat_trailing by (assumption || discriminate).
  cbn [normalize_segments]. change (String.eqb EmptyString EmptyString) with true.
  cbn [orb]. rewrite normalize_segments_skip_last.
  now rewrite normalize_segments_normal.
Qed.

Lemma posix_normalize_root_names (segs : list string) :
  normal false segs = true
  -> Forall (fun s => no_slash s = true) segs
  -> posix_normalize ("/" ++ String.concat "/" segs) = "/" ++ String.concat "/" segs.
Proof.
  intros Hn Hns. destruct segs as [|s r]; [reflexivity|].
  pose proof (posix_normalize_of_normal true false (s :: r) ltac:(discriminate) Hn Hns) as E.
  cbn [append] in E |- *. now rewrite append_empty_r in E.
Qed.

(** What [sanitizePath] returns for an absolute input, with POSIX paths:
    [/] followed by names that hold no dangerous character. *)
Lemma sanitizePath_posix_form (H : host) (cwd inputPath result : string) :
  path H = posix cwd
  -> is_absolute (trim inputPath) = true
  -> sanitizePath H inputPath = inr result
  -> exists segs,
       result = "/" ++ String.concat "/" segs
       /\ normal false segs = true
       /\ Forall (fun s => no_slash s = true) segs
       /\ existsb (string_exists is_dangerous) segs = false.
Proof.
  intros Hposix Habs. unfold sanitizePath. rewrite Hposix.
  cbn [path_normalize path_resolve posix].
  destruct (String.eqb (trim inputPath) EmptyString) eqn:Hne; [discriminate|].
  destruct (startsWith "-" (trim inputPath)); [discriminate|]. cbn [orb].
  destruct (string_exists is_dangerous (trim inputPath)) eqn:Hd; [discriminate|].
  intros [= <-].
  unfold posix_resolve. cbn [rev app resolve_loop]. rewrite Hne, Habs. cbn [negb].
  unfold normalizeString.
  set (segs := normalize_segments false []
                 (split_on "/" (trim inputPath ++ "/" ++ EmptyString))).
  assert (Hn : normal false segs = true)
    by (apply normalize_segments_is_normal; reflexivity).
  assert (Hns : Forall (fun s => no_slash s = true) segs).
  { apply normalize_segments_no_slash; [|constructor]. apply (split_on_no_sep "/"). }
  exists segs. split; [now apply posix_normalize_root_names|].
  split; [assumption|]. split; [assumption|].
  apply exists_normalize; [reflexivity | reflexivity |].
  rewrite exists_split by reflexivity.
  rewrite string_exists_app, Hd. reflexivity.
Qed.

(** [cloneBoilerplate]'s clone destination, with POSIX paths and an
    absolute [tempDir] that the sanitizer accepts: it is the entry
    [create-stb-temp] right under the sanitized [tempDir], and the second
    call of the sanitizer accepts it and returns it unchanged. *)
Theorem cloneBoilerplate_destination :
  forall (H : host) (cwd tempDir safeTempDir : string),
    path H = posix cwd
    -> is_absolute (trim tempDir) = true
    -> sanitizePath H tempDir = inr safeTempDir
    -> path_join (path H) [safeTempDir; "create-stb-temp"]
       = (if String.eqb safeTempDir "/" then "/create-stb-temp"
          else safeTempDir ++ "/create-stb-temp")
       /\ sanitizePath H (path_join (path H) [safeTempDir; "create-stb-temp"])
          = inr (path_join (path H) [safeTempDir; "create-stb-temp"]).
Proof.
  intros H cwd tempDir t Hposix Habs Hsan.
  destruct (sanitizePath_posix_form H cwd tempDir t Hposix Habs Hsan)
    as [segs [-> [Hn [Hns Hd]]]].
  destruct segs as [|s r].
  - unfold sanitizePath. rewrite Hposix. split; reflexivity.
  - set (segs := s :: r) in *.
    set (segs' := (segs ++ ["create-stb-temp"])%list).
    assert (Hn' : normal false segs' = true) by now apply normal_snoc_name.
    assert (Hns' : Forall (fun x => no_slash x = true) segs').
    { apply Forall_app. split; [assumption | now repeat constructor]. }
    assert (Hjoin : path_join (path H) ["/" ++ String.concat "/" segs; "create-stb-temp"]
                    = "/" ++ String.concat "/" segs').
    { rewrite Hposix. cbn [path_join posix]. unfold posix_join. cbn [filter append].
      change (String.eqb (String "/" (String.concat "/" segs)) EmptyString) with false.
      change (String.eqb "create-stb-temp" EmptyString) with false. cbn [negb].
      transitivity (posix_normalize ("/" ++ String.concat "/" segs')).
      - f_equal. unfold segs'. rewrite concat_snoc by discriminate. reflexivity.
      - now apply posix_normalize_root_names. }
    assert (Hbody : String.concat "/" segs <> EmptyString).
    { apply concat_nonempty; [discriminate | now apply (normal_nonempty false)]. }
    rewrite Hjoin. split.
    + replace (String.eqb ("/" ++ String.concat "/" segs) "/") with false.
      * unfold segs'. rewrite concat_snoc by discriminate. now rewrite !append_assoc.
      * symmetry. apply String.eqb_neq. cbn [append]. intros [= E]. now apply Hbody.
    + assert (Htrim : trim ("/" ++ String.concat "/" segs') = "/" ++ String.concat "/" segs').
      { unfold trim. cbn [append trimStart].
        change (is_js_whitespace "/") with false. cbn iota.
        unfold segs'. rewrite concat_snoc by discriminate.
        change "create-stb-temp" with ("create-stb-tem" ++ String "p" EmptyString).
        change (String "/" (String.concat "/" segs ++ "/" ++ "create-stb-tem"
                            ++ String "p" EmptyString))
          with ("/" ++ (String.concat "/" segs ++ "/" ++ "create-stb-tem"
                        ++ String "p" EmptyString)).
        rewrite <- !append_assoc. now apply trimEnd_keeps. }
      unfold sanitizePath. rewrite Htrim, Hposix.
      cbn [path_normalize path_resolve posix append startsWith].
      change (String.eqb (String "/" (String.concat "/" segs')) EmptyString) with false.
      change (Ascii.eqb "-" "/") with false. cbn [andb orb string_exists].
      change (is_dangerous "/") with false. cbn [orb].
      rewrite exists_concat by reflexivity.
      unfold segs'. rewrite existsb_app, Hd. cbn [existsb orb].
      change (string_exists is_dangerous "create-stb-temp") with false. cbn [orb].
      fold segs'.
      change (String "/" (String.concat "/" segs')) with ("/" ++ String.concat "/" segs').
      rewrite (posix_resolve_of_normal cwd segs' Hn' Hns').
      now rewrite posix_normalize_root_names.
Qed.

Lemma cloneBoilerplate_destination_witness :
  path_join (path sample_host) ["/tmp/work"; "create-stb-temp"] = "/tmp/work/create-stb-temp"
  /\ sanitizePath sample_host "/tmp/work/create-stb-temp" = inr "/tmp/work/create-stb-temp".
Proof.
  exact (cloneBoilerplate_destination sample_host "/home/dev" " /tmp/./work/ " "/tmp/work"
           eq_refl eq_refl eq_refl).
Defined.

(** ** C1: [sanitizePath] *)

(** C1 (as amended): for every input, [sanitizePath] throws exactly when
    the trimmed input is empty, begins with a hyphen or holds one of the
    listed characters; in every other case it returns the normalized
    resolution of the TRIMMED input (not of the input as given).  With
    Node's POSIX paths and an absolute working directory, what it returns
    is absolute and in normal form. *)
Theorem sanitizePath_spec : forall (H : host) (inputPath : string),
  ((refused inputPath /\ exists message, sanitizePath H inputPath = inl (Error message))
   \/ (~ refused inputPath
       /\ sanitizePath H inputPath
          = inr (path_normalize (path H) (path_resolve (path H) [trim inputPath]))))
  /\ (forall cwd result,
        path H = posix cwd
        -> is_absolute cwd = true
        -> sanitizePath H inputPath = inr result
        -> is_absolute result = true /\ path_normalize (path H) result = result).
Proof.
  intros H s. split.
  - unfold sanitizePath, refused.
    destruct (String.eqb_spec (trim s) EmptyString) as [He|Hne].
    + left. split; [now left | eauto].
    + destruct (startsWith "-" (trim s)) eqn:Hh; simpl.
      * left. split; [right; left; now apply startsWith_hyphen | eauto].
      * destruct (string_exists is_dangerous (trim s)) eqn:Hd.
        -- left. split; [right; right; now apply dangerous_in_text | eauto].
        -- right. split; [|reflexivity].
           intros [He | [Hs | Hc]].
           ++ contradiction.
           ++ apply startsWith_hyphen in Hs. congruence.
           ++ apply dangerous_in_text in Hc. congruence.
  - intros cwd result Hposix Hcwd. unfold sanitizePath. rewrite Hposix.
    cbn [path_normalize path_resolve posix].
    destruct (String.eqb_spec (trim s) EmptyString) as [He|Hne]; [discriminate|].
    destruct (startsWith "-" (trim s) || string_exists is_dangerous (trim s));
      [discriminate|].
    intros [= <-]. split.
    + apply posix_normalize_absolute. now apply posix_resolve_absolute.
    + apply posix_normalize_idempotent.
Qed.

(** C1, witness: on the sample host a relative input with surrounding
    blanks and [.]/[..] segments comes back absolute and in normal form. *)
Lemma sanitizePath_witness :
  sanitizePath sample_host "  ./a/../b/  " = inr "/home/dev/b"
  /\ is_absolute "/home/dev/b" = true
  /\ path_normalize (path sample_host) "/home/dev/b" = "/home/dev/b".
Proof.
  split; [reflexivity|].
  exact (proj2 (sanitizePath_spec sample_host "  ./a/../b/  ")
           "/home/dev" "/home/dev/b" eq_refl eq_refl eq_refl).
Defined.

(** C1, counterexample to the claim as stated: the input [" a"] is not
    refused, and what [sanitizePath] returns for it, [/home/dev/a], is not
    the normalized resolution of the input, [/home/dev/ a]. *)
Lemma sanitizePath_resolves_the_trimmed_text :
  ~ refused " a"
  /\ sanitizePath sample_host " a" = inr "/home/dev/a"
  /\ path_normalize (path sample_host) (path_resolve (path sample_host) [" a"])
     = "/home/dev/ a"
  /\ sanitizePath sample_host " a"
     <> inr (path_normalize (path sample_host) (path_resolve (path sample_host) [" a"])).
Proof.
  split; [|split; [reflexivity | split; [reflexivity | vm_compute; discriminate]]].
  unfold refused. change (trim " a") with "a".
  intros [E | [[rest E] | [c [Hin Hc]]]]; try discriminate.
  simpl in Hc. destruct Hc as [<- | []].
  simpl in Hin. intuition discriminate.
Qed.
(** ** [sanitizePath], continued *)

Lemma trimStart_head (s : string) :
  trimStart s = EmptyString
  \/ exists c r, trimStart s = String c r /\ is_js_whitespace c = false.
Proof.
  induction s as [|c r IH]; cbn [trimStart]; [now left|].
  destruct (is_js_whitespace c) eqn:Hc; [assumption|].
  right. now exists c, r.
Qed.

Lemma trimEnd_head (c : ascii) (r : string) :
  is_js_whitespace c = false -> exists r', trimEnd (String c r) = String c r'.
Proof.
  intros Hc. cbn [trimEnd]. rewrite Hc.
  destruct (trimEnd r) as [|d r']; eexists; reflexivity.
Qed.

Lemma trimEnd_idempotent (s : string) : trimEnd (trimEnd s) = trimEnd s.
Proof.
  induction s as [|c r IH]; [reflexivity|]. cbn [trimEnd].
  destruct (trimEnd r) as [|d r'] eqn:Hr.
  - destruct (is_js_whitespace c) eqn:Hc; [reflexivity|].
    cbn [trimEnd]. now rewrite Hc.
  - cbn [trimEnd] in *. now rewrite IH.
Qed.

Lemma trim_idempotent (s : string) : trim (trim s) = trim s.
Proof.
  unfold trim. destruct (trimStart_head s) as [E | [c [r [E Hc]]]]; rewrite E.
  - reflexivity.
  - destruct (trimEnd_head c r Hc) as [r' E']. rewrite E'.
    cbn [trimStart]. rewrite Hc, <- E'. apply trimEnd_idempotent.
Qed.

(** The sanitizer reads its argument through [trim] only: white space
    around the path changes neither whether it is accepted nor what is
    returned, and two arguments with the same trimmed text get the same
    answer. *)
Theorem sanitizePath_ignores_surrounding_whitespace :
  forall (H : host) (inputPath : string),
    sanitizePath H (trim inputPath) = sanitizePath H inputPath
    /\ (forall other, trim other = trim inputPath
                      -> sanitizePath H other = sanitizePath H inputPath).
Proof.
  intros H inputPath. split.
  - unfold sanitizePath. now rewrite trim_idempotent.
  - intros other E. unfold sanitizePath. now rewrite E.
Qed.
Lemma startsWith_app (p a b : string) :
  startsWith p a = true -> startsWith p (a ++ b) = true.
Proof.
  revert a. induction p as [|c p IH]; intros a Hp; [reflexivity|].
  destruct a as [|d a]; [discriminate|]. cbn [startsWith append] in *.
  apply andb_true_iff in Hp as [-> Hp]. now rewrite IH.
Qed.

(** The text [path.resolve] hands to [normalizeString] for one argument. *)
Lemma sanitizePath_posix_shape (H : host) (cwd inputPath result : string) :
  path H = posix cwd
  -> is_absolute cwd = true
  -> string_exists is_dangerous cwd = false
  -> sanitizePath H inputPath = inr result
  -> exists segs,
       result = "/" ++ String.concat "/" segs
       /\ normal false segs = true
       /\ Forall (fun s => no_slash s = true) segs
       /\ existsb (string_exists is_dangerous) segs = false.
Proof.
  intros Hposix Hcwd Hclean.
  destruct (is_absolute (trim inputPath)) eqn:Habs;
    [intros Hs; now apply (sanitizePath_posix_form H cwd inputPath)|].
  unfold sanitizePath. rewrite Hposix.
  cbn [path_normalize path_resolve posix].
  destruct (String.eqb (trim inputPath) EmptyString) eqn:Hne; [discriminate|].
  destruct (startsWith "-" (trim inputPath)); [discriminate|]. cbn [orb].
  destruct (string_exists is_dangerous (trim inputPath)) eqn:Hd; [discriminate|].
  intros [= <-].
  unfold posix_resolve. cbn [rev app resolve_loop]. rewrite Hne, Habs.
  destruct cwd as [|c r]; [discriminate|].
  change (String.eqb (String c r) EmptyString) with false. cbn iota.
  rewrite Hcwd. cbn [negb].
  unfold normalizeString.
  set (segs := normalize_segments false [] _).
  assert (Hn : normal false segs = true)
    by (apply normalize_segments_is_normal; reflexivity).
  assert (Hns : Forall (fun s => no_slash s = true) segs).
  { apply normalize_segments_no_slash; [|constructor]. apply (split_on_no_sep "/"). }
  exists segs. split; [now apply posix_normalize_root_names|].
  split; [assumption|]. split; [assumption|].
  apply exists_normalize; [reflexivity | reflexivity |].
  rewrite exists_split by reflexivity.
  rewrite !string_exists_app, Hclean, Hd. reflexivity.
Qed.

Lemma normal_false_names (segs : list string) :
  normal false segs = true -> forallb is_name segs = true.
Proof.
  destruct segs as [|s r]; [reflexivity|]. cbn [normal forallb].
  destruct (String.eqb s ".."); [discriminate|]. now intros ->.
Qed.

(** With Node's POSIX path functions and a working directory that holds
    none of the refused characters, whatever the sanitizer returns is an
    absolute path of entry names (no empty, [.] or [..] segment), holds
    none of the refused characters and does not begin with a hyphen; and
    the sanitizer returns it unchanged when it is given it again, unless
    its last character is white space. *)
Theorem sanitizePath_result_is_safe :
  forall (H : host) (cwd inputPath result : string),
    path H = posix cwd
    -> is_absolute cwd = true
    -> string_exists is_dangerous cwd = false
    -> sanitizePath H inputPath = inr result
    -> string_exists is_dangerous result = false
       /\ startsWith "-" result = false
       /\ (exists segs,
             result = "/" ++ String.concat "/" segs
             /\ forallb is_name segs = true
             /\ Forall (fun s => no_slash s = true) segs)
       /\ (trim result = result -> sanitizePath H result = inr result).
Proof.
  intros H cwd inputPath result Hposix Hcwd Hclean Hsan.
  destruct (sanitizePath_posix_shape H cwd inputPath result Hposix Hcwd Hclean Hsan)
    as [segs [-> [Hn [Hns Hd]]]].
  assert (Hsafe : string_exists is_dangerous ("/" ++ String.concat "/" segs) = false).
  { rewrite string_exists_app, exists_concat, Hd by reflexivity. reflexivity. }
  split; [assumption|]. split; [reflexivity|]. split.
  - exists segs. split; [reflexivity|]. split; [now apply normal_false_names | assumption].
  - intros Ht. unfold sanitizePath. rewrite Ht, Hsafe.
    change (String.eqb ("/" ++ String.concat "/" segs) EmptyString) with false.
    change (startsWith "-" ("/" ++ String.concat "/" segs)) with false.
    cbn [orb]. rewrite Hposix. cbn [path_normalize path_resolve posix].
    rewrite posix_resolve_of_normal, posix_normalize_root_names by assumption.
    reflexivity.
Qed.

(** On the sample host: a relative path with a detour and white space
    around it. *)
Lemma sanitizePath_result_is_safe_witness :
  sanitizePath sample_host "  projects/./demo/../app " = inr "/home/dev/projects/app"
  /\ string_exists is_dangerous "/home/dev/projects/app" = false
  /\ sanitizePath sample_host "/home/dev/projects/app" = inr "/home/dev/projects/app".
Proof.
  assert (E : sanitizePath sample_host "  projects/./demo/../app "
              = inr "/home/dev/projects/app") by reflexivity.
  destruct (sanitizePath_result_is_safe sample_host "/home/dev"
              "  projects/./demo/../app " "/home/dev/projects/app"
              eq_refl eq_refl eq_refl E) as [Hd [_ [_ Hid]]].
  split; [exact E|]. split; [exact Hd|]. apply Hid. reflexivity.
Defined.
(** ** Frames *)

Lemma apart_head (x : string) (p q : fpath) :
  apart (x :: p) q
  -> exists y q', q = y :: q' /\ (y <> x \/ (y = x /\ apart p q')).
Proof.
  intros [H1 H2]. destruct q as [|y q']; [discriminate|].
  exists y, q'. split; [reflexivity|].
  destruct (String.eqb_spec y x) as [->|Hne]; [right | now left].
  split; [reflexivity|]. cbn [is_prefix] in H1, H2.
  rewrite String.eqb_refl in H1, H2. now split.
Qed.

Lemma walk_set_entry (x y : string) (q : fpath) (c : node) (es : list (string * node)) :
  walk (y :: q) (Dir (set_entry x c es))
  = if String.eqb x y then walk q c else walk (y :: q) (Dir es).
Proof.
  cbn [walk]. destruct (String.eqb_spec x y) as [->|Hne].
  - now rewrite assoc_set_entry_same.
  - now rewrite assoc_set_entry_other.
Qed.

Lemma put_file_frame (p q : fpath) (c : string) (n n' : node) :
  put_file p c n = inr n' -> apart p q -> walk q n' = walk q n.
Proof.
  revert q n n'. induction p as [|x p IH]; intros q n n' Hput Hap.
  - destruct Hap as [Hap _]. discriminate.
  - destruct (apart_head x p q Hap) as [y [q' [-> Hy]]].
    destruct n as [c0|es]; [discriminate|]. cbn [put_file] in Hput.
    destruct (assoc x es) as [ch|] eqn:Hx.
    + destruct (put_file p c ch) as [e|ch'] eqn:Hch; [discriminate|].
      injection Hput as <-. rewrite walk_set_entry.
      destruct Hy as [Hne | [-> Hap']].
      * apply not_eq_sym, String.eqb_neq in Hne. now rewrite Hne.
      * rewrite String.eqb_refl. cbn [walk]. rewrite Hx. now apply IH.
    + destruct p as [|z p]; [|discriminate]. injection Hput as <-.
      rewrite walk_set_entry. destruct Hy as [Hne | [-> Hap']].
      * apply not_eq_sym, String.eqb_neq in Hne. now rewrite Hne.
      * destruct Hap' as [Hap' _]. discriminate.
Qed.

Lemma mkdirp_frame (p q : fpath) (n n' : node) :
  mkdirp p n = inr n' -> apart p q -> walk q n' = walk q n.
Proof.
  revert q n n'. induction p as [|x p IH]; intros q n n' Hmk Hap.
  - destruct Hap as [Hap _]. discriminate.
  - destruct (apart_head x p q Hap) as [y [q' [-> Hy]]].
    destruct n as [c0|es]; [discriminate|]. cbn [mkdirp] in Hmk.
    destruct (mkdirp p (match assoc x es with Some c => c | None => Dir [] end))
      as [e|c'] eqn:Hc; [discriminate|].
    injection Hmk as <-. rewrite walk_set_entry.
    destruct Hy as [Hne | [-> Hap']].
    + apply not_eq_sym, String.eqb_neq in Hne. now rewrite Hne.
    + rewrite String.eqb_refl. rewrite (IH _ _ _ Hc Hap'). cbn [walk].
      destruct (assoc x es); [reflexivity|].
      apply walk_empty_dir. now destruct (apart_nonempty _ _ Hap').
Qed.

Lemma writes_under_ret {A : Type} (d : fpath) (a : A) : writes_under d (ret a).
Proof. intros w. now repeat split. Qed.

Lemma writes_under_bind {A B : Type} (d : fpath) (m : M A) (k : A -> M B) :
  writes_under d m -> (forall a, writes_under d (k a)) -> writes_under d (bind m k).
Proof.
  intros Hm Hk w. unfold bind. specialize (Hm w).
  destruct (m w) as [[a|e|s|] w1]; cbn [fst snd] in *; try exact Hm.
  destruct Hm as [Hfs [Ho [He Hs]]]. destruct (Hk a w1) as [Hfs' [Ho' [He' Hs']]].
  repeat split; try congruence.
  intros q Hq. now rewrite Hfs', Hfs.
Qed.

Lemma writes_under_below {A : Type} (d r : fpath) (m : M A) :
  writes_under (d ++ r)%list m -> writes_under d m.
Proof.
  intros Hm w. destruct (Hm w) as [Hfs rest]. split; [|exact rest].
  intros q Hq. apply Hfs. now apply apart_below.
Qed.

Lemma writes_under_for_each {A : Type} (d : fpath) (l : list A) (body : A -> M unit) :
  (forall a, writes_under d (body a)) -> writes_under d (for_each l body).
Proof.
  intros Hb. induction l as [|a l IH]; cbn [for_each].
  - apply writes_under_ret.
  - apply writes_under_bind; [apply Hb | intros _; exact IH].
Qed.

Lemma writes_under_existsSync (d p : fpath) : writes_under d (existsSync p).
Proof. intros w. now repeat split. Qed.

Lemma writes_under_readdirSync (d p : fpath) : writes_under d (readdirSync p).
Proof.
  intros w. unfold readdirSync.
  destruct (walk p (fs w)) as [e|[c|es]]; now repeat split.
Qed.

Lemma writes_under_mkdirSync (d : fpath) : writes_under d (mkdirSync d).
Proof.
  intros w. unfold mkdirSync. destruct (mkdirp d (fs w)) as [e|n] eqn:Hmk.
  - now repeat split.
  - repeat split. intros q Hq. cbn [snd set_fs fs]. now apply (mkdirp_frame d).
Qed.

Lemma writes_under_copyFileSync (src d : fpath) : writes_under d (copyFileSync src d).
Proof.
  intros w. unfold copyFileSync.
  destruct (walk src (fs w)) as [e|[c|es]]; try now repeat split.
  destruct (put_file d c (fs w)) as [e|n] eqn:Hput.
  - now repeat split.
  - repeat split. intros q Hq. cbn [snd set_fs fs]. now apply (put_file_frame d q c).
Qed.

Lemma copyDir_writes_under (fuel : nat) (src dest : fpath) :
  writes_under dest (copyDir fuel src dest).
Proof.
  revert src dest. induction fuel as [|fuel IH]; intros src dest.
  - intros w. now repeat split.
  - rewrite copyDir_unfold.
    apply writes_under_bind; [apply writes_under_existsSync|]. intros present.
    apply writes_under_bind.
    { destruct present; [apply writes_under_ret | apply writes_under_mkdirSync]. }
    intros _. apply writes_under_bind; [apply writes_under_readdirSync|].
    intros entries. apply writes_under_for_each. intros entry.
    apply (writes_under_below dest [name entry]).
    destruct (isDirectory entry); [apply IH | apply writes_under_copyFileSync].
Qed.

(** Whatever [copyDir] meets (a source that is missing or holds a plain
    file where the destination has a directory, a failure half way, the
    recursion budget running out), what it has changed by then lies under
    [dest] or on the way to it: every location apart from [dest] resolves
    as before, and no output is written and no child process started. *)
Theorem copyDir_writes_only_under_dest :
  forall (fuel : nat) (src dest : fpath) (w : world) (q : fpath),
    apart dest q
    -> walk q (fs (snd (copyDir fuel src dest w))) = walk q (fs w)
       /\ stdout (snd (copyDir fuel src dest w)) = stdout w
       /\ stderr (snd (copyDir fuel src dest w)) = stderr w
       /\ spawned (snd (copyDir fuel src dest w)) = spawned w.
Proof.
  intros fuel src dest w q Hq.
  destruct (copyDir_writes_under fuel src dest w) as [Hfs rest].
  split; [now apply Hfs | exact rest].
Qed.

(** The repository's test tree copied onto a plain file that stands
    where a directory is needed: the copy fails, and the sibling of the
    destination is as it was. *)
Lemma copyDir_writes_only_under_dest_witness :
  (exists e,
     fst (copyDir 3 ["test-tmp"; "template"] ["test-tmp"; "target"] blocked_world) = Throw e)
  /\ walk ["test-tmp"; "other"]
       (fs (snd (copyDir 3 ["test-tmp"; "template"] ["test-tmp"; "target"] blocked_world)))
     = inr (File "kept").
Proof.
  split; [eexists; reflexivity|].
  now rewrite (proj1 (copyDir_writes_only_under_dest 3 ["test-tmp"; "template"]
                        ["test-tmp"; "target"] blocked_world ["test-tmp"; "other"]
                        (conj eq_refl eq_refl))).
Defined.
(** ** Edges of [createProjectDirectory] and [copyDir] *)

Lemma mkdirp_blocked (p : fpath) (n : node) :
  walk p n = inl ENOTDIR -> mkdirp p n = inl ENOTDIR.
Proof.
  revert n. induction p as [|x p IH]; intros n Hw; [discriminate|].
  destruct n as [c|es]; [reflexivity|]. cbn [walk mkdirp] in *.
  destruct (assoc x es) as [ch|]; [|discriminate]. now rewrite (IH ch Hw).
Qed.

(** [createProjectDirectory] never changes an entry that exists: the world
    is as it was whenever the path resolves, whatever the outcome.  A plain
    file at the path is not taken for a directory: the listing fails with
    [ENOTDIR].  A plain file on the way to the path makes the creation fail
    with [ENOTDIR], nothing being made. *)
Theorem createProjectDirectory_keeps_what_exists :
  forall (projectPath : fpath) (w : world),
    (forall m, walk projectPath (fs w) = inr m
               -> snd (createProjectDirectory projectPath w) = w)
    /\ (forall c, walk projectPath (fs w) = inr (File c)
                  -> createProjectDirectory projectPath w
                     = (Throw (SystemError ENOTDIR "scandir" projectPath), w))
    /\ (walk projectPath (fs w) = inl ENOTDIR
        -> createProjectDirectory projectPath w
           = (Throw (SystemError ENOTDIR "mkdir" projectPath), w)).
Proof.
  intros p w. unfold createProjectDirectory. run. split; [|split].
  - intros m Hw. repeat (rewrite Hw; run). destruct m as [c|es]; [reflexivity|].
    cbn iota. now destruct (Nat.eqb (List.length (map dirent_of es)) 0).
  - intros c Hw. now repeat (rewrite Hw; run).
  - intros Hw. repeat (rewrite Hw; run). now rewrite mkdirp_blocked.
Qed.

(** [copyDir] makes the destination before it reads the source.  When
    the source cannot be listed (it is missing, or a plain file) and lies
    apart from the destination, the call throws the error of the listing;
    a destination that was missing has been made by then, and stays behind
    as an empty directory; a destination that was there is untouched. *)
Theorem copyDir_unreadable_source :
  forall (fuel : nat) (src dest : fpath) (w : world) (e : errno),
    (walk src (fs w) = inl e
     \/ (exists c, walk src (fs w) = inr (File c)) /\ e = ENOTDIR)
    -> apart dest src
    -> (walk dest (fs w) = inl ENOENT
        -> copyDir (S fuel) src dest w
           = (Throw (SystemError e "scandir" src), set_fs (graft dest (Dir []) (fs w)) w)
           /\ walk dest (graft dest (Dir []) (fs w)) = inr (Dir []))
       /\ (forall m, walk dest (fs w) = inr m
                     -> copyDir (S fuel) src dest w
                        = (Throw (SystemError e "scandir" src), w)).
Proof.
  intros fuel src dest w e Hsrc Hap. rewrite copyDir_unfold. split.
  - intros Hd. run. rewrite Hd. cbn iota. run. rewrite (mkdirp_graft dest _ Hd).
    cbn [fs set_fs]. rewrite (walk_graft_apart dest src) by assumption.
    split; [|apply walk_graft_same; now left].
    destruct Hsrc as [-> | [[c ->] ->]]; reflexivity.
  - intros m Hd. run. rewrite Hd. cbn iota.
    destruct Hsrc as [-> | [[c ->] ->]]; reflexivity.
Qed.

(** A copy from a directory that is not there, into a missing
    destination of the sample world. *)
Lemma copyDir_unreadable_source_witness :
  copyDir 1 ["tmp"; "nothing"] ["home"; "dev"; "demo"] sample_world
  = (Throw (SystemError ENOENT "scandir" ["tmp"; "nothing"]),
     set_fs (graft ["home"; "dev"; "demo"] (Dir []) sample_fs) sample_world)
  /\ walk ["home"; "dev"; "demo"] (graft ["home"; "dev"; "demo"] (Dir []) sample_fs)
     = inr (Dir []).
Proof.
  apply (copyDir_unreadable_source 0 ["tmp"; "nothing"] ["home"; "dev"; "demo"]
           sample_world ENOENT).
  - now left.
  - split; reflexivity.
  - reflexivity.
Defined.
(** ** Child processes, exits and the error stream *)

Lemma orderly_ret {A : Type} (allowed : call -> Prop) (a : A) : orderly allowed (ret a).
Proof.
  intros w. split; [discriminate|]. split; [reflexivity|].
  exists []. now rewrite app_nil_r.
Qed.

Lemma orderly_throw {A : Type} (allowed : call -> Prop) (e : exn) :
  orderly allowed (@throw A e).
Proof.
  intros w. split; [discriminate|]. split; [reflexivity|].
  exists []. now rewrite app_nil_r.
Qed.

Lemma orderly_lift {A : Type} (allowed : call -> Prop) (r : exn + A) :
  orderly allowed (lift r).
Proof. destruct r; [apply orderly_throw | apply orderly_ret]. Qed.

(** A computation that changes nothing but the file system. *)
Lemma orderly_fs_only {A : Type} (allowed : call -> Prop) (m : M A) :
  (forall w, (forall s, fst (m w) <> Exit s)
             /\ exists n, snd (m w) = set_fs n w)
  -> orderly allowed m.
Proof.
  intros Hm w. destruct (Hm w) as [Hx [n E]]. split; [exact Hx|].
  rewrite E. split; [reflexivity|]. exists []. now rewrite app_nil_r.
Qed.

Lemma orderly_bind_value {A B : Type} (allowed : call -> Prop) (m : M A) (k : A -> M B) :
  orderly allowed m
  -> (forall a w w', m w = (Ret a, w') -> orderly allowed (k a))
  -> orderly allowed (bind m k).
Proof.
  intros Hm Hk w. unfold bind. specialize (Hm w). specialize (fun a => Hk a w).
  destruct (m w) as [[a|e|s|] w1]; cbn [fst snd] in *; destruct Hm as [Hx [He Hl]].
  - destruct Hl as [l [Hs Hl]].
    destruct (Hk a w1 eq_refl w1) as [Hx' [He' [l' [Hs' Hl']]]].
    split; [exact Hx'|]. split; [congruence|].
    exists (l ++ l')%list. split; [now rewrite Hs', Hs, app_assoc | now apply Forall_app].
  - split; [discriminate | now split].
  - now destruct (Hx s).
  - split; [discriminate | now split].
Qed.

Lemma orderly_bind {A B : Type} (allowed : call -> Prop) (m : M A) (k : A -> M B) :
  orderly allowed m -> (forall a, orderly allowed (k a)) -> orderly allowed (bind m k).
Proof. intros Hm Hk. apply orderly_bind_value; [exact Hm | intros a _ _ _; apply Hk]. Qed.

Lemma orderly_try_catch {A : Type} (allowed : call -> Prop) (body : M A)
  (handler : exn -> M A) :
  orderly allowed body -> (forall e, orderly allowed (handler e))
  -> orderly allowed (try_catch body handler).
Proof.
  intros Hb Hh w. unfold try_catch. specialize (Hb w).
  destruct (body w) as [[a|e|s|] w1]; cbn [fst snd] in *; try exact Hb.
  destruct Hb as [_ [He [l [Hs Hl]]]].
  destruct (Hh e w1) as [Hx [He' [l' [Hs' Hl']]]].
  split; [exact Hx|]. split; [congruence|].
  exists (l ++ l')%list. split; [now rewrite Hs', Hs, app_assoc | now apply Forall_app].
Qed.

Lemma orderly_for_each {A : Type} (allowed : call -> Prop) (l : list A)
  (body : A -> M unit) :
  (forall a, orderly allowed (body a)) -> orderly allowed (for_each l body).
Proof.
  intros Hb. induction l as [|a l IH]; cbn [for_each].
  - apply orderly_ret.
  - apply orderly_bind; [apply Hb | intros _; exact IH].
Qed.

Lemma orderly_stdout_write (allowed : call -> Prop) (s : string) :
  orderly allowed (stdout_write s).
Proof.
  intros w. split; [discriminate|]. split; [reflexivity|].
  exists []. cbn. now rewrite app_nil_r.
Qed.

Lemma orderly_spawn (H : host) (allowed : call -> Prop) (c : call) :
  allowed c -> orderly allowed (spawn H c).
Proof.
  intros Hc w. unfold spawn. destruct (child_process H c (fs w)) as [[e|] n];
    (split; [discriminate|]; split; [reflexivity|]; exists [c]; split;
     [reflexivity | now constructor]).
Qed.

Ltac fs_only :=
  apply orderly_fs_only; intros w;
  try (split; [intros s; try discriminate | now exists (fs w); rewrite set_fs_same]).

Lemma orderly_existsSync (allowed : call -> Prop) (p : fpath) :
  orderly allowed (existsSync p).
Proof. fs_only. Qed.

Lemma orderly_readdirSync (allowed : call -> Prop) (p : fpath) :
  orderly allowed (readdirSync p).
Proof.
  apply orderly_fs_only; intros w. unfold readdirSync.
  destruct (walk p (fs w)) as [e|[c|es]];
    (split; [discriminate | now exists (fs w); rewrite set_fs_same]).
Qed.

Lemma orderly_readFileSync (allowed : call -> Prop) (p : fpath) :
  orderly allowed (readFileSync p).
Proof.
  apply orderly_fs_only; intros w. unfold readFileSync.
  destruct (walk p (fs w)) as [e|[c|es]];
    (split; [discriminate | now exists (fs w); rewrite set_fs_same]).
Qed.

Lemma orderly_mkdirSync (allowed : call -> Prop) (p : fpath) :
  orderly allowed (mkdirSync p).
Proof.
  apply orderly_fs_only; intros w. unfold mkdirSync.
  destruct (mkdirp p (fs w)) as [e|n];
    (split; [discriminate|]); [now exists (fs w); rewrite set_fs_same | now exists n].
Qed.

Lemma orderly_writeFileSync (allowed : call -> Prop) (p : fpath) (data : string) :
  orderly allowed (writeFileSync p data).
Proof.
  apply orderly_fs_only; intros w. unfold writeFileSync.
  destruct (put_file p data (fs w)) as [e|n];
    (split; [discriminate|]); [now exists (fs w); rewrite set_fs_same | now exists n].
Qed.

Lemma orderly_copyFileSync (allowed : call -> Prop) (src dest : fpath) :
  orderly allowed (copyFileSync src dest).
Proof.
  apply orderly_fs_only; intros w. unfold copyFileSync.
  destruct (walk src (fs w)) as [e|[c|es]];
    try (split; [discriminate | now exists (fs w); rewrite set_fs_same]).
  destruct (put_file dest c (fs w)) as [e|n];
    (split; [discriminate|]); [now exists (fs w); rewrite set_fs_same | now exists n].
Qed.

Lemma orderly_rmSync (H : host) (allowed : call -> Prop) (p : fpath) :
  orderly allowed (rmSync H p).
Proof.
  apply orderly_fs_only; intros w. unfold rmSync.
  destruct (walk p (fs w)) as [[]|m];
    try (split; [discriminate | now exists (fs w); rewrite set_fs_same]).
  destruct (os_refuses_removal H p);
    try (split; [discriminate | now exists (fs w); rewrite set_fs_same]).
  destruct (remove p (fs w)) as [e|n];
    (split; [discriminate|]); [now exists (fs w); rewrite set_fs_same | now exists n].
Qed.

Lemma orderly_copyDir (allowed : call -> Prop) (fuel : nat) (src dest : fpath) :
  orderly allowed (copyDir fuel src dest).
Proof.
  revert src dest. induction fuel as [|fuel IH]; intros src dest.
  - intros w. split; [discriminate|]. split; [reflexivity|].
    exists []. now rewrite app_nil_r.
  - rewrite copyDir_unfold.
    apply orderly_bind; [apply orderly_existsSync|]. intros present.
    apply orderly_bind.
    { destruct present; [apply orderly_ret | apply orderly_mkdirSync]. }
    intros _. apply orderly_bind; [apply orderly_readdirSync|].
    intros entries. apply orderly_for_each. intros entry.
    destruct (isDirectory entry); [apply IH | apply orderly_copyFileSync].
Qed.

Lemma orderly_cleanupTemp (H : host) (allowed : call -> Prop) (p : fpath) :
  orderly allowed (cleanupTemp H p).
Proof.
  apply orderly_bind; [apply orderly_existsSync|].
  intros [|]; [apply orderly_rmSync | apply orderly_ret].
Qed.

Lemma orderly_createProjectDirectory (allowed : call -> Prop) (p : fpath) :
  orderly allowed (createProjectDirectory p).
Proof.
  apply orderly_bind; [apply orderly_existsSync|].
  intros [|]; [|apply orderly_mkdirSync].
  apply orderly_bind; [apply orderly_readdirSync|]. intros entries.
  destruct (Nat.eqb (List.length entries) 0); [apply orderly_ret | apply orderly_throw].
Qed.

Lemma orderly_updatePackageJson (H : host) (allowed : call -> Prop) (p : fpath)
  (projectName : string) :
  orderly allowed (updatePackageJson H p projectName).
Proof.
  apply orderly_bind; [apply orderly_existsSync|].
  intros [|]; cbn [negb]; [|apply orderly_ret].
  apply orderly_bind; [apply orderly_readFileSync|]. intros text.
  apply orderly_bind; [apply orderly_lift|]. intros pkg.
  apply orderly_bind; [apply orderly_lift|]. intros pkg1.
  apply orderly_bind; [apply orderly_lift|]. intros pkg2.
  apply orderly_writeFileSync.
Qed.

Lemma orderly_updateServerlessYml (allowed : call -> Prop) (p : fpath)
  (projectName : string) :
  orderly allowed (updateServerlessYml p projectName).
Proof.
  apply orderly_bind; [apply orderly_existsSync|].
  intros [|]; cbn [negb]; [|apply orderly_ret].
  apply orderly_bind; [apply orderly_readFileSync|]. intros content.
  apply orderly_writeFileSync.
Qed.

Lemma orderly_checkNodeVersion (H : host) (allowed : call -> Prop) (minMajor : Z) :
  orderly allowed (checkNodeVersion H minMajor).
Proof.
  unfold checkNodeVersion.
  destruct (js_lt _ minMajor); [apply orderly_throw | apply orderly_ret].
Qed.

Lemma orderly_checkGitInstalled (H : host) (name : string) :
  orderly (main_call H name) (checkGitInstalled H).
Proof.
  apply orderly_try_catch; [|intros e; apply orderly_throw].
  apply orderly_spawn. constructor.
Qed.

Lemma lift_value {A : Type} (r : exn + A) (a : A) (w w' : world) :
  lift r w = (Ret a, w') -> r = inr a.
Proof. destruct r; unfold lift, ret, throw; congruence. Qed.

Lemma orderly_cloneBoilerplate (H : host) (name tempDir : string) :
  orderly (main_call H name) (cloneBoilerplate H tempDir).
Proof.
  apply orderly_bind; [apply orderly_lift|]. intros safeTempDir.
  apply orderly_bind_value; [apply orderly_lift|]. intros safeClonePath w w' Hsafe.
  apply lift_value in Hsafe.
  apply orderly_bind; [apply orderly_spawn; now apply git_clone_call with (1 := Hsafe)|].
  intros _.
  apply orderly_bind;
    [apply orderly_spawn; now apply git_sparse_checkout_call with (1 := Hsafe)|].
  intros _. apply orderly_ret.
Qed.

Lemma orderly_pipeline (H : host) (fuel : nat) (name tempDir : string) :
  orderly (main_call H name)
    (pipeline H fuel name (path_resolve (path H) [process_cwd H; name]) tempDir).
Proof.
  unfold pipeline, step, doneStep, writeLine, clearLine, console_log.
  repeat first
    [ apply orderly_stdout_write
    | apply orderly_checkNodeVersion
    | apply orderly_checkGitInstalled
    | apply orderly_createProjectDirectory
    | apply orderly_cloneBoilerplate
    | apply orderly_copyDir
    | apply orderly_cleanupTemp
    | apply orderly_updatePackageJson
    | apply orderly_updateServerlessYml
    | apply orderly_spawn; apply npm_install_call
    | apply orderly_bind; [|intros ?] ].
Qed.

Lemma orderly_main (H : host) (fuel : nat) (name : string) :
  name <> EmptyString -> orderly (main_call H name) (main H fuel (Some name)).
Proof.
  intros Hname. destruct name as [|c r]; [congruence|]. cbn [main].
  apply orderly_try_catch; [apply orderly_pipeline|].
  intros e. apply orderly_bind; [apply orderly_cleanupTemp | intros _; apply orderly_throw].
Qed.

(** Given a project name, [main] never calls [process.exit] and writes
    nothing on the error stream, whatever happens; and every child process
    it starts is [git --version], the clone or the sparse checkout (all
    three with an argument vector, the latter two for a destination that
    [sanitizePath] returned), or the fixed command line
    [npm install --silent] run in the project directory.  The project name
    reaches no command line. *)
Theorem main_child_processes :
  forall (H : host) (fuel : nat) (name : string) (w : world),
    name <> EmptyString
    -> (forall s, fst (main H fuel (Some name) w) <> Exit s)
       /\ stderr (snd (main H fuel (Some name) w)) = stderr w
       /\ exists started,
            spawned (snd (main H fuel (Some name) w)) = (spawned w ++ started)%list
            /\ Forall (main_call H name) started
            /\ (forall command cwd stdio,
                  In (ExecShell command cwd stdio) started
                  -> command = "npm install --silent").
Proof.
  intros H fuel name w Hname.
  destruct (orderly_main H fuel name Hname w) as [Hx [He [l [Hs Hl]]]].
  split; [exact Hx|]. split; [exact He|]. exists l. split; [exact Hs|].
  split; [exact Hl|]. intros command cwd stdio Hin.
  rewrite Forall_forall in Hl. specialize (Hl _ Hin).
  inversion Hl; reflexivity.
Qed.

(** On the sample host, for the project [demo]: the four child
    processes of a run that succeeds. *)
Lemma main_child_processes_witness :
  exists started,
    spawned (snd (main sample_host 5 (Some "demo") sample_world)) = started
    /\ Forall (main_call sample_host "demo") started
    /\ List.length started = 4.
Proof.
  destruct (main_child_processes sample_host 5 "demo" sample_world)
    as [_ [_ [started [Hs [Hl _]]]]]; [discriminate|].
  exists started. split; [exact Hs|]. split; [exact Hl|].
  apply (f_equal (@List.length call)) in Hs. vm_compute in Hs. now symmetry.
Defined.
(** ** The script's entry *)

Lemma main_exit_status (H : host) (fuel : nat) (argv2 : option string) (w w' : world)
  (s : Z) :
  main H fuel argv2 w = (Exit s, w')
  -> s = 1%Z /\ (argv2 = None \/ argv2 = Some EmptyString).
Proof.
  intros E. destruct argv2 as [[|c r]|].
  - injection E as <- _. split; [reflexivity | now right].
  - destruct (orderly_main H fuel (String c r) ltac:(discriminate) w) as [Hx _].
    rewrite E in Hx. now destruct (Hx s).
  - injection E as <- _. split; [reflexivity | now left].
Qed.

(** Run as a script, the program never ends on an error that escapes:
    an error thrown by [main] is reported on the error stream (a line that
    ends with "Error: " and the error's message) after the progress line is
    cleared, and the process exits with status 1, the file system and the
    child processes being as [main] left them.  The only exit status the
    script itself ever asks for is 1, and when [main] returns nothing is
    added. *)
Theorem cli_exit_status :
  forall (H : host) (system_message : errno -> string -> fpath -> string)
         (cross_mark : string) (fuel : nat) (argv2 : option string) (w : world),
    (forall e, fst (cli H system_message cross_mark fuel argv2 w) <> Throw e)
    /\ (forall s, fst (cli H system_message cross_mark fuel argv2 w) = Exit s -> s = 1%Z)
    /\ (forall e w1,
          main H fuel argv2 w = (Throw e, w1)
          -> cli H system_message cross_mark fuel argv2 w
             = (Exit 1,
                {| fs := fs w1;
                   stdout := (stdout w1
                              ++ [(carriage_return ++ repeat_string " " (width H)
                                   ++ carriage_return)%string])%list;
                   stderr := (stderr w1
                              ++ [(newline ++ cross_mark ++ " Error: "
                                   ++ message system_message e ++ newline)%string])%list;
                   spawned := spawned w1 |}))
    /\ (forall w1,
          main H fuel argv2 w = (Ret tt, w1)
          -> cli H system_message cross_mark fuel argv2 w = (Ret tt, w1)).
Proof.
  intros H system_message cross_mark fuel argv2 w. unfold cli, try_catch.
  destruct (main H fuel argv2 w) as [[[]|e|s|] w1] eqn:E; cbn [fst].
  - split; [discriminate|]. split; [discriminate|]. split; [discriminate|].
    now intros w2 [= <-].
  - split; [discriminate|]. split; [now intros s [= <-]|]. split; [|discriminate].
    intros e' w2 [= <- <-]. unfold bind, clearLine, stdout_write, console_error, process_exit.
    cbn [fs stdout stderr spawned]. rewrite !append_assoc. reflexivity.
  - split; [discriminate|]. split; [|split; discriminate].
    intros s' [= <-]. now destruct (main_exit_status H fuel argv2 w w1 s E).
  - split; [discriminate|]. split; [discriminate|]. split; discriminate.
Qed.
(** ** Renaming twice *)

Lemma graft_graft (p : fpath) (t t' n : node) :
  graft p t (graft p t' n) = graft p t n.
Proof.
  revert n. induction p as [|x q IH]; intros n; [reflexivity|].
  destruct n as [c|es]; [reflexivity|]. cbn [graft].
  now rewrite assoc_set_entry_same, IH, set_entry_twice.
Qed.

Lemma text_lines_ok (s : string) : lines_ok (text_lines s).
Proof.
  induction s as [|c r IH]; [now split|]. cbn [text_lines].
  destruct (is_line_terminator c) eqn:Hc.
  - destruct (text_lines r) as [|l ls]; [contradiction|].
    split; [reflexivity|]. split; [now exists c | exact IH].
  - destruct (text_lines r) as [|[b t] ls]; [contradiction|].
    destruct IH as [Hb Hr]. split; [|exact Hr].
    cbn [string_exists]. now rewrite Hc.
Qed.

Lemma text_lines_unlines (ls : list (string * string)) :
  lines_ok ls -> text_lines (unlines ls) = ls.
Proof.
  induction ls as [|[b t] r IH]; [contradiction|]. intros [Hb Hr].
  cbn [unlines]. induction b as [|c b IHb].
  - destruct r as [|l r'].
    + subst t. reflexivity.
    + destruct Hr as [[x [Hx ->]] Hr]. cbn [append text_lines]. rewrite Hx.
      now rewrite (IH Hr).
  - cbn [string_exists] in Hb. apply orb_false_iff in Hb as [Hc Hb].
    cbn [append text_lines]. rewrite Hc. now rewrite (IHb Hb).
Qed.

Lemma rewrite_lines_ok (projectName : string) (ls : list (string * string)) :
  string_exists is_line_terminator projectName = false
  -> lines_ok ls -> lines_ok (rewrite_first_service_line projectName ls).
Proof.
  intros Hn. induction ls as [|[b t] r IH]; [contradiction|]. intros [Hb Hr].
  cbn [rewrite_first_service_line]. destruct (startsWith "service:" b).
  - split; [|exact Hr]. now rewrite string_exists_app, Hn.
  - split; [exact Hb|]. destruct r as [|l r']; [exact Hr|].
    destruct Hr as [Ht Hr]. specialize (IH Hr).
    cbn [rewrite_first_service_line] in *. destruct l as [b' t'].
    destruct (startsWith "service:" b'); (split; [exact Ht | exact IH]).
Qed.

Lemma rewrite_rewrite (a b : string) (ls : list (string * string)) :
  rewrite_first_service_line b (rewrite_first_service_line a ls)
  = rewrite_first_service_line b ls.
Proof.
  induction ls as [|[l t] r IH]; [reflexivity|]. cbn [rewrite_first_service_line].
  destruct (startsWith "service:" l) eqn:Hl; cbn [rewrite_first_service_line].
  - reflexivity.
  - now rewrite Hl, IH.
Qed.

Lemma service_line_rewritten_twice (a b content : string) :
  string_exists is_line_terminator a = false
  -> service_line_rewritten b (service_line_rewritten a content)
     = service_line_rewritten b content.
Proof.
  intros Ha. unfold service_line_rewritten.
  rewrite text_lines_unlines by (apply rewrite_lines_ok; [exact Ha | apply text_lines_ok]).
  now rewrite rewrite_rewrite.
Qed.

(** What [updateServerlessYml] does to a file that is there. *)
Lemma updateServerlessYml_file (projectPath : fpath) (projectName content : string)
  (w : world) :
  walk (projectPath ++ ["serverless.yml"])%list (fs w) = inr (File content)
  -> updateServerlessYml projectPath projectName w
     = (Ret tt,
        set_fs (graft (projectPath ++ ["serverless.yml"])%list
                  (File (replace_service ("service: " ++ projectName) content)) (fs w)) w).
Proof.
  intros Hw. unfold updateServerlessYml. run. repeat (rewrite Hw; run).
  now rewrite (put_file_overwrite _ _ content (fs w) Hw).
Qed.

(** Renaming the service twice is renaming it once, to the last name:
    for names without a dollar sign, the first without a line break,
    [updateServerlessYml] with [a] and then with [b] leaves the world that
    [updateServerlessYml] with [b] alone leaves, whatever is at the path.
    With [a = b]: the function is idempotent. *)
Theorem updateServerlessYml_last_name_wins :
  forall (projectPath : fpath) (a b : string) (w : world),
    string_exists is_dollar a = false
    -> string_exists is_line_terminator a = false
    -> string_exists is_dollar b = false
    -> (updateServerlessYml projectPath a ;; updateServerlessYml projectPath b) w
       = updateServerlessYml projectPath b w.
Proof.
  intros p a b w Ha Hlt Hb.
  destruct (walk (p ++ ["serverless.yml"])%list (fs w)) as [e|[content|es]] eqn:Hw.
  - unfold updateServerlessYml. run. now repeat (rewrite Hw; run).
  - unfold bind at 1. rewrite (updateServerlessYml_file p a content w Hw).
    rewrite (updateServerlessYml_file p b content w Hw).
    rewrite (updateServerlessYml_file p b
               (replace_service ("service: " ++ a) content)).
    + cbn [fs set_fs]. rewrite graft_graft, set_fs_set_fs.
      rewrite !replace_service_plain by assumption.
      now rewrite service_line_rewritten_twice.
    + cbn [fs set_fs]. apply walk_graft_same. right. eauto.
  - unfold updateServerlessYml. run. now repeat (rewrite Hw; run).
Qed.

(** The sample project renamed to [first] and then to [second]. *)
Lemma updateServerlessYml_last_name_wins_witness :
  (updateServerlessYml ["home"; "dev"; "demo"] "first" ;;
   updateServerlessYml ["home"; "dev"; "demo"] "second") project_world
  = updateServerlessYml ["home"; "dev"; "demo"] "second" project_world.
Proof.
  apply (updateServerlessYml_last_name_wins ["home"; "dev"; "demo"] "first" "second"
           project_world); reflexivity.
Defined.
Lemma set_entry_present_comm {A : Type} (k k' : string) (v v' : A) (l : list (string * A)) :
  k <> k' -> assoc k l <> None
  -> set_entry k v (set_entry k' v' l) = set_entry k' v' (set_entry k v l).
Proof.
  intros Hne. induction l as [|[x y] r IH]; [now intros []|]. intros Hk.
  cbn [assoc set_entry] in *.
  destruct (String.eqb_spec k x) as [->|Hkx].
  - apply not_eq_sym, String.eqb_neq in Hne. rewrite Hne.
    cbn [set_entry]. now rewrite String.eqb_refl, Hne.
  - destruct (String.eqb_spec k' x) as [->|Hk'x]; cbn [set_entry].
    + apply String.eqb_neq in Hne. rewrite Hne.
      apply String.eqb_neq in Hkx. now rewrite ?String.eqb_refl.
    + apply String.eqb_neq in Hkx, Hk'x. rewrite Hkx, Hk'x. now rewrite IH.
Qed.

Lemma renamed_twice (a b : string) (members : list (string * json)) :
  renamed b (renamed a members) = renamed b members.
Proof.
  unfold renamed.
  rewrite (set_entry_present_comm "name" "description")
    by (try discriminate; now rewrite assoc_set_entry_same).
  now rewrite !set_entry_twice.
Qed.

(** Renaming the package twice is renaming it once, to the last name:
    when the descriptor parses to an object and the parser reads back the
    document that the first call writes, [updatePackageJson] with [a] and
    then with [b] leaves the world that [updatePackageJson] with [b] alone
    leaves.  With [a = b]: the function is idempotent. *)
Theorem updatePackageJson_last_name_wins :
  forall (H : host) (projectPath : fpath) (a b : string) (w : world)
         (text : string) (members : list (string * json)),
    walk (projectPath ++ ["package.json"])%list (fs w) = inr (File text)
    -> JSON_parse H text = inr (JObject members)
    -> JSON_parse H (JSON_stringify (JObject (renamed a members)) 2)
       = inr (JObject (renamed a members))
    -> (updatePackageJson H projectPath a ;; updatePackageJson H projectPath b) w
       = updatePackageJson H projectPath b w.
Proof.
  intros H p a b w text members Hw Hparse Hback.
  unfold bind at 1.
  rewrite (updatePackageJson_object H p a w text members Hw Hparse).
  rewrite (updatePackageJson_object H p b w text members Hw Hparse).
  rewrite (updatePackageJson_object H p b _
             (JSON_stringify (JObject (renamed a members)) 2) (renamed a members)).
  - cbn [fs set_fs]. now rewrite graft_graft, set_fs_set_fs, renamed_twice.
  - cbn [fs set_fs]. apply walk_graft_same. right. eauto.
  - exact Hback.
Qed.

(** The sample project renamed to [demo] and then to [app]. *)
Lemma updatePackageJson_last_name_wins_witness :
  (updatePackageJson sample_host ["home"; "dev"; "demo"] "demo" ;;
   updatePackageJson sample_host ["home"; "dev"; "demo"] "app") project_world
  = updatePackageJson sample_host ["home"; "dev"; "demo"] "app" project_world.
Proof.
  apply (updatePackageJson_last_name_wins sample_host ["home"; "dev"; "demo"] "demo" "app"
           project_world sample_package_json
           [("name", JString "old"); ("description", JString "desc");
            ("version", JString "1.0.0")]); reflexivity.
Defined.

(** ** A descriptor that is no object *)

(** [updatePackageJson] takes whatever the descriptor parses to.  On
    [null] the assignment of [name] throws a [TypeError] and the file is
    untouched.  On an array the assignments add properties that are no
    elements, so the call returns and the file is rewritten as the array it
    held, two spaces deep, with no [name] and no [description] in it. *)
Theorem updatePackageJson_without_an_object :
  forall (H : host) (projectPath : fpath) (projectName : string) (w : world) (text : string),
    walk (projectPath ++ ["package.json"])%list (fs w) = inr (File text)
    -> (JSON_parse H text = inr JNull
        -> updatePackageJson H projectPath projectName w
           = (Throw (TypeError "Cannot set properties of null (setting 'name')"), w))
       /\ (forall items,
             JSON_parse H text = inr (JArray items)
             -> updatePackageJson H projectPath projectName w
                = (Ret tt,
                   set_fs (graft (projectPath ++ ["package.json"])%list
                             (File (JSON_stringify (JArray items) 2)) (fs w)) w)).
Proof.
  intros H p name w text Hw. split.
  - intros Hp. unfold updatePackageJson. run. repeat (rewrite Hw; run).
    now rewrite Hp.
  - intros items Hp. unfold updatePackageJson. run. repeat (rewrite Hw; run).
    rewrite Hp. run. now rewrite (put_file_overwrite _ _ text (fs w) Hw).
Qed.

(** A descriptor that reads [null], and one that holds an array. *)
Lemma updatePackageJson_without_an_object_witness :
  fst (updatePackageJson odd_host ["tmp"] "demo" (descriptor_world "null"))
  = Throw (TypeError "Cannot set properties of null (setting 'name')")
  /\ walk ["tmp"; "package.json"]
       (fs (snd (updatePackageJson odd_host ["tmp"] "demo"
                   (descriptor_world (JSON_stringify (JArray [JString "a"; JBool true]) 2)))))
     = inr (File (JSON_stringify (JArray [JString "a"; JBool true]) 2)).
Proof.
  split.
  - now rewrite (proj1 (updatePackageJson_without_an_object odd_host ["tmp"] "demo"
                          (descriptor_world "null") "null" eq_refl) eq_refl).
  - now rewrite (proj2 (updatePackageJson_without_an_object odd_host ["tmp"] "demo"
                          (descriptor_world (JSON_stringify (JArray [JString "a"; JBool true]) 2))
                          (JSON_stringify (JArray [JString "a"; JBool true]) 2) eq_refl)
                   [JString "a"; JBool true] eq_refl).
Defined.
(** ** [copyDir] onto a directory that holds entries *)

Lemma overlay_dir (ses des : list (string * node)) :
  overlay (Dir ses) (Dir des) = Dir (overlay_entries ses des).
Proof. reflexivity. Qed.

Lemma overlay_entries_app (l1 l2 acc : list (string * node)) :
  overlay_entries (l1 ++ l2)%list acc = overlay_entries l2 (overlay_entries l1 acc).
Proof.
  revert acc. induction l1 as [|e r IH]; intros acc; [reflexivity|].
  cbn [app overlay_entries]. apply IH.
Qed.

Lemma overlay_entries_other (x : string) (l acc : list (string * node)) :
  ~ In x (map fst l) -> assoc x (overlay_entries l acc) = assoc x acc.
Proof.
  revert acc. induction l as [|[y c] r IH]; intros acc Hx; [reflexivity|].
  cbn [overlay_entries fst snd]. cbn [map fst In] in Hx.
  rewrite IH by tauto. apply assoc_set_entry_other. tauto.
Qed.

Lemma overlay_entries_found (x : string) (c : node) (l acc : list (string * node)) :
  NoDup (map fst l) -> In (x, c) l
  -> assoc x (overlay_entries l acc) = Some (overlay c (entry_or_empty x acc)).
Proof.
  revert acc. induction l as [|[y c'] r IH]; intros acc Hnd Hin; [contradiction|].
  cbn [map fst] in Hnd. inversion Hnd as [|? ? Hy Hnd']; subst.
  cbn [overlay_entries fst snd]. destruct Hin as [[= -> ->] | Hin].
  - rewrite overlay_entries_other by exact Hy. apply assoc_set_entry_same.
  - assert (Hne : y <> x).
    { intros ->. apply Hy. now apply (in_map fst) in Hin. }
    rewrite (IH _ Hnd' Hin). unfold entry_or_empty.
    now rewrite assoc_set_entry_other.
Qed.

Lemma assoc_In {A : Type} (x : string) (c : A) (l : list (string * A)) :
  assoc x l = Some c -> In (x, c) l.
Proof.
  induction l as [|[y v] r IH]; [discriminate|]. cbn [assoc].
  destruct (String.eqb_spec x y) as [->|Hne].
  - intros [= ->]. now left.
  - intros Hx. right. now apply IH.
Qed.

Lemma In_assoc {A : Type} (x : string) (c : A) (l : list (string * A)) :
  NoDup (map fst l) -> In (x, c) l -> assoc x l = Some c.
Proof.
  induction l as [|[y v] r IH]; [contradiction|]. cbn [map fst assoc].
  intros Hnd Hin. inversion Hnd as [|? ? Hy Hnd']; subst.
  destruct Hin as [[= -> ->] | Hin].
  - now rewrite String.eqb_refl.
  - destruct (String.eqb_spec x y) as [->|Hne]; [|now apply IH].
    exfalso. apply Hy. now apply (in_map fst) in Hin.
Qed.

Lemma compatible_dir (ses des : list (string * node)) :
  compatible (Dir ses) (Dir des)
  <-> Forall (fun e => match assoc (fst e) des with
                       | Some dc => compatible (snd e) dc
                       | None => True
                       end) ses.
Proof.
  cbn [compatible]. induction ses as [|e r IH].
  - split; [constructor | trivial].
  - split.
    + intros [He Hr]. constructor; [exact He | now apply IH].
    + intros Hall. inversion Hall; subst. split; [assumption | now apply IH].
Qed.

Lemma compatible_empty (t : node) : (exists es, t = Dir es) -> compatible t (Dir []).
Proof.
  intros [es ->]. apply compatible_dir. apply Forall_forall. now intros e _.
Qed.

(** The loop over the entries of [src]: the destination holds [acc], and
    [todo] is still to be copied. *)
Lemma copyDir_onto_loop (k : nat) (src dest : fpath) (w : world) :
  apart src dest
  -> clear dest (fs w)
  -> forall todo acc,
     NoDup (map fst todo)
     -> Forall (fun e => walk (src ++ [fst e])%list (fs w) = inr (snd e)
                         /\ merges (snd e) /\ well_formed (snd e) /\ depth (snd e) < k
                         /\ match assoc (fst e) acc with
                            | Some dc => compatible (snd e) dc
                            | None => True
                            end) todo
     -> for_each (map dirent_of todo) (fun entry =>
          let srcPath := (src ++ [name entry])%list in
          let destPath := (dest ++ [name entry])%list in
          if isDirectory entry
          then copyDir k srcPath destPath
          else copyFileSync srcPath destPath)
          (set_fs (graft dest (Dir acc) (fs w)) w)
        = (Ret tt, set_fs (graft dest (Dir (overlay_entries todo acc)) (fs w)) w).
Proof.
  intros Hap Hcl todo.
  induction todo as [|[x c] rest IH]; intros acc Hnd Hall; [reflexivity|].
  inversion Hall as [|? ? [Hx [Hmerge [Hwf [Hdepth Hcompat]]]] Hall']; subst.
  cbn [map fst] in Hnd. inversion Hnd as [|? ? Hfresh Hnd']; subst.
  cbn [fst snd] in *.
  set (cur := graft dest (Dir acc) (fs w)).
  assert (Hsrc' : walk (src ++ [x])%list cur = inr c).
  { unfold cur. rewrite walk_graft_apart; [exact Hx|].
    apply apart_sym. now apply apart_below. }
  assert (Hdest : walk dest cur = inr (Dir acc)) by now apply walk_graft_same.
  assert (Hkid : walk (dest ++ [x])%list cur
                 = match assoc x acc with Some dc => inr dc | None => inl ENOENT end).
  { rewrite walk_app, Hdest. cbn [walk]. now destruct (assoc x acc). }
  assert (Hrest : Forall (fun e => walk (src ++ [fst e])%list (fs w) = inr (snd e)
                         /\ merges (snd e) /\ well_formed (snd e) /\ depth (snd e) < k
                         /\ match assoc (fst e)
                                    (set_entry x (overlay c (entry_or_empty x acc)) acc) with
                            | Some dc => compatible (snd e) dc
                            | None => True
                            end) rest).
  { rewrite Forall_forall in Hall' |- *. intros e Hin.
    destruct (Hall' e Hin) as [H1 [H2 [H3 [H4 H5]]]].
    repeat (split; [assumption|]).
    rewrite assoc_set_entry_other; [exact H5|].
    intros ->. apply Hfresh. now apply in_map. }
  cbn [for_each map overlay_entries]. unfold bind at 1.
  cbn [dirent_of name isDirectory fst snd].
  destruct c as [ct|ces].
  - unfold copyFileSync. cbn [fs set_fs]. fold cur. rewrite Hsrc'.
    assert (Hput : put_file (dest ++ [x])%list ct cur
                   = inr (graft (dest ++ [x])%list (File ct) cur)).
    { destruct (assoc x acc) as [[c0|des0]|] eqn:Hacc.
      - now apply (put_file_overwrite _ ct c0).
      - contradiction.
      - now apply (put_file_new dest x ct acc). }
    rewrite Hput. unfold cur. rewrite graft_child, set_fs_set_fs.
    cbn [overlay]. now apply IH.
  - rewrite (Hmerge k (src ++ [x])%list (dest ++ [x])%list (set_fs cur w)
               (entry_or_empty x acc)).
    + cbn [fs set_fs]. unfold cur. rewrite graft_child. now apply IH.
    + exact Hdepth.
    + exact Hsrc'.
    + now exists ces.
    + exact Hwf.
    + now apply apart_children.
    + cbn [fs set_fs]. rewrite Hkid. unfold entry_or_empty.
      destruct (assoc x acc); [now left | now right].
    + unfold entry_or_empty. destruct (assoc x acc) as [dc|]; [exact Hcompat|].
      apply compatible_empty. now exists ces.
Qed.

Lemma copyDir_merges (t : node) : merges t.
Proof.
  induction t as [c|es IH] using node_induction;
    intros fuel src dest w d Hfuel Hsrc [es' Hes] Hwf Hap Hdest Hcompat; [discriminate|].
  clear es' Hes. destruct fuel as [|k]; [lia|].
  apply well_formed_dir in Hwf as [Hnd Hwfs].
  assert (Hd : exists des, d = Dir des).
  { destruct d as [c|des]; [contradiction | now exists des]. }
  destruct Hd as [des ->].
  rewrite copyDir_unfold.
  assert (Hcl : clear dest (fs w)).
  { destruct Hdest as [E|[E _]]; [right; eauto | now left]. }
  assert (Hstart :
    (present <- existsSync dest ;; (if present then ret tt else mkdirSync dest)) w
    = (Ret tt, set_fs (graft dest (Dir des) (fs w)) w)).
  { run. destruct Hdest as [E|[E [= ->]]]; rewrite E; run.
    - now rewrite (graft_id _ _ _ E), set_fs_same.
    - now rewrite (mkdirp_graft _ _ E). }
  unfold bind at 1. unfold bind at 1 in Hstart.
  destruct (existsSync dest w) as [[present| | |] w0];
    cbn beta iota in Hstart |- *; try discriminate.
  unfold bind at 1. rewrite Hstart. cbn beta iota.
  unfold bind at 1. unfold readdirSync. cbn [fs set_fs].
  rewrite walk_graft_apart by now apply apart_sym.
  rewrite Hsrc. cbn beta iota. rewrite overlay_dir.
  apply (copyDir_onto_loop k src dest w Hap Hcl es des Hnd).
  apply compatible_dir in Hcompat.
  apply Forall_forall. intros e Hin.
  rewrite Forall_forall in IH, Hwfs, Hcompat.
  split.
  { rewrite walk_app, Hsrc. cbn [walk]. destruct e as [x c]. cbn [fst snd].
    now rewrite (In_assoc x c es Hnd Hin). }
  split; [now apply IH|]. split; [now apply Hwfs|]. split.
  - pose proof (depth_child es e Hin). lia.
  - now apply Hcompat.
Qed.

(** What is where, after an overlay. *)
Lemma overlay_source_wins (s : node) :
  well_formed s
  -> forall d r m,
       walk r s = inr m
       -> match m with
          | File c => walk r (overlay s d) = inr (File c)
          | Dir _ => exists es, walk r (overlay s d) = inr (Dir es)
          end.
Proof.
  induction s as [c|ses IH] using node_induction; intros Hwf d r m Hr.
  - destruct r; [|discriminate]. injection Hr as <-. reflexivity.
  - apply well_formed_dir in Hwf as [Hnd Hwfs].
    destruct r as [|x q].
    + injection Hr as <-. cbn [walk]. eexists. reflexivity.
    + cbn [walk] in Hr. destruct (assoc x ses) as [c|] eqn:Hx; [|discriminate].
      apply assoc_In in Hx.
      rewrite Forall_forall in IH, Hwfs.
      specialize (IH _ Hx (Hwfs _ Hx)). cbn [snd] in IH.
      assert (E : forall des, walk (x :: q) (Dir (overlay_entries ses des))
                              = walk q (overlay c (entry_or_empty x des))).
      { intros des. cbn [walk]. now rewrite (overlay_entries_found x c ses des Hnd Hx). }
      destruct d as [c0|des].
      * change (overlay (Dir ses) (File c0)) with (overlay (Dir ses) (Dir [])).
        rewrite overlay_dir, E. now apply IH.
      * rewrite overlay_dir, E. now apply IH.
Qed.

Lemma overlay_keeps_others (ses des : list (string * node)) (x : string) (r : fpath) :
  assoc x ses = None
  -> walk (x :: r) (overlay (Dir ses) (Dir des)) = walk (x :: r) (Dir des).
Proof.
  intros Hx. rewrite overlay_dir. cbn [walk].
  rewrite overlay_entries_other; [reflexivity|]. now apply assoc_None.
Qed.

(** [copyDir] onto a directory that is there and holds entries.  For a
    well-formed source directory and a destination directory apart from it
    in which no file stands where the source has a directory and no
    directory where the source has a file, [copyDir] returns (with fuel
    above the depth of the source) and merges: every file of the source is
    afterwards at the same relative path under [dest], with the source's
    content, replacing a file of that name; every directory of the source
    is a directory under [dest]; what [dest] held under names that the
    source does not have is kept; and nothing apart from [dest] changes. *)
Theorem copyDir_merges_into_a_populated_directory :
  forall (src dest : fpath) (w : world) (entries held : list (string * node)) (fuel : nat),
    walk src (fs w) = inr (Dir entries)
    -> walk dest (fs w) = inr (Dir held)
    -> well_formed (Dir entries)
    -> compatible (Dir entries) (Dir held)
    -> apart src dest
    -> depth (Dir entries) < fuel
    -> exists n',
         copyDir fuel src dest w = (Ret tt, set_fs n' w)
         /\ (forall r c, walk (src ++ r)%list (fs w) = inr (File c)
                         -> walk (dest ++ r)%list n' = inr (File c))
         /\ (forall r es, walk (src ++ r)%list (fs w) = inr (Dir es)
                          -> exists es', walk (dest ++ r)%list n' = inr (Dir es'))
         /\ (forall x r, assoc x entries = None
                         -> walk (dest ++ x :: r)%list n' = walk (dest ++ x :: r)%list (fs w))
         /\ (forall q, apart dest q -> walk q n' = walk q (fs w)).
Proof.
  intros src dest w es held fuel Hsrc Hdest Hwf Hcompat Hap Hfuel.
  exists (graft dest (overlay (Dir es) (Dir held)) (fs w)).
  assert (Hat : forall q, walk (dest ++ q)%list
                            (graft dest (overlay (Dir es) (Dir held)) (fs w))
                          = walk q (overlay (Dir es) (Dir held))).
  { intros q. rewrite walk_app, walk_graft_same by (right; eauto). reflexivity. }
  split; [|split; [|split; [|split]]].
  - apply copyDir_merges; eauto.
  - intros r c Hr. rewrite walk_app, Hsrc in Hr. rewrite Hat.
    exact (overlay_source_wins (Dir es) Hwf (Dir held) r (File c) Hr).
  - intros r es0 Hr. rewrite walk_app, Hsrc in Hr. rewrite Hat.
    exact (overlay_source_wins (Dir es) Hwf (Dir held) r (Dir es0) Hr).
  - intros x r Hx. rewrite Hat, (walk_app dest), Hdest. now apply overlay_keeps_others.
  - intros q Hq. now apply walk_graft_apart.
Qed.

(** The sample template copied onto a project that already holds a
    descriptor, notes and a source directory: the descriptor is replaced,
    the notes and the local source file are kept, the template's files are
    added. *)
Lemma copyDir_merges_into_a_populated_directory_witness :
  exists n',
    copyDir 5 ["tmp"; "tpl"] ["home"; "dev"; "demo"] populated_world
    = (Ret tt, set_fs n' populated_world)
    /\ walk ["home"; "dev"; "demo"; "package.json"] n' = inr (File sample_package_json)
    /\ walk ["home"; "dev"; "demo"; "src"; "handler.ts"] n'
       = inr (File "export const handler = 1;")
    /\ walk ["home"; "dev"; "demo"; "NOTES.md"] n' = inr (File "mine").
Proof.
  destruct (copyDir_merges_into_a_populated_directory ["tmp"; "tpl"] ["home"; "dev"; "demo"]
              populated_world sample_entries
              [("package.json", File "{}"); ("NOTES.md", File "mine");
               ("src", Dir [("local.ts", File "export {};")])] 5)
    as [n' [E [Hfiles [_ [Hkept _]]]]].
  - reflexivity.
  - reflexivity.
  - apply sample_entries_well_formed.
  - vm_compute. tauto.
  - split; reflexivity.
  - vm_compute. lia.
  - exists n'. split; [exact E|]. split; [|split].
    + exact (Hfiles ["package.json"] sample_package_json eq_refl).
    + exact (Hfiles ["src"; "handler.ts"] "export const handler = 1;" eq_refl).
    + exact (Hkept "NOTES.md" [] eq_refl).
Defined.

Lemma overlay_entries_fixed (l acc : list (string * node)) :
  Forall (fun e => assoc (fst e) acc = Some (overlay (snd e) (entry_or_empty (fst e) acc))) l
  -> overlay_entries l acc = acc.
Proof.
  induction l as [|[x c] r IH]; intros Hall; [reflexivity|].
  inversion Hall as [|? ? Hx Hr]; subst. cbn [fst snd overlay_entries] in *.
  rewrite (set_entry_same _ _ _ Hx). now apply IH.
Qed.

Lemma overlay_twice (s : node) :
  well_formed s -> forall d, overlay s (overlay s d) = overlay s d.
Proof.
  induction s as [c|ses IH] using node_induction; intros Hwf d; [reflexivity|].
  apply well_formed_dir in Hwf as [Hnd Hwfs].
  assert (E : forall des, overlay (Dir ses) (Dir (overlay_entries ses des))
                          = Dir (overlay_entries ses des)).
  { intros des. rewrite overlay_dir. f_equal. apply overlay_entries_fixed.
    apply Forall_forall. intros [x c] Hin. cbn [fst snd].
    rewrite Forall_forall in IH, Hwfs.
    unfold entry_or_empty at 1.
    rewrite (overlay_entries_found x c ses des Hnd Hin).
    now rewrite (IH _ Hin (Hwfs _ Hin)). }
  destruct d as [c0|des].
  - change (overlay (Dir ses) (File c0)) with (overlay (Dir ses) (Dir [])).
    rewrite overlay_dir. apply E.
  - rewrite overlay_dir. apply E.
Qed.

Lemma compatible_file (c : string) (d : node) :
  compatible (File c) d <-> exists c0, d = File c0.
Proof.
  destruct d as [c0|des]; cbn [compatible].
  - split; [now exists c0 | trivial].
  - split; [contradiction | now intros [c0 Hc]].
Qed.

Lemma compatible_overlay (s : node) :
  well_formed s -> forall d, compatible s d -> compatible s (overlay s d).
Proof.
  induction s as [c|ses IH] using node_induction; intros Hwf d Hc.
  - apply compatible_file. now exists c.
  - destruct d as [c0|des]; [contradiction|].
    apply well_formed_dir in Hwf as [Hnd Hwfs].
    rewrite overlay_dir. apply compatible_dir. apply compatible_dir in Hc.
    apply Forall_forall. intros [x c] Hin. cbn [fst snd].
    rewrite Forall_forall in IH, Hwfs, Hc.
    rewrite (overlay_entries_found x c ses des Hnd Hin).
    specialize (Hc _ Hin). cbn [fst snd] in Hc.
    destruct c as [ct|ces]; [exact I|].
    apply (IH _ Hin (Hwfs _ Hin)). unfold entry_or_empty.
    destruct (assoc x des) as [dc|]; [exact Hc|].
    apply compatible_empty. now exists ces.
Qed.

(** Copying twice is copying once: under the conditions in which
    [copyDir] merges the source into the destination (a well-formed source
    directory, a destination directory apart from it, no file standing
    against a directory), a second [copyDir] of the same source onto the
    same destination returns and changes nothing. *)
Theorem copyDir_twice :
  forall (src dest : fpath) (w : world) (entries held : list (string * node)) (fuel : nat),
    walk src (fs w) = inr (Dir entries)
    -> walk dest (fs w) = inr (Dir held)
    -> well_formed (Dir entries)
    -> compatible (Dir entries) (Dir held)
    -> apart src dest
    -> depth (Dir entries) < fuel
    -> (copyDir fuel src dest ;; copyDir fuel src dest) w = copyDir fuel src dest w
       /\ fst (copyDir fuel src dest w) = Ret tt.
Proof.
  intros src dest w es held fuel Hsrc Hdest Hwf Hcompat Hap Hfuel.
  assert (Hfirst : copyDir fuel src dest w
                   = (Ret tt, set_fs (graft dest (overlay (Dir es) (Dir held)) (fs w)) w)).
  { apply copyDir_merges; eauto. }
  split; [|now rewrite Hfirst].
  unfold bind. rewrite Hfirst.
  rewrite (copyDir_merges (Dir es) fuel src dest _ (overlay (Dir es) (Dir held))).
  - cbn [fs set_fs]. now rewrite graft_graft, set_fs_set_fs, overlay_twice.
  - exact Hfuel.
  - cbn [fs set_fs]. rewrite walk_graft_apart by now apply apart_sym. exact Hsrc.
  - eauto.
  - exact Hwf.
  - exact Hap.
  - left. cbn [fs set_fs]. apply walk_graft_same. right. eauto.
  - now apply compatible_overlay.
Qed.

(** The sample template copied twice onto the project that already
    holds entries. *)
Lemma copyDir_twice_witness :
  (copyDir 5 ["tmp"; "tpl"] ["home"; "dev"; "demo"] ;;
   copyDir 5 ["tmp"; "tpl"] ["home"; "dev"; "demo"]) populated_world
  = copyDir 5 ["tmp"; "tpl"] ["home"; "dev"; "demo"] populated_world.
Proof.
  apply (copyDir_twice ["tmp"; "tpl"] ["home"; "dev"; "demo"] populated_world
           sample_entries
           [("package.json", File "{}"); ("NOTES.md", File "mine");
            ("src", Dir [("local.ts", File "export {};")])] 5).
  - reflexivity.
  - reflexivity.
  - apply sample_entries_well_formed.
  - vm_compute. tauto.
  - split; reflexivity.
  - vm_compute. lia.
Defined.
(** ** A run of [main], step by step *)

Lemma returns_bind {A B : Type} (m : M A) (k : A -> M B) (w : world) (a : A) (n : node)
  (l : list call) (b : B) (n2 : node) (l2 : list call) :
  returns m w a n l
  -> (forall w', fs w' = n -> returns (k a) w' b n2 l2)
  -> returns (bind m k) w b n2 (l ++ l2)%list.
Proof.
  intros [w1 [E [Hf [Hs He]]]] Hk.
  destruct (Hk w1 Hf) as [w2 [E2 [Hf2 [Hs2 He2]]]].
  exists w2. unfold bind. rewrite E. split; [exact E2|]. split; [exact Hf2|].
  split; [now rewrite Hs2, Hs, app_assoc | congruence].
Qed.

Lemma throws_bind {A B : Type} (m : M A) (k : A -> M B) (w : world) (a : A) (n : node)
  (l : list call) (e : exn) (n2 : node) (l2 : list call) :
  returns m w a n l
  -> (forall w', fs w' = n -> throws (k a) w' e n2 l2)
  -> throws (bind m k) w e n2 (l ++ l2)%list.
Proof.
  intros [w1 [E [Hf [Hs He]]]] Hk.
  destruct (Hk w1 Hf) as [w2 [E2 [Hf2 [Hs2 He2]]]].
  exists w2. unfold bind. rewrite E. split; [exact E2|]. split; [exact Hf2|].
  split; [now rewrite Hs2, Hs, app_assoc | congruence].
Qed.

Lemma throws_at_once {A B : Type} (m : M A) (k : A -> M B) (w : world) (e : exn)
  (n : node) (l : list call) :
  throws m w e n l -> throws (bind m k) w e n l.
Proof.
  intros [w1 [E rest]]. exists w1. unfold bind. now rewrite E.
Qed.

Lemma returns_stdout_write (s : string) (w : world) :
  returns (stdout_write s) w tt (fs w) [].
Proof.
  eexists. split; [reflexivity|]. cbn [fs spawned stderr]. now rewrite app_nil_r.
Qed.

(** A write on the output stream before [k]. *)
Lemma returns_after_write {B : Type} (s : string) (k : M B) (w : world) (b : B)
  (n : node) (l : list call) :
  (forall w', fs w' = fs w -> returns k w' b n l)
  -> returns (stdout_write s ;; k) w b n l.
Proof.
  intros Hk. apply (returns_bind _ _ w tt (fs w) []); [apply returns_stdout_write|].
  exact Hk.
Qed.

Lemma throws_after_write {B : Type} (s : string) (k : M B) (w : world) (e : exn)
  (n : node) (l : list call) :
  (forall w', fs w' = fs w -> throws k w' e n l)
  -> throws (stdout_write s ;; k) w e n l.
Proof.
  intros Hk. apply (throws_bind _ _ w tt (fs w) []); [apply returns_stdout_write|].
  exact Hk.
Qed.

Lemma returns_fs_only {A : Type} (m : M A) (w : world) (a : A) (n : node) :
  m w = (Ret a, set_fs n w) -> returns m w a n [].
Proof.
  intros E. exists (set_fs n w). split; [exact E|]. cbn [fs set_fs spawned stderr].
  now rewrite app_nil_r.
Qed.

Lemma returns_unchanged {A : Type} (m : M A) (w : world) (a : A) :
  m w = (Ret a, w) -> returns m w a (fs w) [].
Proof. intros E. apply returns_fs_only. now rewrite set_fs_same. Qed.

Lemma checkNodeVersion_passes (H : host) (minMajor : Z) (major : N) (rest : string)
  (w : world) :
  process_version H = "v" ++ show_N major ++ "." ++ rest
  -> (minMajor <= Z.of_N major)%Z
  -> checkNodeVersion H minMajor w = (Ret tt, w).
Proof.
  intros Hv Hge. unfold checkNodeVersion. rewrite Hv.
  change ("v" ++ show_N major ++ "." ++ rest)
    with (String "v" (show_N major ++ String "." rest)).
  rewrite replace_leading_v, split_on_dot by apply show_N_digits.
  cbn [hd]. rewrite Number_show_N. cbn [js_lt].
  apply Z.ltb_ge in Hge. now rewrite Hge.
Qed.

Lemma checkNodeVersion_refuses (H : host) (minMajor : Z) (major : N) (rest : string)
  (w : world) :
  process_version H = "v" ++ show_N major ++ "." ++ rest
  -> (Z.of_N major < minMajor)%Z
  -> checkNodeVersion H minMajor w
     = (Throw (Error ("Node.js v" ++ show_Z minMajor ++ "+ required")), w).
Proof.
  intros Hv Hlt. unfold checkNodeVersion. rewrite Hv.
  change ("v" ++ show_N major ++ "." ++ rest)
    with (String "v" (show_N major ++ String "." rest)).
  rewrite replace_leading_v, split_on_dot by apply show_N_digits.
  cbn [hd]. rewrite Number_show_N. cbn [js_lt].
  apply Z.ltb_lt in Hlt. now rewrite Hlt.
Qed.

Lemma returns_checkGitInstalled (H : host) (w : world) (n : node) :
  child_process H git_version (fs w) = (None, n)
  -> returns (checkGitInstalled H) w tt n [git_version].
Proof.
  intros Hc. unfold returns, checkGitInstalled. run. unfold git_version in Hc. rewrite Hc.
  eexists. split; [reflexivity|]. now cbn [fs spawned stderr].
Qed.

Lemma createProjectDirectory_grafts (p : fpath) (w : world) :
  walk p (fs w) = inl ENOENT \/ walk p (fs w) = inr (Dir [])
  -> createProjectDirectory p w = (Ret tt, set_fs (graft p (Dir []) (fs w)) w).
Proof.
  intros [Hw | Hw]; unfold createProjectDirectory; run; repeat (rewrite Hw; run).
  - now rewrite (mkdirp_graft p _ Hw).
  - cbn. now rewrite (graft_id _ _ _ Hw), set_fs_same.
Qed.

Lemma returns_cloneBoilerplate (H : host) (tempDir safeTempDir safeClonePath : string)
  (w : world) (n2 n3 : node) :
  sanitizePath H tempDir = inr safeTempDir
  -> sanitizePath H (path_join (path H) [safeTempDir; "create-stb-temp"]) = inr safeClonePath
  -> child_process H (clone_call safeClonePath) (fs w) = (None, n2)
  -> child_process H (sparse_checkout_call safeClonePath) n2 = (None, n3)
  -> returns (cloneBoilerplate H tempDir) w
       (path_join (path H) [safeClonePath; "serverless"]) n3
       [clone_call safeClonePath; sparse_checkout_call safeClonePath].
Proof.
  intros H1 H2 Hc Hs. unfold returns, cloneBoilerplate. rewrite H1. run. rewrite H2. run.
  unfold clone_call in Hc. rewrite Hc. cbn [fs].
  unfold sparse_checkout_call in Hs. rewrite Hs.
  eexists. split; [reflexivity|]. cbn [fs spawned stderr].
  now rewrite <- app_assoc.
Qed.

Lemma cleanupTemp_gone (H : host) (p : fpath) (n : node) :
  p <> [] -> os_refuses_removal H p = None
  -> exists n',
       (forall w, fs w = n -> cleanupTemp H p w = (Ret tt, set_fs n' w))
       /\ (forall m, walk p n' <> inr m)
       /\ (forall q, apart p q -> walk q n' = walk q n).
Proof.
  intros Hp Hos. destruct (walk p n) as [e|m] eqn:Hw.
  - exists n. split; [|split].
    + intros w Hfs. rewrite cleanupTemp_missing.
      * now rewrite <- Hfs, set_fs_same.
      * rewrite Hfs. intros m. congruence.
    + intros m. congruence.
    + reflexivity.
  - destruct (remove_existing p n m Hp Hw) as [n' [Hrm Hgone]].
    exists n'. split; [|split].
    + intros w Hfs. unfold cleanupTemp. run. rewrite Hfs, Hw. run.
      now rewrite Hfs, Hw, Hos, Hrm.
    + intros m'. congruence.
    + intros q Hq. now apply (walk_remove_apart p q n n').
Qed.

Lemma returns_execSync (H : host) (command : string) (cwd : option string)
  (stdio : string) (w : world) :
  fst (child_process H (ExecShell command cwd stdio) (fs w)) = None
  -> returns (execSync H command cwd stdio) w tt
       (snd (child_process H (ExecShell command cwd stdio) (fs w)))
       [ExecShell command cwd stdio].
Proof.
  intros Hc. unfold returns, execSync, spawn.
  destruct (child_process H (ExecShell command cwd stdio) (fs w)) as [r n].
  cbn [fst snd] in *. subst r. eexists. split; [reflexivity|]. now cbn [fs spawned stderr].
Qed.

Lemma is_prefix_cancel (p a b : fpath) :
  is_prefix (p ++ a)%list (p ++ b)%list = is_prefix a b.
Proof.
  induction p as [|x p IH]; [reflexivity|]. cbn [app is_prefix].
  now rewrite String.eqb_refl, IH.
Qed.

Lemma apart_siblings (p : fpath) (x y : string) (r : fpath) :
  x <> y -> apart (p ++ [y])%list (p ++ x :: r)%list.
Proof.
  intros Hne. split; rewrite is_prefix_cancel; cbn [is_prefix].
  - apply not_eq_sym, String.eqb_neq in Hne. now rewrite Hne.
  - apply String.eqb_neq in Hne. now rewrite Hne.
Qed.

Lemma main_returns (H : host) (fuel : nat) (name : string) (w : world) (n : node)
  (l : list call) :
  name <> EmptyString
  -> returns (pipeline H fuel name
                (path_resolve (path H) [process_cwd H; name])
                (path_join (path H) [os_tmpdir H; "create-stb-" ++ show_N (Date_now H)]))
       w tt n l
  -> returns (main H fuel (Some name)) w tt n l.
Proof.
  intros Hname [w' [E rest]]. destruct name as [|c r]; [congruence|].
  exists w'. cbn [main]. unfold try_catch. now rewrite E.
Qed.

Lemma ends_bind {A B : Type} (m : M A) (k : A -> M B) (w : world) (a : A) (n : node)
  (l : list call) (o : outcome B) (n2 : node) (l2 : list call) :
  returns m w a n l
  -> (forall w', fs w' = n -> ends (k a) w' o n2 l2)
  -> ends (bind m k) w o n2 (l ++ l2)%list.
Proof.
  intros [w1 [E [Hf [Hs He]]]] Hk.
  destruct (Hk w1 Hf) as [w2 [E2 [Hf2 [Hs2 He2]]]].
  exists w2. unfold bind. rewrite E. split; [exact E2|]. split; [exact Hf2|].
  split; [now rewrite Hs2, Hs, app_assoc | congruence].
Qed.

Lemma ends_after_write {B : Type} (s : string) (k : M B) (w : world) (o : outcome B)
  (n : node) (l : list call) :
  (forall w', fs w' = fs w -> ends k w' o n l)
  -> ends (stdout_write s ;; k) w o n l.
Proof.
  intros Hk. apply (ends_bind _ _ w tt (fs w) []); [apply returns_stdout_write|].
  exact Hk.
Qed.

(** The steps of [main] up to the install, when none of them fails: the
    install and what follows it run on the file system [n'], in which the
    project directory holds the template, renamed, and the temporary
    directory is gone. *)
Lemma pipeline_reaches_the_install
  (H : host) (fuel : nat) (name : string) (w : world)
  (major : N) (rest safeTempDir safeClonePath : string) (n2 n3 : node)
  (entries : list (string * node)) (text yml : string) (members : list (string * json)) :
  let projectPath := path_resolve (path H) [process_cwd H; name] in
  let tempDir :=
    path_join (path H) [os_tmpdir H; "create-stb-" ++ show_N (Date_now H)] in
  let project := locate H projectPath in
  let temp := locate H tempDir in
  let template := locate H (path_join (path H) [safeClonePath; "serverless"]) in
  process_version H = "v" ++ show_N major ++ "." ++ rest
  -> (20 <= Z.of_N major)%Z
  -> child_process H git_version (fs w) = (None, fs w)
  -> (walk project (fs w) = inl ENOENT \/ walk project (fs w) = inr (Dir []))
  -> sanitizePath H tempDir = inr safeTempDir
  -> sanitizePath H (path_join (path H) [safeTempDir; "create-stb-temp"])
     = inr safeClonePath
  -> child_process H (clone_call safeClonePath) (graft project (Dir []) (fs w))
     = (None, n2)
  -> child_process H (sparse_checkout_call safeClonePath) n2 = (None, n3)
  -> walk template n3 = inr (Dir entries)
  -> well_formed (Dir entries)
  -> depth (Dir entries) < fuel
  -> walk project n3 = inr (Dir [])
  -> apart template project
  -> apart temp project
  -> temp <> []
  -> os_refuses_removal H temp = None
  -> assoc "package.json" entries = Some (File text)
  -> JSON_parse H text = inr (JObject members)
  -> assoc "serverless.yml" entries = Some (File yml)
  -> exists n',
       walk (project ++ ["package.json"])%list n'
       = inr (File (JSON_stringify (JObject (renamed name members)) 2))
       /\ walk (project ++ ["serverless.yml"])%list n'
          = inr (File (replace_service ("service: " ++ name) yml))
       /\ (forall x r, x <> "package.json" -> x <> "serverless.yml"
                       -> walk (project ++ x :: r)%list n'
                          = walk (template ++ x :: r)%list n3)
       /\ (forall m, walk temp n' <> inr m)
       /\ forall (o : outcome unit) (n'' : node) (l : list call),
            (forall w', fs w' = n'
                        -> ends (execSync H "npm install --silent" (Some projectPath)
                                   "inherit" ;;
                                 doneStep H ;;
                                 clearLine H ;;
                                 console_log
                                   (newline ++ "Installation complete!" ++ newline ++ newline
                                    ++ "Next steps:" ++ newline ++ newline
                                    ++ "  cd " ++ name ++ newline
                                    ++ "  npm run offline" ++ newline))
                             w' o n'' l)
            -> ends (pipeline H fuel name projectPath tempDir) w o n''
                 ([git_version; clone_call safeClonePath;
                   sparse_checkout_call safeClonePath] ++ l)%list.
Proof.
  intros projectPath tempDir project temp template
         Hversion Hmajor Hgit Hproject Hsafe1 Hsafe2 Hclone Hsparse Htemplate Hwf Hfuel
         Hempty Hsrc Htemp Hroot Hos Hpkg Hparse Hyml.
  set (n4 := graft project (Dir entries) n3).
  assert (Hinside : forall q, walk (project ++ q)%list n4 = walk (template ++ q)%list n3).
  { intros q. unfold n4. rewrite !walk_app, Htemplate.
    rewrite walk_graft_same by (right; eauto). reflexivity. }
  destruct (cleanupTemp_gone H temp n4 Hroot Hos) as [n5 [Hclean [Hgone Hframe5]]].
  set (file1 := (project ++ ["package.json"])%list).
  set (file2 := (project ++ ["serverless.yml"])%list).
  set (n6 := graft file1 (File (JSON_stringify (JObject (renamed name members)) 2)) n5).
  set (n7 := graft file2 (File (replace_service ("service: " ++ name) yml)) n6).
  assert (Hfile1 : walk file1 n5 = inr (File text)).
  { unfold file1. rewrite Hframe5 by (apply apart_sym, apart_below, apart_sym; exact Htemp).
    rewrite Hinside, walk_app, Htemplate. cbn [walk]. now rewrite Hpkg. }
  assert (Hfile2 : walk file2 n6 = inr (File yml)).
  { unfold n6, file1, file2. rewrite walk_graft_apart by (apply apart_siblings; discriminate).
    rewrite Hframe5 by (apply apart_sym, apart_below, apart_sym; exact Htemp).
    rewrite Hinside, walk_app, Htemplate. cbn [walk]. now rewrite Hyml. }
  exists n7. split; [|split; [|split; [|split]]].
  - unfold n7. rewrite walk_graft_apart by (apply apart_siblings; discriminate).
    unfold n6. apply walk_graft_same. right. eauto.
  - unfold n7. apply walk_graft_same. right. eauto.
  - intros x r Hx1 Hx2. unfold n7, n6, file1, file2.
    rewrite !walk_graft_apart by now apply apart_siblings.
    rewrite Hframe5 by (apply apart_sym, apart_below, apart_sym; exact Htemp).
    apply Hinside.
  - intros m. unfold n7, n6, file1, file2.
    rewrite !walk_graft_apart by (apply apart_below, apart_sym; exact Htemp).
    apply Hgone.
  - intros o n'' l Htail.
    unfold pipeline, step, doneStep, writeLine, clearLine, console_log in *.
    fold projectPath tempDir. fold project temp.
    apply ends_after_write. intros w0 Hw0.
    apply (ends_bind _ _ w0 tt (fs w) []).
    { rewrite <- Hw0. apply returns_unchanged.
      now apply (checkNodeVersion_passes H 20 major rest). }
    intros w1 Hw1. apply ends_after_write. intros w1' Hw1'.
    apply ends_after_write. intros w1'' Hw1''.
    apply (ends_bind _ _ w1'' tt (fs w) [git_version]).
    { apply returns_checkGitInstalled. now rewrite Hw1'', Hw1', Hw1. }
    intros w2 Hw2. apply ends_after_write. intros w2' Hw2'.
    apply ends_after_write. intros w2'' Hw2''.
    apply (ends_bind _ _ w2'' tt (graft project (Dir []) (fs w)) []).
    { apply returns_fs_only. rewrite createProjectDirectory_grafts;
        rewrite Hw2'', Hw2', Hw2; [reflexivity | exact Hproject]. }
    intros w3 Hw3. apply ends_after_write. intros w3' Hw3'.
    apply ends_after_write. intros w3'' Hw3''.
    apply (ends_bind _ _ w3'' (path_join (path H) [safeClonePath; "serverless"]) n3
             [clone_call safeClonePath; sparse_checkout_call safeClonePath]).
    { apply (returns_cloneBoilerplate H tempDir safeTempDir safeClonePath w3'' n2 n3);
        try assumption. now rewrite Hw3'', Hw3', Hw3. }
    intros w4 Hw4. apply ends_after_write. intros w4' Hw4'.
    apply ends_after_write. intros w4'' Hw4''.
    fold template.
    assert (Hfs4 : fs w4'' = n3) by now rewrite Hw4'', Hw4'.
    apply (ends_bind _ _ w4'' tt n4 []).
    { apply returns_fs_only. rewrite (copyDir_grafts (Dir entries)); rewrite ?Hfs4;
        try assumption; [reflexivity | eauto | now right]. }
    intros w5 Hw5. apply ends_after_write. intros w5' Hw5'.
    apply ends_after_write. intros w5'' Hw5''.
    apply (ends_bind _ _ w5'' tt n5 []).
    { apply returns_fs_only. apply Hclean. now rewrite Hw5'', Hw5'. }
    intros w6 Hw6. apply ends_after_write. intros w6' Hw6'.
    apply ends_after_write. intros w6'' Hw6''.
    assert (Hfs6 : fs w6'' = n5) by now rewrite Hw6'', Hw6'.
    apply (ends_bind _ _ w6'' tt n6 []).
    { apply returns_fs_only.
      rewrite (updatePackageJson_object H project name w6'' text members);
        rewrite ?Hfs6; [reflexivity | exact Hfile1 | exact Hparse]. }
    intros w7 Hw7. apply ends_after_write. intros w7' Hw7'.
    apply ends_after_write. intros w7'' Hw7''.
    assert (Hfs7 : fs w7'' = n6) by now rewrite Hw7'', Hw7'.
    apply (ends_bind _ _ w7'' tt n7 []).
    { apply returns_fs_only.
      rewrite (updateServerlessYml_file project name yml w7''); rewrite ?Hfs7;
        [reflexivity | exact Hfile2]. }
    intros w8 Hw8. apply ends_after_write. intros w8' Hw8'.
    apply ends_after_write. intros w8'' Hw8''.
    apply Htail. now rewrite Hw8'', Hw8'.
Qed.

(** A run of [main] in which nothing fails.  The runtime is recent
    enough; [git --version] succeeds and leaves the file system alone; the
    project directory is missing or empty; the sanitizer accepts the
    temporary directory and the clone destination; the clone and the sparse
    checkout succeed, leave a well-formed template directory (with a
    [package.json] that parses to an object, and a [serverless.yml]) at
    [<clone destination>/serverless], and leave the project directory
    empty; the template and the temporary directory lie apart from the
    project directory; the operating system lets the temporary directory
    go; the install succeeds.  Then [main] returns, having started exactly
    [git --version], the clone, the sparse checkout and the install, in
    that order, with nothing on the error stream; the install ran on a file
    system in which the project directory holds the template entry for
    entry, but for [package.json], which is the descriptor renamed, and
    [serverless.yml], whose service line is rewritten; and the temporary
    directory is gone. *)
Theorem main_scaffolds_the_project :
  forall (H : host) (fuel : nat) (name : string) (w : world)
         (major : N) (rest safeTempDir safeClonePath : string) (n2 n3 : node)
         (entries : list (string * node)) (text yml : string)
         (members : list (string * json)),
    let projectPath := path_resolve (path H) [process_cwd H; name] in
    let tempDir :=
      path_join (path H) [os_tmpdir H; "create-stb-" ++ show_N (Date_now H)] in
    let project := locate H projectPath in
    let temp := locate H tempDir in
    let template := locate H (path_join (path H) [safeClonePath; "serverless"]) in
    name <> EmptyString
    -> process_version H = "v" ++ show_N major ++ "." ++ rest
    -> (20 <= Z.of_N major)%Z
    -> child_process H git_version (fs w) = (None, fs w)
    -> (walk project (fs w) = inl ENOENT \/ walk project (fs w) = inr (Dir []))
    -> sanitizePath H tempDir = inr safeTempDir
    -> sanitizePath H (path_join (path H) [safeTempDir; "create-stb-temp"])
       = inr safeClonePath
    -> child_process H (clone_call safeClonePath) (graft project (Dir []) (fs w))
       = (None, n2)
    -> child_process H (sparse_checkout_call safeClonePath) n2 = (None, n3)
    -> walk template n3 = inr (Dir entries)
    -> well_formed (Dir entries)
    -> depth (Dir entries) < fuel
    -> walk project n3 = inr (Dir [])
    -> apart template project
    -> apart temp project
    -> temp <> []
    -> os_refuses_removal H temp = None
    -> assoc "package.json" entries = Some (File text)
    -> JSON_parse H text = inr (JObject members)
    -> assoc "serverless.yml" entries = Some (File yml)
    -> (forall n, fst (child_process H (npm_install projectPath) n) = None)
    -> exists n' w',
         main H fuel (Some name) w = (Ret tt, w')
         /\ fs w' = snd (child_process H (npm_install projectPath) n')
         /\ spawned w'
            = (spawned w ++ [git_version; clone_call safeClonePath;
                             sparse_checkout_call safeClonePath;
                             npm_install projectPath])%list
         /\ stderr w' = stderr w
         /\ walk (project ++ ["package.json"])%list n'
            = inr (File (JSON_stringify (JObject (renamed name members)) 2))
         /\ walk (project ++ ["serverless.yml"])%list n'
            = inr (File (replace_service ("service: " ++ name) yml))
         /\ (forall x r, x <> "package.json" -> x <> "serverless.yml"
                         -> walk (project ++ x :: r)%list n'
                            = walk (template ++ x :: r)%list n3)
         /\ (forall m, walk temp n' <> inr m).
Proof.
  intros H fuel name w major rest safeTempDir safeClonePath n2 n3 entries text yml members
         projectPath tempDir project temp template
         Hname Hversion Hmajor Hgit Hproject Hsafe1 Hsafe2 Hclone Hsparse Htemplate Hwf Hfuel
         Hempty Hsrc Htemp Hroot Hos Hpkg Hparse Hyml Hnpm.
  destruct (pipeline_reaches_the_install H fuel name w major rest safeTempDir safeClonePath
              n2 n3 entries text yml members
              Hversion Hmajor Hgit Hproject Hsafe1 Hsafe2 Hclone Hsparse Htemplate Hwf Hfuel
              Hempty Hsrc Htemp Hroot Hos Hpkg Hparse Hyml)
    as [n' [Hp [Hy [Hrest [Hgone Hrun]]]]].
  destruct (main_returns H fuel name w
              (snd (child_process H (npm_install projectPath) n'))
              [git_version; clone_call safeClonePath;
               sparse_checkout_call safeClonePath; npm_install projectPath] Hname)
    as [w' [E [Hfs [Hspawned Hstderr]]]].
  { apply (Hrun (Ret tt) _ [npm_install projectPath]). intros w8 Hw8.
    unfold doneStep, clearLine, console_log.
    apply (returns_bind _ _ w8 tt (snd (child_process H (npm_install projectPath) n'))
             [npm_install projectPath] tt _ []).
    { rewrite <- Hw8. apply returns_execSync. apply Hnpm. }
    intros w9 Hw9. apply returns_after_write. intros w9' Hw9'.
    apply returns_after_write. intros w9'' Hw9''.
    rewrite <- Hw9, <- Hw9', <- Hw9''. apply returns_stdout_write. }
  exists n', w'. repeat (split; [assumption|]). assumption.
Qed.

(** On the sample host, for the project [demo]. *)
Lemma main_scaffolds_the_project_witness :
  exists n' w',
    main sample_host 5 (Some "demo") sample_world = (Ret tt, w')
    /\ spawned w'
       = [git_version;
          clone_call "/tmp/create-stb-1700000000000/create-stb-temp";
          sparse_checkout_call "/tmp/create-stb-1700000000000/create-stb-temp";
          npm_install "/home/dev/demo"]
    /\ walk ["home"; "dev"; "demo"; "package.json"] n'
       = inr (File (JSON_stringify
                      (JObject [("name", JString "demo");
                                ("description", JString "demo app description");
                                ("version", JString "1.0.0")]) 2))
    /\ walk ["home"; "dev"; "demo"; "serverless.yml"] n'
       = inr (File ("service: demo" ++ newline ++ "provider:" ++ newline
                    ++ "  name: aws" ++ newline))
    /\ walk ["home"; "dev"; "demo"; "src"; "handler.ts"] n'
       = inr (File "export const handler = 1;")
    /\ (forall m, walk ["tmp"; "create-stb-1700000000000"] n' <> inr m).
Proof.
  destruct (main_scaffolds_the_project sample_host 5 "demo" sample_world 20 "11.0"
              "/tmp/create-stb-1700000000000"
              "/tmp/create-stb-1700000000000/create-stb-temp"
              (snd (child_process sample_host
                      (clone_call "/tmp/create-stb-1700000000000/create-stb-temp")
                      (graft ["home"; "dev"; "demo"] (Dir []) sample_fs)))
              (snd (child_process sample_host
                      (clone_call "/tmp/create-stb-1700000000000/create-stb-temp")
                      (graft ["home"; "dev"; "demo"] (Dir []) sample_fs)))
              sample_entries sample_package_json sample_serverless_yml
              [("name", JString "old"); ("description", JString "desc");
               ("version", JString "1.0.0")])
    as [n' [w' [E [_ [Hs [_ [Hp [Hy [Hrest Hgone]]]]]]]]];
    try reflexivity.
  - discriminate.
  - now left.
  - apply sample_entries_well_formed.
  - vm_compute. lia.
  - split; reflexivity.
  - split; reflexivity.
  - discriminate.
  - exists n', w'. split; [exact E|]. split; [exact Hs|]. split; [exact Hp|].
    split; [exact Hy|]. split; [|exact Hgone].
    exact (Hrest "src" ["handler.ts"] ltac:(discriminate) ltac:(discriminate)).
Defined.

Lemma throws_execSync (H : host) (command : string) (cwd : option string)
  (stdio : string) (w : world) (e : exn) :
  fst (child_process H (ExecShell command cwd stdio) (fs w)) = Some e
  -> throws (execSync H command cwd stdio) w e
       (snd (child_process H (ExecShell command cwd stdio) (fs w)))
       [ExecShell command cwd stdio].
Proof.
  intros Hc. unfold throws, execSync, spawn.
  destruct (child_process H (ExecShell command cwd stdio) (fs w)) as [r n].
  cbn [fst snd] in *. subst r. eexists. split; [reflexivity|]. now cbn [fs spawned stderr].
Qed.

(** A run of [main] in which the install fails, after every step before
    it went through (the runtime is recent enough, [git] works and
    delivers a well-formed template with its two metadata files, the
    project directory was missing or empty, the temporary directory lies
    apart from it and can be removed).  [main] throws the error of the
    install, whatever it is, after removing the temporary directory once
    more; nothing is rolled back: apart from the temporary directory, the
    file system is the one the failed install left, and the install ran on
    a project directory that held the template, renamed. *)
Theorem main_keeps_the_project_when_the_install_fails :
  forall (H : host) (fuel : nat) (name : string) (w : world)
         (major : N) (rest safeTempDir safeClonePath : string) (n2 n3 : node)
         (entries : list (string * node)) (text yml : string)
         (members : list (string * json)) (failure : exn),
    let projectPath := path_resolve (path H) [process_cwd H; name] in
    let tempDir :=
      path_join (path H) [os_tmpdir H; "create-stb-" ++ show_N (Date_now H)] in
    let project := locate H projectPath in
    let temp := locate H tempDir in
    let template := locate H (path_join (path H) [safeClonePath; "serverless"]) in
    name <> EmptyString
    -> process_version H = "v" ++ show_N major ++ "." ++ rest
    -> (20 <= Z.of_N major)%Z
    -> child_process H git_version (fs w) = (None, fs w)
    -> (walk project (fs w) = inl ENOENT \/ walk project (fs w) = inr (Dir []))
    -> sanitizePath H tempDir = inr safeTempDir
    -> sanitizePath H (path_join (path H) [safeTempDir; "create-stb-temp"])
       = inr safeClonePath
    -> child_process H (clone_call safeClonePath) (graft project (Dir []) (fs w))
       = (None, n2)
    -> child_process H (sparse_checkout_call safeClonePath) n2 = (None, n3)
    -> walk template n3 = inr (Dir entries)
    -> well_formed (Dir entries)
    -> depth (Dir entries) < fuel
    -> walk project n3 = inr (Dir [])
    -> apart template project
    -> apart temp project
    -> temp <> []
    -> os_refuses_removal H temp = None
    -> assoc "package.json" entries = Some (File text)
    -> JSON_parse H text = inr (JObject members)
    -> assoc "serverless.yml" entries = Some (File yml)
    -> (forall n, fst (child_process H (npm_install projectPath) n) = Some failure)
    -> exists n' w',
         main H fuel (Some name) w = (Throw failure, w')
         /\ (forall q, apart temp q
                       -> walk q (fs w')
                          = walk q (snd (child_process H (npm_install projectPath) n')))
         /\ (forall m, walk temp (fs w') <> inr m)
         /\ spawned w'
            = (spawned w ++ [git_version; clone_call safeClonePath;
                             sparse_checkout_call safeClonePath;
                             npm_install projectPath])%list
         /\ walk (project ++ ["package.json"])%list n'
            = inr (File (JSON_stringify (JObject (renamed name members)) 2))
         /\ walk (project ++ ["serverless.yml"])%list n'
            = inr (File (replace_service ("service: " ++ name) yml))
         /\ (forall x r, x <> "package.json" -> x <> "serverless.yml"
                         -> walk (project ++ x :: r)%list n'
                            = walk (template ++ x :: r)%list n3).
Proof.
  intros H fuel name w major rest safeTempDir safeClonePath n2 n3 entries text yml members
         failure projectPath tempDir project temp template
         Hname Hversion Hmajor Hgit Hproject Hsafe1 Hsafe2 Hclone Hsparse Htemplate Hwf Hfuel
         Hempty Hsrc Htemp Hroot Hos Hpkg Hparse Hyml Hnpm.
  destruct (pipeline_reaches_the_install H fuel name w major rest safeTempDir safeClonePath
              n2 n3 entries text yml members
              Hversion Hmajor Hgit Hproject Hsafe1 Hsafe2 Hclone Hsparse Htemplate Hwf Hfuel
              Hempty Hsrc Htemp Hroot Hos Hpkg Hparse Hyml)
    as [n' [Hp [Hy [Hrest [Hgone Hrun]]]]].
  set (n8 := snd (child_process H (npm_install projectPath) n')).
  destruct (Hrun (Throw failure) n8 [npm_install projectPath])
    as [w8 [E [Hfs8 [Hspawned _]]]].
  { intros w7 Hw7. apply throws_at_once. unfold n8. rewrite <- Hw7.
    apply throws_execSync. rewrite Hw7. apply Hnpm. }
  destruct (cleanupTemp_gone H temp n8 Hroot Hos) as [n9 [Hclean [Hgone9 Hframe9]]].
  exists n', (set_fs n9 w8). destruct name as [|c0 r0]; [congruence|].
  split; [|split; [|split; [|split; [|split; [|split]]]]].
  - change (main H fuel (Some (String c0 r0)))
      with (try_catch (pipeline H fuel (String c0 r0) projectPath tempDir)
              (fun error => cleanupTemp H temp ;; throw error)).
    unfold try_catch, projectPath, tempDir. rewrite E. unfold bind.
    now rewrite (Hclean w8 Hfs8).
  - exact Hframe9.
  - exact Hgone9.
  - exact Hspawned.
  - exact Hp.
  - exact Hy.
  - exact Hrest.
Qed.

(** The sample host with an install that fails. *)
Lemma main_keeps_the_project_when_the_install_fails_witness :
  exists n' w',
    main (no_npm_host) 5 (Some "demo") sample_world = (Throw npm_failure, w')
    /\ walk ["home"; "dev"; "demo"; "src"; "handler.ts"] (fs w')
       = inr (File "export const handler = 1;")
    /\ walk ["home"; "dev"; "demo"; "package.json"] n'
       = inr (File (JSON_stringify
                      (JObject [("name", JString "demo");
                                ("description", JString "demo app description");
                                ("version", JString "1.0.0")]) 2)).
Proof.
  destruct (main_keeps_the_project_when_the_install_fails no_npm_host 5 "demo" sample_world
              20 "11.0"
              "/tmp/create-stb-1700000000000"
              "/tmp/create-stb-1700000000000/create-stb-temp"
              (snd (child_process sample_host
                      (clone_call "/tmp/create-stb-1700000000000/create-stb-temp")
                      (graft ["home"; "dev"; "demo"] (Dir []) sample_fs)))
              (snd (child_process sample_host
                      (clone_call "/tmp/create-stb-1700000000000/create-stb-temp")
                      (graft ["home"; "dev"; "demo"] (Dir []) sample_fs)))
              sample_entries sample_package_json sample_serverless_yml
              [("name", JString "old"); ("description", JString "desc");
               ("version", JString "1.0.0")] npm_failure)
    as [n' [w' [E [Hframe [_ [_ [Hp [_ Hrest]]]]]]]];
    try reflexivity.
  - discriminate.
  - now left.
  - apply sample_entries_well_formed.
  - vm_compute. lia.
  - split; reflexivity.
  - split; reflexivity.
  - discriminate.
  - exists n', w'. split; [exact E|]. split; [|exact Hp].
    rewrite (Hframe ["home"; "dev"; "demo"; "src"; "handler.ts"])
      by (split; reflexivity).
    exact (Hrest "src" ["handler.ts"] ltac:(discriminate) ltac:(discriminate)).
Defined.

Lemma main_throws (H : host) (fuel : nat) (name : string) (w : world) (e : exn)
  (n : node) (l : list call) :
  name <> EmptyString
  -> (forall m,
        walk (locate H (path_join (path H)
                          [os_tmpdir H; "create-stb-" ++ show_N (Date_now H)])) n
        <> inr m)
  -> throws (pipeline H fuel name
               (path_resolve (path H) [process_cwd H; name])
               (path_join (path H) [os_tmpdir H; "create-stb-" ++ show_N (Date_now H)]))
       w e n l
  -> throws (main H fuel (Some name)) w e n l.
Proof.
  intros Hname Hgone [w' [E [Hfs rest]]]. destruct name as [|c r]; [congruence|].
  exists w'. cbn [main]. unfold try_catch. rewrite E. unfold bind.
  rewrite cleanupTemp_missing by now rewrite Hfs. now split.
Qed.

Lemma throws_unchanged {A : Type} (m : M A) (w : world) (e : exn) :
  m w = (Throw e, w) -> throws m w e (fs w) [].
Proof.
  intros E. exists w. split; [exact E|]. split; [reflexivity|].
  now rewrite app_nil_r.
Qed.

(** The three checks of [main] come before any change.  With a project
    name, and no entry yet where the temporary directory will be: on a
    runtime older than version 20 [main] throws "Node.js v20+ required"
    and has started no child process; when [git --version] fails it throws
    "Git is not installed..." and has started nothing else; when the
    project path is a directory with entries it throws "Directory ...
    exists and is not empty." and has started nothing but [git --version].
    In the three cases the file system is as it was (as [git --version]
    left it), so nothing is cloned, made or copied. *)
Theorem main_checks_come_first :
  forall (H : host) (fuel : nat) (name : string) (w : world) (major : N) (rest : string),
    name <> EmptyString
    -> process_version H = "v" ++ show_N major ++ "." ++ rest
    -> (forall m,
          walk (locate H (path_join (path H)
                            [os_tmpdir H; "create-stb-" ++ show_N (Date_now H)])) (fs w)
          <> inr m)
    -> ((Z.of_N major < 20)%Z
        -> throws (main H fuel (Some name)) w (Error "Node.js v20+ required") (fs w) [])
       /\ ((20 <= Z.of_N major)%Z
           -> forall e,
                child_process H git_version (fs w) = (Some e, fs w)
                -> throws (main H fuel (Some name)) w
                     (Error "Git is not installed. Please install git and try again.")
                     (fs w) [git_version])
       /\ ((20 <= Z.of_N major)%Z
           -> child_process H git_version (fs w) = (None, fs w)
           -> forall entry entries,
                walk (locate H (path_resolve (path H) [process_cwd H; name])) (fs w)
                = inr (Dir (entry :: entries))
                -> throws (main H fuel (Some name)) w
                     (Error ("Directory " ++ dquote
                             ++ show_path (locate H (path_resolve (path H)
                                                       [process_cwd H; name]))
                             ++ dquote ++ " exists and is not empty."))
                     (fs w) [git_version]).
Proof.
  intros H fuel name w major rest Hname Hversion Hgone. split; [|split].
  - intros Hold. apply main_throws; [exact Hname | exact Hgone|].
    unfold pipeline, step, doneStep, writeLine, clearLine, console_log.
    apply throws_after_write. intros w0 Hw0.
    apply throws_at_once. rewrite <- Hw0. apply throws_unchanged.
    now apply (checkNodeVersion_refuses H 20 major rest).
  - intros Hnew e Hgit. apply main_throws; [exact Hname | exact Hgone|].
    unfold pipeline, step, doneStep, writeLine, clearLine, console_log.
    apply throws_after_write. intros w0 Hw0.
    apply (throws_bind _ _ w0 tt (fs w) []).
    { rewrite <- Hw0. apply returns_unchanged.
      now apply (checkNodeVersion_passes H 20 major rest). }
    intros w1 Hw1. apply throws_after_write. intros w1' Hw1'.
    apply throws_after_write. intros w1'' Hw1''.
    apply throws_at_once. unfold throws, checkGitInstalled. run.
    unfold git_version in Hgit. rewrite Hw1'', Hw1', Hw1, Hgit.
    eexists. split; [reflexivity|]. now cbn [fs spawned stderr].
  - intros Hnew Hgit entry entries Hdir.
    apply main_throws; [exact Hname | exact Hgone|].
    unfold pipeline, step, doneStep, writeLine, clearLine, console_log.
    apply throws_after_write. intros w0 Hw0.
    apply (throws_bind _ _ w0 tt (fs w) []).
    { rewrite <- Hw0. apply returns_unchanged.
      now apply (checkNodeVersion_passes H 20 major rest). }
    intros w1 Hw1. apply throws_after_write. intros w1' Hw1'.
    apply throws_after_write. intros w1'' Hw1''.
    apply (throws_bind _ _ w1'' tt (fs w) [git_version]).
    { apply returns_checkGitInstalled. now rewrite Hw1'', Hw1', Hw1. }
    intros w2 Hw2. apply throws_after_write. intros w2' Hw2'.
    apply throws_after_write. intros w2'' Hw2''.
    apply throws_at_once.
    assert (Hfs : fs w2'' = fs w) by now rewrite Hw2'', Hw2'.
    rewrite <- Hfs. apply throws_unchanged.
    unfold createProjectDirectory. run. repeat (rewrite ?Hfs, Hdir; run).
    reflexivity.
Qed.

(** On the sample host, with the project [demo] already in place. *)
Lemma main_checks_come_first_witness :
  throws (main sample_host 5 (Some "demo")) project_world
    (Error ("Directory " ++ dquote ++ "/home/dev/demo" ++ dquote
            ++ " exists and is not empty."))
    (fs project_world) [git_version].
Proof.
  apply (proj2 (proj2 (main_checks_come_first sample_host 5 "demo" project_world 20 "11.0"
                         ltac:(discriminate) eq_refl ltac:(discriminate)))
           ltac:(discriminate) eq_refl
           ("package.json", File sample_package_json)
           [("serverless.yml", File sample_serverless_yml)] eq_refl).
Defined.

(** ** The first revision *)

(** A run of the first revision's [main] in which nothing fails.  The
    runtime is recent enough; the project directory is missing or empty;
    the package's [serverless] directory is a well-formed directory (with
    a [package.json] that parses to an object, and a [serverless.yml])
    apart from the project directory; the install succeeds.  Then [main]
    returns, having started the install and no other child process, with
    nothing on the error stream; the install ran on a file system in which
    the project directory holds the template entry for entry, but for
    [package.json], which is the descriptor renamed, and [serverless.yml],
    whose service line is rewritten; the template itself is as it was. *)
Theorem main_bundled_scaffolds_the_project :
  forall (H : host) (dirname : string) (fuel : nat) (name : string) (w : world)
         (major : N) (rest : string) (entries : list (string * node))
         (text yml : string) (members : list (string * json)),
    let projectPath := path_resolve (path H) [process_cwd H; name] in
    let project := locate H projectPath in
    let template := locate H (path_resolve (path H) [dirname; ".."; "serverless"]) in
    name <> EmptyString
    -> process_version H = "v" ++ show_N major ++ "." ++ rest
    -> (20 <= Z.of_N major)%Z
    -> (walk project (fs w) = inl ENOENT \/ walk project (fs w) = inr (Dir []))
    -> walk template (fs w) = inr (Dir entries)
    -> well_formed (Dir entries)
    -> depth (Dir entries) < fuel
    -> apart template project
    -> assoc "package.json" entries = Some (File text)
    -> JSON_parse H text = inr (JObject members)
    -> assoc "serverless.yml" entries = Some (File yml)
    -> (forall n, fst (child_process H (npm_install projectPath) n) = None)
    -> exists n' w',
         main_bundled H dirname fuel (Some name) w = (Ret tt, w')
         /\ fs w' = snd (child_process H (npm_install projectPath) n')
         /\ spawned w' = (spawned w ++ [npm_install projectPath])%list
         /\ stderr w' = stderr w
         /\ walk (project ++ ["package.json"])%list n'
            = inr (File (JSON_stringify (JObject (renamed name members)) 2))
         /\ walk (project ++ ["serverless.yml"])%list n'
            = inr (File (replace_service ("service: " ++ name) yml))
         /\ (forall x r, x <> "package.json" -> x <> "serverless.yml"
                         -> walk (project ++ x :: r)%list n'
                            = walk (template ++ x :: r)%list (fs w))
         /\ (forall r, walk (template ++ r)%list n' = walk (template ++ r)%list (fs w)).
Proof.
  intros H dirname fuel name w major rest entries text yml members
         projectPath project template
         Hname Hversion Hmajor Hproject Htemplate Hwf Hfuel Hsrc Hpkg Hparse Hyml Hnpm.
  set (n1 := graft project (Dir []) (fs w)).
  set (n2 := graft project (Dir entries) (fs w)).
  assert (Hclear : clear project (fs w)).
  { destruct Hproject as [Hp | Hp]; [now left | right; eauto]. }
  assert (Hinside : forall q, walk (project ++ q)%list n2 = walk (template ++ q)%list (fs w)).
  { intros q. unfold n2. rewrite !walk_app, Htemplate.
    now rewrite walk_graft_same by exact Hclear. }
  set (file1 := (project ++ ["package.json"])%list).
  set (file2 := (project ++ ["serverless.yml"])%list).
  set (n3 := graft file1 (File (JSON_stringify (JObject (renamed name members)) 2)) n2).
  set (n4 := graft file2 (File (replace_service ("service: " ++ name) yml)) n3).
  assert (Hfile1 : walk file1 n2 = inr (File text)).
  { unfold file1. rewrite Hinside, walk_app, Htemplate. cbn [walk]. now rewrite Hpkg. }
  assert (Hfile2 : walk file2 n3 = inr (File yml)).
  { unfold n3, file1, file2. rewrite walk_graft_apart by (apply apart_siblings; discriminate).
    rewrite Hinside, walk_app, Htemplate. cbn [walk]. now rewrite Hyml. }
  assert (Hrun : returns (main_bundled H dirname fuel (Some name)) w tt
                   (snd (child_process H (npm_install projectPath) n4))
                   [npm_install projectPath]).
  { destruct name as [|c0 r0]; [congruence|]. cbn [main_bundled].
    unfold step, doneStep, writeLine, clearLine, console_log.
    fold projectPath. fold project template.
    apply returns_after_write. intros w0 Hw0.
    apply (returns_bind _ _ w0 tt (fs w) []).
    { rewrite <- Hw0. apply returns_unchanged.
      now apply (checkNodeVersion_passes H 20 major rest). }
    intros w1 Hw1. apply returns_after_write. intros w1' Hw1'.
    apply returns_after_write. intros w1'' Hw1''.
    apply (returns_bind _ _ w1'' tt n1 []).
    { apply returns_fs_only. rewrite createProjectDirectory_grafts;
        rewrite Hw1'', Hw1', Hw1; [reflexivity | exact Hproject]. }
    intros w2 Hw2. apply returns_after_write. intros w2' Hw2'.
    apply returns_after_write. intros w2'' Hw2''.
    assert (Hfs2 : fs w2'' = n1) by now rewrite Hw2'', Hw2'.
    apply (returns_bind _ _ w2'' tt n2 []).
    { apply returns_fs_only. rewrite (copyDir_grafts (Dir entries)); rewrite ?Hfs2;
        try assumption.
      - unfold n1, n2. now rewrite graft_graft.
      - unfold n1. now rewrite walk_graft_apart by (apply apart_sym; exact Hsrc).
      - eauto.
      - right. unfold n1. now apply walk_graft_same. }
    intros w3 Hw3. apply returns_after_write. intros w3' Hw3'.
    apply returns_after_write. intros w3'' Hw3''.
    assert (Hfs3 : fs w3'' = n2) by now rewrite Hw3'', Hw3'.
    apply (returns_bind _ _ w3'' tt n3 []).
    { apply returns_fs_only.
      rewrite (updatePackageJson_object H project (String c0 r0) w3'' text members);
        rewrite ?Hfs3; [reflexivity | exact Hfile1 | exact Hparse]. }
    intros w4 Hw4. apply returns_after_write. intros w4' Hw4'.
    apply returns_after_write. intros w4'' Hw4''.
    assert (Hfs4 : fs w4'' = n3) by now rewrite Hw4'', Hw4'.
    apply (returns_bind _ _ w4'' tt n4 []).
    { apply returns_fs_only.
      rewrite (updateServerlessYml_file project (String c0 r0) yml w4''); rewrite ?Hfs4;
        [reflexivity | exact Hfile2]. }
    intros w5 Hw5. apply returns_after_write. intros w5' Hw5'.
    apply returns_after_write. intros w5'' Hw5''.
    assert (Hfs5 : fs w5'' = n4) by now rewrite Hw5'', Hw5'.
    apply (returns_bind _ _ w5'' tt (snd (child_process H (npm_install projectPath) n4))
             [npm_install projectPath] tt _ []).
    { rewrite <- Hfs5. apply returns_execSync. apply Hnpm. }
    intros w6 Hw6. apply returns_after_write. intros w6' Hw6'.
    apply returns_after_write. intros w6'' Hw6''.
    rewrite <- Hw6, <- Hw6', <- Hw6''. apply returns_stdout_write. }
  destruct Hrun as [w' [E [Hfs [Hspawned Hstderr]]]].
  exists n4, w'. split; [exact E|]. split; [exact Hfs|]. split; [exact Hspawned|].
  split; [exact Hstderr|]. split; [|split; [|split]].
  - unfold n4. rewrite walk_graft_apart by (apply apart_siblings; discriminate).
    unfold n3. apply walk_graft_same. right. eauto.
  - unfold n4. apply walk_graft_same. right. eauto.
  - intros x r Hx1 Hx2. unfold n4, n3, file1, file2.
    rewrite !walk_graft_apart by now apply apart_siblings.
    apply Hinside.
  - intros r. unfold n4, n3, n2, file1, file2.
    rewrite !walk_graft_apart; try reflexivity;
      try (apply apart_below); apply apart_sym, apart_below; exact Hsrc.
Qed.

(** The package installed under [/opt/create-stb], run for the project
    [demo]. *)
Lemma main_bundled_scaffolds_the_project_witness :
  exists n' w',
    main_bundled sample_host "/opt/create-stb/bin" 5 (Some "demo") bundled_world = (Ret tt, w')
    /\ spawned w' = [npm_install "/home/dev/demo"]
    /\ walk ["home"; "dev"; "demo"; "package.json"] n'
       = inr (File (JSON_stringify
                      (JObject [("name", JString "demo");
                                ("description", JString "demo app description");
                                ("version", JString "1.0.0")]) 2))
    /\ walk ["home"; "dev"; "demo"; ".gitignore"] n' = inr (File "node_modules").
Proof.
  destruct (main_bundled_scaffolds_the_project sample_host "/opt/create-stb/bin" 5 "demo"
              bundled_world 20 "11.0" sample_entries sample_package_json
              sample_serverless_yml
              [("name", JString "old"); ("description", JString "desc");
               ("version", JString "1.0.0")])
    as [n' [w' [E [_ [Hs [_ [Hp [_ [Hrest _]]]]]]]]];
    try reflexivity.
  - discriminate.
  - now left.
  - apply sample_entries_well_formed.
  - vm_compute. lia.
  - split; reflexivity.
  - exists n', w'. split; [exact E|]. split; [exact Hs|]. split; [exact Hp|].
    exact (Hrest ".gitignore" [] ltac:(discriminate) ltac:(discriminate)).
Defined.

(** ** The seeding helpers *)

Section SeedProofs.

Context {item failure time outside : Type}.

Variables (cross_mark check_mark : string).

Lemma for_of_attempts (put : string -> item -> Async failure outside unit)
  (tableName : string) (data : list item) (s : seeding failure outside) :
  for_of data (fun it =>
    caught (put tableName it)
      (fun error =>
         log_error ("  " ++ cross_mark ++ " Error seeding " ++ tableName ++ ":") error)) s
  = (Fulfilled tt, fold_left (attempt cross_mark put tableName) data s).
Proof.
  revert s. induction data as [|it r IH]; intros s; [reflexivity|].
  cbn [for_of fold_left]. unfold await at 1, caught, attempt at 2.
  destruct (put tableName it s) as [[[]|e] s']; cbn beta iota; [apply IH|].
  unfold log_error. cbn beta iota. apply IH.
Qed.

(** [seedTable] is never rejected, whatever the insert does: after the
    opening line it attempts every item of the array once, in the array's
    order, each on the state its predecessor left; an insert that is
    rejected adds one report with the error to the console, and the loop
    goes on. *)
Theorem seedTable_attempts_every_item :
  forall (put : string -> item -> Async failure outside unit) (tableName : string)
         (data : list item) (s : seeding failure outside),
    seedTable cross_mark put tableName data s
    = (Fulfilled tt,
       fold_left (attempt cross_mark put tableName) data
         {| beyond := beyond s;
            console := (console s
                        ++ [Logged ("Seeding " ++ tableName ++ " with "
                                    ++ show_length data ++ " items...")])%list |}).
Proof.
  intros put tableName data s. unfold seedTable, await at 1, log. cbn beta iota.
  apply for_of_attempts.
Qed.

(** [generateAndSeed] is fulfilled with the array it has seeded, whatever
    inserts were rejected: when the clock can be read, the generator
    yields an array and the post-processing (if one is given) goes through,
    the array seeded and returned is the one the post-processing returned,
    or, when it returned nothing, the generated array as the
    post-processing left it, or the generated array when no
    post-processing is given; every item of it is attempted once, in
    order; and the closing line, with the number of items, is the last
    thing on the console. *)
Theorem generateAndSeed_returns_what_it_seeded :
  forall (performance_now : Async failure outside time) (seconds : time -> time -> string)
         (put : string -> item -> Async failure outside unit) (tableName : string)
         (generator : Async failure outside (list item))
         (postProcess : option (list item
                                -> Async failure outside (list item * option (list item))))
         (s s1 s2 : seeding failure outside)
         (generated left returned : list item) (answer : option (list item)),
    (forall s0, exists t, performance_now s0 = (Fulfilled t, s0))
    -> generator s = (Fulfilled generated, s1)
    -> match postProcess with
       | Some process => process generated s1 = (Fulfilled (left, answer), s2)
       | None => left = generated /\ answer = None /\ s2 = s1
       end
    -> returned = match answer with Some result => result | None => left end
    -> exists start finish,
         generateAndSeed cross_mark check_mark performance_now seconds put tableName
           generator postProcess s
         = (Fulfilled returned,
            {| beyond := beyond (fold_left (attempt cross_mark put tableName) returned s2);
               console :=
                 (console (fold_left (attempt cross_mark put tableName) returned s2)
                  ++ [Logged (check_mark ++ " " ++ tableName ++ " generated & seeded in "
                              ++ seconds start finish ++ "s (" ++ show_length returned
                              ++ " items)" ++ newline)])%list |}).
Proof.
  intros performance_now seconds put tableName generator postProcess s s1 s2
         generated left returned answer Hclock Hgen Hpost ->.
  destruct (Hclock s) as [start Hstart].
  destruct (Hclock (fold_left (attempt cross_mark put tableName)
                      match answer with Some result => result | None => left end s2))
    as [finish Hfinish].
  exists start, finish. unfold generateAndSeed.
  unfold await at 1. rewrite Hstart. unfold await at 1. rewrite Hgen.
  unfold await at 1.
  assert (Hdata : (match postProcess with
                   | Some process =>
                       await (process generated) (fun r =>
                         match snd r with
                         | Some result => resolve result
                         | None => resolve (fst r)
                         end)
                   | None => resolve generated
                   end) s1
                  = (Fulfilled match answer with Some result => result | None => left end,
                     s2)).
  { destruct postProcess as [process|].
    - unfold await. rewrite Hpost. cbn [fst snd]. now destruct answer.
    - destruct Hpost as [-> [-> ->]]. reflexivity. }
  rewrite Hdata. unfold await at 1. rewrite for_of_attempts.
  unfold await at 1. rewrite Hfinish. reflexivity.
Qed.

End SeedProofs.

(** Four numbers, the odd ones rejected: both even numbers are
    inserted, after as well as before the rejections, and two reports are
    on the console. *)
Lemma generateAndSeed_returns_what_it_seeded_witness :
  exists start finish,
    generateAndSeed (item := nat) (time := nat) "x" "v" (fun s => (Fulfilled 0, s))
      (fun _ _ => "0.000") odd_rejected "Example"
      (fun s => (Fulfilled [1; 2; 3; 4], s)) None
      {| beyond := []; console := [] |}
    = (Fulfilled [1; 2; 3; 4],
       {| beyond := [2; 4];
          console := [Reported "  x Error seeding Example:" "odd";
                      Reported "  x Error seeding Example:" "odd";
                      Logged ("v Example generated & seeded in "
                              ++ (fun _ _ : nat => "0.000") start finish
                              ++ "s (4 items)" ++ newline)] |}).
Proof.
  destruct (generateAndSeed_returns_what_it_seeded "x" "v"
              (fun s => (Fulfilled 0, s)) (fun _ _ : nat => "0.000") odd_rejected "Example"
              (fun s => (Fulfilled [1; 2; 3; 4], s)) None
              {| beyond := []; console := [] |} {| beyond := []; console := [] |}
              {| beyond := []; console := [] |} [1; 2; 3; 4] [1; 2; 3; 4] [1; 2; 3; 4] None)
    as [start [finish E]].
  - intros s0. now exists 0.
  - reflexivity.
  - now repeat split.
  - reflexivity.
  - exists start, finish. exact E.
Defined.
